(** * Landing-page editor (bot.py): the text model

    A shallow embedding of the core of [bot.py]: the record literal codec
    ([js_apps_to_python], [python_apps_to_js]) and the document model
    ([LPData.load], [LPData.save]), together with the parts of the Python
    library they call ([re.search], [re.sub] and its replacement templates,
    [int], [json.dumps], [eval] on a fragment of the expression grammar,
    [open]/[write]).

    Text is a list of characters; a character is a code point below 256
    (Rocq's [ascii]).  Documents with other code points are outside the
    model. *)

From Stdlib Require Import List Ascii String ZArith Lia Bool Arith DecimalString.
Import ListNotations.

Set Implicit Arguments.

(* ===================================================================== *)
(** ** Text *)
(* ===================================================================== *)

Definition text := list ascii.

Definition dq : ascii := "034"%char.      (* the double quote *)
Definition nl : ascii := "010"%char.      (* the line feed *)
Definition bsl : ascii := "092"%char.     (* the backslash *)

(** A literal of the development.  A Rocq string cannot hold a double
    quote without doubling it, so [py] writes the apostrophe for it:
    [py "<h1 class='a'>"] is the text [<h1 class="a">]. *)
Definition str (s : string) : text := list_ascii_of_string s.

Definition py (s : string) : text :=
  map (fun c => if Ascii.eqb c "'"%char then dq else c) (str s).

Fixpoint text_eqb (a b : text) : bool :=
  match a, b with
  | [], [] => true
  | x :: a', y :: b' => Ascii.eqb x y && text_eqb a' b'
  | _, _ => false
  end.

Lemma text_eqb_spec a b : reflect (a = b) (text_eqb a b).
Proof.
  revert b; induction a as [|x a IH]; intros [|y b]; simpl;
    try (constructor; congruence).
  destruct (Ascii.eqb_spec x y) as [->|Hn]; simpl.
  - destruct (IH b) as [->|Hn]; constructor; congruence.
  - constructor; congruence.
Qed.

Lemma text_eqb_refl a : text_eqb a a = true.
Proof. destruct (text_eqb_spec a a); congruence. Qed.

(** [sep.join(parts)] *)
Fixpoint join (sep : text) (parts : list text) : text :=
  match parts with
  | [] => []
  | [p] => p
  | p :: rest => p ++ sep ++ join sep rest
  end.

Definition code (c : ascii) : nat := nat_of_ascii c.

Definition in_range (lo hi : nat) (c : ascii) : bool :=
  (lo <=? code c) && (code c <=? hi).

Definition is_digit (c : ascii) : bool := in_range 48 57 c.         (* [0-9] *)
Definition is_octdigit (c : ascii) : bool := in_range 48 55 c.      (* [0-7] *)
Definition is_ascii_letter (c : ascii) : bool :=
  in_range 65 90 c || in_range 97 122 c.                            (* [a-zA-Z] *)

(** [\s] of a [str] pattern, and the characters [str.strip] and [int]
    skip: the Unicode white space below 256. *)
Definition is_space (c : ascii) : bool :=
  in_range 9 13 c || in_range 28 32 c
  || Nat.eqb (code c) 133 || Nat.eqb (code c) 160.

(** [\w] of a [str] pattern below 256: the alphanumerics and [_]. *)
Definition is_word (c : ascii) : bool :=
  is_digit c || is_ascii_letter c || Nat.eqb (code c) 95
  || Nat.eqb (code c) 170 || in_range 178 179 c || Nat.eqb (code c) 181
  || in_range 185 186 c || in_range 188 190 c
  || in_range 192 214 c || in_range 216 246 c || in_range 248 255 c.

(** [.] without and with [re.DOTALL]. *)
Definition dot (c : ascii) : bool := negb (Ascii.eqb c nl).
Definition dotall (c : ascii) : bool := true.

Definition is_not (x : ascii) (c : ascii) : bool := negb (Ascii.eqb c x).

(* ===================================================================== *)
(** ** Outcomes

    A Python call returns, raises, or falls outside what this
    development models ([Unmodelled] claims nothing about the program). *)
(* ===================================================================== *)

Inductive pyexn : Type :=
| NameError (name : text)           (* name '<name>' is not defined *)
| SyntaxError
| TypeError
| AttributeError
| ValueError_int (literal : text)   (* int(): invalid literal *)
| ValueError_apps (cause : pyexn)   (* js_apps_to_python's own ValueError *)
| re_error                          (* re.error and IndexError of a template *)
| FileNotFoundError (path : text)
| OSError.

Inductive outcome (A : Type) : Type :=
| Ret (a : A)
| Raise (e : pyexn)
| Unmodelled.

Arguments Ret {A} a.
Arguments Raise {A} e.
Arguments Unmodelled {A}.

Definition bind {A B} (m : outcome A) (f : A -> outcome B) : outcome B :=
  match m with
  | Ret a => f a
  | Raise e => Raise e
  | Unmodelled => Unmodelled
  end.

Notation "x <- m ;; k" := (bind m (fun x => k))
  (at level 61, m at next level, right associativity).

Fixpoint mapM {A B} (f : A -> outcome B) (l : list A) : outcome (list B) :=
  match l with
  | [] => Ret []
  | a :: l' => b <- f a ;; bs <- mapM f l' ;; Ret (b :: bs)
  end.

(* ===================================================================== *)
(** ** Regular expressions ([re])

    The patterns of [bot.py] are sequences of literal text, single
    character classes under a quantifier ([+], [*], [?], [*?]), the word
    boundary and capturing groups.  [rmatch] is the backtracking matcher
    for that fragment: alternatives are tried in the order [re] tries
    them, and the first success wins. *)
(* ===================================================================== *)

Inductive regex : Type :=
| RStr (s : text)                               (* literal text *)
| RSet (p : ascii -> bool)                      (* one character of a class *)
| RRep (greedy least1 : bool) (p : ascii -> bool)  (* p* p+ p*? p+? *)
| ROpt (p : ascii -> bool)                      (* p? *)
| RBoundary                                     (* \b *)
| RGroup (n : nat) (r : regex)                  (* the n-th ( ... ) *)
| RCat (r1 r2 : regex).

Abbreviation RStar p := (RRep true false p).
Abbreviation RPlus p := (RRep true true p).
Abbreviation RLazy p := (RRep false false p).
Infix "⋅" := RCat (at level 40, left associativity).

Fixpoint groups_of (r : regex) : nat :=
  match r with
  | RGroup _ r' => S (groups_of r')
  | RCat r1 r2 => groups_of r1 + groups_of r2
  | _ => 0
  end.

Definition caps := list (nat * text).

Fixpoint cap_lookup (n : nat) (g : caps) : option text :=
  match g with
  | [] => None
  | (m, t) :: g' => if Nat.eqb n m then Some t else cap_lookup n g'
  end.

Fixpoint strip_prefix (p s : text) : option text :=
  match p, s with
  | [], _ => Some s
  | x :: p', y :: s' => if Ascii.eqb x y then strip_prefix p' s' else None
  | _ :: _, [] => None
  end.

Fixpoint last_of (prev : option ascii) (p : text) : option ascii :=
  match p with
  | [] => prev
  | c :: p' => last_of (Some c) p'
  end.

Definition word_at (c : option ascii) : bool :=
  match c with Some x => is_word x | None => false end.

(** [\b]: exactly one of the neighbours is a word character. *)
Definition at_boundary (prev : option ascii) (s : text) : bool :=
  xorb (word_at prev) (word_at (hd_error s)).

Definition or_else {A} (a b : option A) : option A :=
  match a with Some _ => a | None => b end.

Section Matcher.
Variable A : Type.

(** the longest run first, then shorter ones *)
Fixpoint rep_greedy (p : ascii -> bool) (k : option ascii -> text -> option A)
         (prev : option ascii) (s : text) : option A :=
  match s with
  | c :: s' =>
      if p c then or_else (rep_greedy p k (Some c) s') (k prev s)
      else k prev s
  | [] => k prev s
  end.

(** the shortest run first, then longer ones *)
Fixpoint rep_lazy (p : ascii -> bool) (k : option ascii -> text -> option A)
         (prev : option ascii) (s : text) : option A :=
  match k prev s with
  | Some a => Some a
  | None =>
      match s with
      | c :: s' => if p c then rep_lazy p k (Some c) s' else None
      | [] => None
      end
  end.

Fixpoint rmatch (r : regex) (prev : option ascii) (s : text) (g : caps)
         (k : option ascii -> text -> caps -> option A) : option A :=
  match r with
  | RStr l =>
      match strip_prefix l s with
      | Some s' => k (last_of prev l) s' g
      | None => None
      end
  | RSet p =>
      match s with
      | c :: s' => if p c then k (Some c) s' g else None
      | [] => None
      end
  | RRep greedy least1 p =>
      let loop := (if greedy then rep_greedy else rep_lazy)
                    p (fun pv s' => k pv s' g) in
      if least1 then
        match s with
        | c :: s' => if p c then loop (Some c) s' else None
        | [] => None
        end
      else loop prev s
  | ROpt p =>
      match s with
      | c :: s' =>
          if p c then or_else (k (Some c) s' g) (k prev s g) else k prev s g
      | [] => k prev s g
      end
  | RBoundary => if at_boundary prev s then k prev s g else None
  | RGroup n r' =>
      rmatch r' prev s g
        (fun pv s' g' => k pv s' ((n, firstn (List.length s - List.length s') s) :: g'))
  | RCat r1 r2 =>
      rmatch r1 prev s g (fun pv s' g' => rmatch r2 pv s' g' k)
  end.
End Matcher.

(** A match object: the text matched, its groups, and what follows it. *)
Record Match : Type := { m_text : text; m_groups : caps; m_rest : text }.

(** [m.group(n)].  Every group of every pattern of [bot.py] takes part in
    every match, so the [None] of an unmatched group never shows; a
    template expands it to the empty text. *)
Definition group (n : nat) (m : Match) : text :=
  match n with
  | 0 => m_text m
  | _ => match cap_lookup n (m_groups m) with Some t => t | None => [] end
  end.

(** One attempt at the current position.  [advance] is the engine's
    [must_advance]: an empty match is refused and backtracked. *)
Definition match_here (r : regex) (advance : bool)
           (prev : option ascii) (s : text) : option Match :=
  rmatch r prev s []
    (fun _ s' g =>
       if advance && Nat.eqb (List.length s') (List.length s) then None
       else Some {| m_text := firstn (List.length s - List.length s') s;
                    m_groups := g; m_rest := s' |}).

(** [re.search]: the leftmost position with a match. *)
Fixpoint search_from (r : regex) (prev : option ascii) (s : text) : option Match :=
  match match_here r false prev s with
  | Some m => Some m
  | None =>
      match s with
      | [] => None
      | c :: s' => search_from r (Some c) s'
      end
  end.

Definition re_search (r : regex) (s : text) : option Match :=
  search_from r None s.

(* ===================================================================== *)
(** ** Replacement templates ([re.sub]'s [repl])

    [re.sub] reads a replacement that holds a backslash as a template
    ([sre_parse.parse_template]): [\N] and [\g<N>] are group references,
    [\0], [\0d], [\0dd] and three octal digits are a character, [\n] and
    the like are control characters, a backslash before another ASCII
    letter is an error, before anything else it stays.  The template is
    parsed before the text is searched, so its errors are raised whether
    or not the pattern matches. *)
(* ===================================================================== *)

Inductive titem : Type :=
| TLit (c : ascii)
| TGroup (n : nat).

Inductive tmode : Type :=
| Plain
| InName (acc : text).        (* inside \g< ... >, the name so far, reversed *)

Definition digit_val (c : ascii) : nat := code c - 48.

Fixpoint decimal_val (acc : Z) (ds : text) : Z :=
  match ds with
  | [] => acc
  | d :: ds' => decimal_val (10 * acc + Z.of_nat (digit_val d)) ds'
  end.

Definition escape_char (e : ascii) : option ascii :=
  if Ascii.eqb e "a" then Some (ascii_of_nat 7)
  else if Ascii.eqb e "b" then Some (ascii_of_nat 8)
  else if Ascii.eqb e "f" then Some (ascii_of_nat 12)
  else if Ascii.eqb e "n" then Some (ascii_of_nat 10)
  else if Ascii.eqb e "r" then Some (ascii_of_nat 13)
  else if Ascii.eqb e "t" then Some (ascii_of_nat 9)
  else if Ascii.eqb e "v" then Some (ascii_of_nat 11)
  else if Ascii.eqb e bsl then Some bsl
  else None.

Definition is_ident_start (c : ascii) : bool :=
  is_ascii_letter c || Ascii.eqb c "_".
Definition is_ident_char (c : ascii) : bool :=
  is_ident_start c || is_digit c.

(** The name of [\g<name>].  None of the patterns has a named group, so
    an identifier is an unknown group name.  Names that are neither
    ASCII digits nor an ASCII identifier are read differently by
    different versions of the library. *)
Definition group_of_name (groups : nat) (name : text) : outcome nat :=
  match name with
  | [] => Raise re_error
  | c :: rest =>
      if forallb is_digit name then
        (if (Z.of_nat groups <? decimal_val 0 name)%Z then Raise re_error
         else Ret (Z.to_nat (decimal_val 0 name)))
      else if is_ident_start c && forallb is_ident_char rest then Raise re_error
      else Unmodelled
  end.

Definition then_lit (c : ascii) (k : outcome (list titem)) : outcome (list titem) :=
  rest <- k ;; Ret (TLit c :: rest).

Definition then_group (groups n : nat) (k : outcome (list titem))
  : outcome (list titem) :=
  if groups <? n then Raise re_error
  else rest <- k ;; Ret (TGroup n :: rest).

Fixpoint parse_template (groups : nat) (mode : tmode) (t : text)
  : outcome (list titem) :=
  match mode, t with
  | Plain, [] => Ret []
  | Plain, c :: t1 =>
      if negb (Ascii.eqb c bsl) then then_lit c (parse_template groups Plain t1)
      else
        match t1 with
        | [] => Raise re_error                       (* bad escape (end of pattern) *)
        | e :: t2 =>
            if Ascii.eqb e "g" then
              match t2 with
              | lt :: t3 =>
                  if Ascii.eqb lt "<" then parse_template groups (InName []) t3
                  else Raise re_error                (* missing < *)
              | [] => Raise re_error
              end
            else if Ascii.eqb e "0" then
              match t2 with
              | d1 :: t3 =>
                  if is_octdigit d1 then
                    match t3 with
                    | d2 :: t4 =>
                        if is_octdigit d2 then
                          then_lit (ascii_of_nat (8 * digit_val d1 + digit_val d2))
                                   (parse_template groups Plain t4)
                        else then_lit (ascii_of_nat (digit_val d1))
                                      (parse_template groups Plain t3)
                    | [] => then_lit (ascii_of_nat (digit_val d1))
                                     (parse_template groups Plain t3)
                    end
                  else then_lit (ascii_of_nat 0) (parse_template groups Plain t2)
              | [] => then_lit (ascii_of_nat 0) (parse_template groups Plain t2)
              end
            else if is_digit e then
              match t2 with
              | d1 :: t3 =>
                  if is_digit d1 then
                    match t3 with
                    | d2 :: t4 =>
                        if is_octdigit e && is_octdigit d1 && is_octdigit d2 then
                          let v := 64 * digit_val e + 8 * digit_val d1 + digit_val d2 in
                          if 255 <? v then Raise re_error
                          else then_lit (ascii_of_nat v) (parse_template groups Plain t4)
                        else then_group groups (10 * digit_val e + digit_val d1)
                                        (parse_template groups Plain t3)
                    | [] => then_group groups (10 * digit_val e + digit_val d1)
                                       (parse_template groups Plain t3)
                    end
                  else then_group groups (digit_val e) (parse_template groups Plain t2)
              | [] => then_group groups (digit_val e) (parse_template groups Plain t2)
              end
            else
              match escape_char e with
              | Some ch => then_lit ch (parse_template groups Plain t2)
              | None =>
                  if is_ascii_letter e then Raise re_error    (* bad escape *)
                  else then_lit bsl (then_lit e (parse_template groups Plain t2))
              end
        end
  | InName acc, [] => Raise re_error                 (* missing >, unterminated name *)
  | InName acc, c :: t1 =>
      if Ascii.eqb c ">" then
        n <- group_of_name groups (rev acc) ;;
        rest <- parse_template groups Plain t1 ;;
        Ret (TGroup n :: rest)
      else if Ascii.eqb c bsl then
        match t1 with
        | [] => Raise re_error
        | e :: t2 => parse_template groups (InName (e :: c :: acc)) t2
        end
      else parse_template groups (InName (c :: acc)) t1
  end.

Definition expand (items : list titem) (m : Match) : text :=
  flat_map (fun i => match i with
                     | TLit c => [c]
                     | TGroup n => group n m
                     end) items.

(** [re.sub] with [count=0]: the text is scanned from the left; at each
    position outside the previous match the pattern is tried; a match is
    replaced by [repl m] and the scan resumes after it.  [skip] counts
    the characters of the current match still to pass.  After an empty
    match the engine must advance: a non-empty match is tried at the
    same position before the character is copied. *)
Fixpoint sub_scan (r : regex) (repl : Match -> text)
         (prev : option ascii) (s : text) (skip : nat) : text :=
  match skip, s with
  | S n, c :: s' => sub_scan r repl (Some c) s' n
  | S _, [] => []
  | 0, _ =>
      let copy :=
        match s with
        | [] => []
        | c :: s' => c :: sub_scan r repl (Some c) s' 0
        end in
      let pass (m : Match) :=
        match s with
        | [] => []
        | c :: s' => sub_scan r repl (Some c) s' (List.length (m_text m) - 1)
        end in
      match match_here r false prev s with
      | None => copy
      | Some m =>
          match m_text m with
          | _ :: _ => repl m ++ pass m
          | [] =>
              repl m ++
              match match_here r true prev s with
              | Some m2 => repl m2 ++ pass m2
              | None => copy
              end
          end
      end
  end.

(** [re.sub(pattern, function, s)] *)
Definition re_sub_fun (r : regex) (repl : Match -> text) (s : text) : text :=
  sub_scan r repl None s 0.

(** [re.sub(pattern, template, s)] *)
Definition re_sub (r : regex) (repl : text) (s : text) : outcome text :=
  items <- parse_template (groups_of r) Plain repl ;;
  Ret (re_sub_fun r (expand items) s).

(* ===================================================================== *)
(** ** Python values

    The values a decoded literal is made of.  Floats are outside the
    model.  A dict is its items in insertion order. *)
(* ===================================================================== *)

#[local] Set Warnings "-register-all".

Inductive value : Type :=
| VNone
| VBool (b : bool)
| VInt (n : Z)
| VStr (s : text)
| VList (l : list value)
| VDict (d : list (value * value)).

Definition decimal (n : Z) : text :=
  str (DecimalString.NilZero.string_of_int (Z.to_int n)).

(** [str(v)], which is also how an f-string renders [{v}].  The
    rendering of a list or dict goes through [repr] and is not modelled. *)
Definition py_str (v : value) : outcome text :=
  match v with
  | VNone => Ret (py "None")
  | VBool true => Ret (py "True")
  | VBool false => Ret (py "False")
  | VInt n => Ret (decimal n)
  | VStr s => Ret s
  | VList _ | VDict _ => Unmodelled
  end.

(** [bool(v)] *)
Definition truthy (v : value) : bool :=
  match v with
  | VNone => false
  | VBool b => b
  | VInt n => negb (Z.eqb n 0)
  | VStr s => match s with [] => false | _ => true end
  | VList l => match l with [] => false | _ => true end
  | VDict d => match d with [] => false | _ => true end
  end.

(** [for x in v] *)
Definition py_iter (v : value) : outcome (list value) :=
  match v with
  | VList l => Ret l
  | VStr s => Ret (map (fun c => VStr [c]) s)
  | VDict d => Ret (map fst d)
  | VNone | VBool _ | VInt _ => Raise TypeError
  end.

(** [d.get(key, default)] for a [str] key: only a [str] key compares
    equal to it. *)
Fixpoint dict_get (d : list (value * value)) (key : text) : option value :=
  match d with
  | [] => None
  | (VStr k, v) :: d' => if text_eqb k key then Some v else dict_get d' key
  | _ :: d' => dict_get d' key
  end.

Definition get (d : list (value * value)) (key : text) (default : value) : value :=
  match dict_get d key with
  | Some v => v
  | None => default
  end.

(* ===================================================================== *)
(** ** [int(s)] and [json.dumps] *)
(* ===================================================================== *)

Fixpoint lstrip (p : ascii -> bool) (s : text) : text :=
  match s with
  | c :: s' => if p c then lstrip p s' else s
  | [] => []
  end.

(** [s.strip()] for a set of characters [p] *)
Definition strip_of (p : ascii -> bool) (s : text) : text :=
  rev (lstrip p (rev (lstrip p s))).

Definition strip (s : text) : text := strip_of is_space s.

(** the white space [int] skips: the ASCII one, and the Unicode one
    above 127 *)
Definition is_int_space (c : ascii) : bool :=
  in_range 9 13 c || Nat.eqb (code c) 32
  || Nat.eqb (code c) 133 || Nat.eqb (code c) 160.

(** digits with single underscores between them *)
Fixpoint int_digits (after_digit : bool) (acc : Z) (s : text) : option Z :=
  match s with
  | [] => if after_digit then Some acc else None
  | c :: s' =>
      if is_digit c then int_digits true (10 * acc + Z.of_nat (digit_val c)) s'
      else if Ascii.eqb c "_" && after_digit then int_digits false acc s'
      else None
  end.

Definition int_limit : nat := 4300.   (* sys.int_info.default_max_str_digits *)

(** [int(s)] in base 10: white space around, an optional sign, digits.
    Literals longer than the interpreter's digit limit are not modelled
    (older interpreters convert them, newer ones raise). *)
Definition py_int (s : text) : outcome Z :=
  let body := strip_of is_int_space s in
  let '(sign, ds) :=
    match body with
    | c :: r => if Ascii.eqb c "-" then ((-1)%Z, r)
                else if Ascii.eqb c "+" then (1%Z, r)
                else (1%Z, body)
    | [] => (1%Z, body)
    end in
  match ds with
  | [] => Raise (ValueError_int s)
  | c :: _ =>
      if is_digit c then
        match int_digits false 0 ds with
        | Some n => if int_limit <? List.length (filter is_digit ds) then Unmodelled
                    else Ret (sign * n)%Z
        | None => Raise (ValueError_int s)
        end
      else Raise (ValueError_int s)
  end.

Definition hex_digit (n : nat) : ascii :=
  if n <? 10 then ascii_of_nat (48 + n) else ascii_of_nat (87 + n).

(** [json.dumps] of a string with [ensure_ascii]: quote, backslash and
    the named control characters get their two-character escape, every
    other character outside [ ..~] its [\u00xx]. *)
Definition json_escape (c : ascii) : text :=
  if Ascii.eqb c dq then [bsl; dq]
  else if Ascii.eqb c bsl then [bsl; bsl]
  else if Nat.eqb (code c) 10 then [bsl; "n"%char]
  else if Nat.eqb (code c) 13 then [bsl; "r"%char]
  else if Nat.eqb (code c) 9 then [bsl; "t"%char]
  else if Nat.eqb (code c) 8 then [bsl; "b"%char]
  else if Nat.eqb (code c) 12 then [bsl; "f"%char]
  else if in_range 32 126 c then [c]
  else [bsl; "u"%char; "0"%char; "0"%char;
        hex_digit (code c / 16); hex_digit (code c mod 16)].

Definition json_string (s : text) : text :=
  dq :: flat_map json_escape s ++ [dq].

(** [json.dumps({"it": it, "key": key})] *)
Definition json_dumps_settings (it : Z) (key : text) : text :=
  py "{'it': " ++ decimal it ++ py ", 'key': " ++ json_string key ++ py "}".

(* ===================================================================== *)
(** ** The record literal codec: encode ([python_apps_to_js]) *)
(* ===================================================================== *)

(** A record as the editing dialog builds it ([AppDialog.save]). *)
Record App : Type := {
  name : text;
  icon : text;
  locker_id : text;
  platforms : list text;
  trending : bool;
  featured : bool
}.

(** the dict the dialog stores for a record, keys in its order *)
Definition dict_of_app (a : App) : value :=
  VDict [ (VStr (py "name"), VStr (name a));
          (VStr (py "icon"), VStr (icon a));
          (VStr (py "locker_id"), VStr (locker_id a));
          (VStr (py "platforms"), VList (map VStr (platforms a)));
          (VStr (py "trending"), VBool (trending a));
          (VStr (py "featured"), VBool (featured a)) ].

Definition quoted (t : text) : text := dq :: t ++ [dq].

Definition py_bool (v : bool) : text := if v then py "true" else py "false".

(** ["[" + ", ".join(f'"{x}"' for x in lst) + "]"] *)
Definition py_list (lst : value) : outcome text :=
  xs <- py_iter lst ;;
  items <- mapM (fun x => t <- py_str x ;; Ret (quoted t)) xs ;;
  Ret (py "[" ++ join (py ", ") items ++ py "]").

(** the lines one [app] appends to [lines] *)
Definition app_lines (app : value) : outcome (list text) :=
  match app with
  | VDict d =>
      n <- py_str (get d (py "name") (VStr [])) ;;
      i <- py_str (get d (py "icon") (VStr [])) ;;
      l <- py_str (get d (py "locker_id") (VStr [])) ;;
      p <- py_list (get d (py "platforms") (VList [])) ;;
      let trending := py_bool (truthy (get d (py "trending") (VBool false))) in
      let featured := py_bool (truthy (get d (py "featured") (VBool false))) in
      Ret [ py "  {";
            py "    name: " ++ quoted n ++ py ",";
            py "    icon: " ++ quoted i ++ py ",";
            py "    locker_id: " ++ quoted l ++ py ",";
            py "    platforms: " ++ p ++ py ",";
            py "    trending: " ++ trending ++ py ",";
            py "    featured: " ++ featured;
            py "  }," ]
  | _ => Raise AttributeError        (* no attribute 'get' *)
  end.

Definition python_apps_to_js (apps : value) : outcome text :=
  items <- py_iter apps ;;
  per_app <- mapM app_lines items ;;
  Ret (join [nl] ([py "const APPS = ["] ++ List.concat per_app ++ [py "];"])).

(* ===================================================================== *)
(** ** [eval(s, {"__builtins__": {}})] on a fragment of the grammar

    The fragment: integer and string literals, [True], [False], [None],
    names, list and dict displays, and the binary [+].  On text outside
    the fragment the model answers [Unmodelled]; when it answers [Ret] or
    [Raise], the interpreter does the same.

    The tokenizer *)
(* ===================================================================== *)

Inductive token : Type :=
| KLBrack | KRBrack | KLBrace | KRBrace | KComma | KColon | KPlus
| KName (n : text)
| KConst (v : value)
| KStr (s : text)
| KNewline.

Inductive lexmode : Type :=
| LTop
| LLine                            (* at the start of a line, outside brackets *)
| LName (acc : text)               (* inside a name, reversed *)
| LNum (acc : text)                (* inside a number, reversed *)
| LStr (q : ascii) (acc : text).   (* inside a string opened by q, reversed *)

Inductive lexstep : Type :=
| LFail (o : outcome (list token))
| LGo (emit : list token) (m : lexmode) (depth : nat).

Definition keywords : list text :=
  map py ["and"; "as"; "assert"; "async"; "await"; "break"; "class";
          "continue"; "def"; "del"; "elif"; "else"; "except"; "finally";
          "for"; "from"; "global"; "if"; "import"; "in"; "is"; "lambda";
          "nonlocal"; "not"; "or"; "pass"; "raise"; "return"; "try";
          "while"; "with"; "yield"; "__debug__"]%string.

Definition is_quote (c : ascii) : bool := Ascii.eqb c dq || Ascii.eqb c "'".

(** letters a string prefix is made of *)
Definition is_prefix_letter (c : ascii) : bool :=
  existsb (Ascii.eqb c) (str "rRuUbBfFtT").

(** the token of a finished name; [quote_next]: a quote follows it *)
Definition name_token (n : text) (quote_next : bool) : outcome token :=
  if quote_next && forallb is_prefix_letter n && (List.length n <=? 3)
  then Unmodelled                                  (* a string prefix *)
  else if text_eqb n (py "True") then Ret (KConst (VBool true))
  else if text_eqb n (py "False") then Ret (KConst (VBool false))
  else if text_eqb n (py "None") then Ret (KConst VNone)
  else if existsb (text_eqb n) keywords then Unmodelled
  else Ret (KName n).

(** the token of a finished run of digits *)
Definition num_token (ds : text) : outcome token :=
  if int_limit <? List.length ds then Unmodelled
  else if forallb (Ascii.eqb "0") ds then Ret (KConst (VInt 0))
  else match ds with
       | d :: _ => if Ascii.eqb d "0" then Unmodelled      (* leading zeros *)
                   else Ret (KConst (VInt (decimal_val 0 ds)))
       | [] => Unmodelled
       end.

Definition max_depth : nat := 100.

(** one character at the top level; [rest] is what follows it *)
Definition top_step (depth : nat) (c : ascii) (rest : text) : lexstep :=
  if Ascii.eqb c " " || Nat.eqb (code c) 9 || Nat.eqb (code c) 12 then
    LGo [] LTop depth
  else if Nat.eqb (code c) 10 || Nat.eqb (code c) 13 then
    (if Nat.eqb depth 0 then LGo [KNewline] LLine depth else LGo [] LTop depth)
  else if Ascii.eqb c "[" then
    (if max_depth <=? depth then LFail Unmodelled else LGo [KLBrack] LTop (S depth))
  else if Ascii.eqb c "{" then
    (if max_depth <=? depth then LFail Unmodelled else LGo [KLBrace] LTop (S depth))
  else if Ascii.eqb c "]" then
    match depth with 0 => LFail Unmodelled | S d => LGo [KRBrack] LTop d end
  else if Ascii.eqb c "}" then
    match depth with 0 => LFail Unmodelled | S d => LGo [KRBrace] LTop d end
  else if Ascii.eqb c "," then LGo [KComma] LTop depth
  else if Ascii.eqb c ":" then LGo [KColon] LTop depth
  else if Ascii.eqb c "+" then LGo [KPlus] LTop depth
  else if is_quote c then
    match rest with
    | q1 :: q2 :: _ =>
        if Ascii.eqb q1 c && Ascii.eqb q2 c then LFail Unmodelled   (* triple quote *)
        else LGo [] (LStr c []) depth
    | _ => LGo [] (LStr c []) depth
    end
  else if is_digit c then LGo [] (LNum [c]) depth
  else if is_ident_start c then LGo [] (LName [c]) depth
  else LFail Unmodelled.

Definition after_token (t : outcome token) (k : lexstep) : lexstep :=
  match t with
  | Ret tok =>
      match k with
      | LGo emit m d => LGo (tok :: emit) m d
      | LFail o => LFail o
      end
  | Raise e => LFail (Raise e)
  | Unmodelled => LFail Unmodelled
  end.

Definition lex_step (mode : lexmode) (depth : nat) (c : ascii) (rest : text)
  : lexstep :=
  match mode with
  | LTop => top_step depth c rest
  | LLine =>
      if Ascii.eqb c " " || Nat.eqb (code c) 9 || Nat.eqb (code c) 12
      then LFail Unmodelled                      (* indentation *)
      else top_step depth c rest
  | LName acc =>
      if is_ident_char c then LGo [] (LName (c :: acc)) depth
      else if 128 <=? code c then LFail Unmodelled
      else after_token (name_token (rev acc) (is_quote c)) (top_step depth c rest)
  | LNum acc =>
      if is_digit c then LGo [] (LNum (c :: acc)) depth
      else if is_ident_start c || Ascii.eqb c "." || (128 <=? code c)
      then LFail Unmodelled
      else after_token (num_token (rev acc)) (top_step depth c rest)
  | LStr q acc =>
      if Ascii.eqb c q then LGo [KStr (rev acc)] LTop depth
      else if Ascii.eqb c bsl || Nat.eqb (code c) 0 then LFail Unmodelled
      else if Nat.eqb (code c) 10 || Nat.eqb (code c) 13
      then LFail (Raise SyntaxError)             (* unterminated string literal *)
      else LGo [] (LStr q (c :: acc)) depth
  end.

Definition lex_finish (mode : lexmode) : outcome (list token) :=
  match mode with
  | LTop | LLine => Ret []
  | LName acc => t <- name_token (rev acc) false ;; Ret [t]
  | LNum acc => t <- num_token (rev acc) ;; Ret [t]
  | LStr _ _ => Raise SyntaxError                (* unterminated string literal *)
  end.

Fixpoint tokenize (mode : lexmode) (depth : nat) (s : text)
  : outcome (list token) :=
  match s with
  | [] => lex_finish mode
  | c :: s' =>
      match lex_step mode depth c s' with
      | LFail o => o
      | LGo emit mode' depth' =>
          rest <- tokenize mode' depth' s' ;; Ret (emit ++ rest)
      end
  end.

(** The parser.  Two operands side by side are a syntax error; every
    other text the fragment does not derive is [Unmodelled]. *)

Inductive expr : Type :=
| EConst (v : value)
| EName (n : text)
| EList (es : list expr)
| EDict (kvs : list (expr * expr))
| EAdd (a b : expr).

Definition parsed (A : Type) : Type := outcome (A * list token).

(** adjacent string literals are one literal *)
Fixpoint more_strings (acc : text) (ts : list token) : text * list token :=
  match ts with
  | KStr s :: ts' => more_strings (acc ++ s) ts'
  | _ => (acc, ts)
  end.

Definition starts_operand (t : token) : bool :=
  match t with
  | KName _ | KConst _ | KStr _ => true
  | _ => false
  end.

Fixpoint parse_expr (fuel : nat) (ts : list token) : parsed expr :=
  match fuel with
  | 0 => Unmodelled
  | S fuel' =>
      r <- parse_atom fuel' ts ;;
      parse_sum fuel' (fst r) (snd r)
  end

(** what may follow an operand: [+ operand], or the end of the sum *)
with parse_sum (fuel : nat) (left : expr) (ts : list token) : parsed expr :=
  match fuel with
  | 0 => Unmodelled
  | S fuel' =>
      match ts with
      | KPlus :: ts1 =>
          r <- parse_atom fuel' ts1 ;;
          parse_sum fuel' (EAdd left (fst r)) (snd r)
      | KLBrack :: _ | KLBrace :: _ => Unmodelled
      | t :: _ => if starts_operand t then Raise SyntaxError else Ret (left, ts)
      | [] => Ret (left, ts)
      end
  end

with parse_atom (fuel : nat) (ts : list token) : parsed expr :=
  match fuel with
  | 0 => Unmodelled
  | S fuel' =>
      match ts with
      | KName n :: ts1 => Ret (EName n, ts1)
      | KConst v :: ts1 => Ret (EConst v, ts1)
      | KStr s :: ts1 =>
          let r := more_strings s ts1 in Ret (EConst (VStr (fst r)), snd r)
      | KLBrack :: KRBrack :: ts1 => Ret (EList [], ts1)
      | KLBrack :: ts1 =>
          r <- parse_items fuel' ts1 ;; Ret (EList (fst r), snd r)
      | KLBrace :: KRBrace :: ts1 => Ret (EDict [], ts1)
      | KLBrace :: ts1 =>
          r <- parse_pairs fuel' ts1 ;; Ret (EDict (fst r), snd r)
      | _ => Unmodelled
      end
  end

(** [e, e, ... ]] with an optional trailing comma *)
with parse_items (fuel : nat) (ts : list token) : parsed (list expr) :=
  match fuel with
  | 0 => Unmodelled
  | S fuel' =>
      r <- parse_expr fuel' ts ;;
      match snd r with
      | KRBrack :: ts1 => Ret ([fst r], ts1)
      | KComma :: KRBrack :: ts1 => Ret ([fst r], ts1)
      | KComma :: ts1 =>
          r' <- parse_items fuel' ts1 ;; Ret (fst r :: fst r', snd r')
      | _ => Unmodelled
      end
  end

(** [k: v, k: v, ... }] with an optional trailing comma *)
with parse_pairs (fuel : nat) (ts : list token) : parsed (list (expr * expr)) :=
  match fuel with
  | 0 => Unmodelled
  | S fuel' =>
      k <- parse_expr fuel' ts ;;
      match snd k with
      | KColon :: ts1 =>
          v <- parse_expr fuel' ts1 ;;
          match snd v with
          | KRBrace :: ts2 => Ret ([(fst k, fst v)], ts2)
          | KComma :: KRBrace :: ts2 => Ret ([(fst k, fst v)], ts2)
          | KComma :: ts2 =>
              r' <- parse_pairs fuel' ts2 ;;
              Ret ((fst k, fst v) :: fst r', snd r')
          | _ => Unmodelled
          end
      | _ => Unmodelled
      end
  end.

(** the whole input is one expression, then only line ends *)
Definition parse (ts : list token) : outcome expr :=
  r <- parse_expr (4 * List.length ts + 4) ts ;;
  if forallb (fun t => match t with KNewline => true | _ => false end) (snd r)
  then Ret (fst r)
  else Unmodelled.

Fixpoint expr_depth (e : expr) : nat :=
  match e with
  | EConst _ | EName _ => 1
  | EList es => S (fold_right (fun x d => Nat.max (expr_depth x) d) 0 es)
  | EDict kvs =>
      S (fold_right (fun kv d =>
                       Nat.max (Nat.max (expr_depth (fst kv)) (expr_depth (snd kv))) d)
                    0 kvs)
  | EAdd a b => S (Nat.max (expr_depth a) (expr_depth b))
  end.

(** Evaluation.  The globals are [{"__builtins__": {}}]: that one name is
    bound, to the empty dict, and no other name resolves. *)

Definition numeric (v : value) : option Z :=
  match v with
  | VInt n => Some n
  | VBool b => Some (if b then 1 else 0)%Z
  | _ => None
  end.

(** [a + b] *)
Definition py_add (a b : value) : outcome value :=
  match a, b with
  | VStr x, VStr y => Ret (VStr (x ++ y))
  | VList x, VList y => Ret (VList (x ++ y))
  | _, _ =>
      match numeric a, numeric b with
      | Some x, Some y => Ret (VInt (x + y))
      | _, _ => Raise TypeError
      end
  end.

Definition hashable (v : value) : bool :=
  match v with
  | VList _ | VDict _ => false
  | _ => true
  end.

(** [a == b] between hashable values *)
Definition key_eqb (a b : value) : bool :=
  match a, b with
  | VNone, VNone => true
  | VStr x, VStr y => text_eqb x y
  | _, _ =>
      match numeric a, numeric b with
      | Some x, Some y => Z.eqb x y
      | _, _ => false
      end
  end.

(** [d[k] = v]: an equal key keeps its place and takes the new value *)
Fixpoint dict_set (d : list (value * value)) (k v : value) : list (value * value) :=
  match d with
  | [] => [(k, v)]
  | (k', v') :: d' =>
      if key_eqb k' k then (k', v) :: d' else (k', v') :: dict_set d' k v
  end.

(** A display of up to [single_build] pairs is built in one step, after
    all its keys and values are evaluated; a longer one in pieces. *)
Definition single_build : nat := 16.

Definition build_dict (items : list (value * value)) : outcome value :=
  if forallb (fun kv => hashable (fst kv)) items then
    Ret (VDict (fold_left (fun d kv => dict_set d (fst kv) (snd kv)) items []))
  else if List.length items <=? single_build then Raise TypeError   (* unhashable *)
  else Unmodelled.

Definition builtins_name : text := py "__builtins__".

Fixpoint eval_expr (e : expr) : outcome value :=
  match e with
  | EConst v => Ret v
  | EName n =>
      if text_eqb n builtins_name then Ret (VDict []) else Raise (NameError n)
  | EList es =>
      vs <- (fix each (l : list expr) : outcome (list value) :=
               match l with
               | [] => Ret []
               | x :: l' => v <- eval_expr x ;; vs <- each l' ;; Ret (v :: vs)
               end) es ;;
      Ret (VList vs)
  | EDict kvs =>
      items <- (fix each (l : list (expr * expr)) : outcome (list (value * value)) :=
                  match l with
                  | [] => Ret []
                  | (k, v) :: l' =>
                      k' <- eval_expr k ;; v' <- eval_expr v ;;
                      rest <- each l' ;; Ret ((k', v') :: rest)
                  end) kvs ;;
      build_dict items
  | EAdd a b =>
      x <- eval_expr a ;; y <- eval_expr b ;; py_add x y
  end.

(** [eval(s, {"__builtins__": {}})] *)
Definition py_eval (s : text) : outcome value :=
  if existsb (fun c => Nat.eqb (code c) 0) s then Unmodelled
  else
    ts <- tokenize LTop 0 s ;;
    e <- parse ts ;;
    if max_depth <? expr_depth e then Unmodelled else eval_expr e.

(* ===================================================================== *)
(** ** The record literal codec: decode ([js_apps_to_python]) *)
(* ===================================================================== *)

Definition word_pattern (w : text) : regex := RBoundary ⋅ RStr w ⋅ RBoundary.

(** [(\b[a-zA-Z_][a-zA-Z0-9_]*\b)\s*:] *)
Definition key_pattern : regex :=
  RGroup 1 (RBoundary ⋅ RSet is_ident_start ⋅ RStar is_ident_char ⋅ RBoundary)
  ⋅ RStar is_space ⋅ RStr (py ":").

Definition quote_keys (m : Match) : text := quoted (group 1 m) ++ py ":".

(** the normalization pass of the fallback *)
Definition normalize (js_array_str : text) : text :=
  let s := strip js_array_str in
  let s := re_sub_fun (word_pattern (py "true")) (fun _ => py "True") s in
  let s := re_sub_fun (word_pattern (py "false")) (fun _ => py "False") s in
  let s := re_sub_fun (word_pattern (py "null")) (fun _ => py "None") s in
  re_sub_fun key_pattern quote_keys s.

(** the fallback: normalize, then evaluate; whatever the evaluation
    raises is reported in a ValueError that carries it
    (["Could not parse APPS array. Please install `json5`. Error: " + str(e)]) *)
Definition decode_fallback (js_array_str : text) : outcome value :=
  match py_eval (normalize js_array_str) with
  | Ret v => Ret v
  | Raise e => Raise (ValueError_apps e)
  | Unmodelled => Unmodelled
  end.

Section Codec.
(** [json5.loads] when the [json5] package is installed; [None] when
    importing it fails. *)
Variable json5 : option (text -> outcome value).

Definition js_apps_to_python (js_array_str : text) : outcome value :=
  match json5 with
  | Some loads =>
      match loads js_array_str with
      | Ret v => Ret v
      | Raise _ => decode_fallback js_array_str
      | Unmodelled => Unmodelled
      end
  | None => decode_fallback js_array_str
  end.
End Codec.

(* ===================================================================== *)
(** ** The markers of the document

    The patterns [LPData.load] searches with ([regex_search] passes
    [re.DOTALL]) and the ones [LPData.save] substitutes with.  In the
    comments, as in [py], the apostrophe stands for the double quote. *)
(* ===================================================================== *)

Definition not_dq : ascii -> bool := is_not dq.

Module Load.
(** [<img\s+class='logo'\s+src='([^']+)'] *)
Definition logo : regex :=
  RStr (py "<img") ⋅ RPlus is_space ⋅ RStr (py "class='logo'") ⋅ RPlus is_space
  ⋅ RStr (py "src='") ⋅ RGroup 1 (RPlus not_dq) ⋅ RStr (py "'").

(** [<h1>(.*?)</h1>] *)
Definition h1 : regex :=
  RStr (py "<h1>") ⋅ RGroup 1 (RLazy dotall) ⋅ RStr (py "</h1>").

(** [<p class='tagline'>(.*?)</p>] *)
Definition tagline : regex :=
  RStr (py "<p class='tagline'>") ⋅ RGroup 1 (RLazy dotall) ⋅ RStr (py "</p>").

(** [<title>(.*?)</title>] *)
Definition title : regex :=
  RStr (py "<title>") ⋅ RGroup 1 (RLazy dotall) ⋅ RStr (py "</title>").

(** [<meta\s+ATTR\s+content='(.*?)'], with [ATTR] one of
    [name='description'], [name='keywords'], [property='og:image'],
    [name='twitter:image'] *)
Definition meta (attr : text) : regex :=
  RStr (py "<meta") ⋅ RPlus is_space ⋅ RStr attr ⋅ RPlus is_space
  ⋅ RStr (py "content='") ⋅ RGroup 1 (RLazy dotall) ⋅ RStr (py "'").

(** [var\s+CPABUILDSETTINGS\s*=\s*({.*?});] *)
Definition settings : regex :=
  RStr (py "var") ⋅ RPlus is_space ⋅ RStr (py "CPABUILDSETTINGS")
  ⋅ RStar is_space ⋅ RStr (py "=") ⋅ RStar is_space
  ⋅ RGroup 1 (RStr (py "{") ⋅ RLazy dotall ⋅ RStr (py "}")) ⋅ RStr (py ";").

(** ['?it'?\s*:\s*([0-9]+)] *)
Definition it : regex :=
  ROpt (Ascii.eqb dq) ⋅ RStr (py "it") ⋅ ROpt (Ascii.eqb dq)
  ⋅ RStar is_space ⋅ RStr (py ":") ⋅ RStar is_space ⋅ RGroup 1 (RPlus is_digit).

(** ['?key'?\s*:\s*'([^']+)'] *)
Definition key : regex :=
  ROpt (Ascii.eqb dq) ⋅ RStr (py "key") ⋅ ROpt (Ascii.eqb dq)
  ⋅ RStar is_space ⋅ RStr (py ":") ⋅ RStar is_space
  ⋅ RStr (py "'") ⋅ RGroup 1 (RPlus not_dq) ⋅ RStr (py "'").
End Load.

(** [const\s+APPS\s*=\s*\[(.*?)\];], the same in [load] and [save] *)
Definition apps_pattern : regex :=
  RStr (py "const") ⋅ RPlus is_space ⋅ RStr (py "APPS") ⋅ RStar is_space
  ⋅ RStr (py "=") ⋅ RStar is_space ⋅ RStr (py "[")
  ⋅ RGroup 1 (RLazy dotall) ⋅ RStr (py "];").

Module Save.
(** [(<img\s+class='logo'\s+src=')([^']+)(')] *)
Definition logo : regex :=
  RGroup 1 (RStr (py "<img") ⋅ RPlus is_space ⋅ RStr (py "class='logo'")
            ⋅ RPlus is_space ⋅ RStr (py "src='"))
  ⋅ RGroup 2 (RPlus not_dq) ⋅ RGroup 3 (RStr (py "'")).

(** [(<h1>)(.*?)(</h1>)], DOTALL *)
Definition h1 : regex :=
  RGroup 1 (RStr (py "<h1>")) ⋅ RGroup 2 (RLazy dotall)
  ⋅ RGroup 3 (RStr (py "</h1>")).

(** [(<p\s+class='tagline'>)(.*?)(</p>)], DOTALL *)
Definition tagline : regex :=
  RGroup 1 (RStr (py "<p") ⋅ RPlus is_space ⋅ RStr (py "class='tagline'>"))
  ⋅ RGroup 2 (RLazy dotall) ⋅ RGroup 3 (RStr (py "</p>")).

(** [(<title>)(.*?)(</title>)], DOTALL *)
Definition title : regex :=
  RGroup 1 (RStr (py "<title>")) ⋅ RGroup 2 (RLazy dotall)
  ⋅ RGroup 3 (RStr (py "</title>")).

(** [(<meta\s+ATTR\s+content=')(.*?)(')], without DOTALL *)
Definition meta (attr : text) : regex :=
  RGroup 1 (RStr (py "<meta") ⋅ RPlus is_space ⋅ RStr attr ⋅ RPlus is_space
            ⋅ RStr (py "content='"))
  ⋅ RGroup 2 (RLazy dot) ⋅ RGroup 3 (RStr (py "'")).

(** [( var\s+CPABUILDSETTINGS\s*=\s* )( {.*?} )( \s*; )] without the
    spaces around the groups, DOTALL *)
Definition settings : regex :=
  RGroup 1 (RStr (py "var") ⋅ RPlus is_space ⋅ RStr (py "CPABUILDSETTINGS")
            ⋅ RStar is_space ⋅ RStr (py "=") ⋅ RStar is_space)
  ⋅ RGroup 2 (RStr (py "{") ⋅ RLazy dotall ⋅ RStr (py "}"))
  ⋅ RGroup 3 (RStar is_space ⋅ RStr (py ";")).
End Save.

Definition attr_description : text := py "name='description'".
Definition attr_keywords : text := py "name='keywords'".
Definition attr_og_image : text := py "property='og:image'".
Definition attr_twitter_image : text := py "name='twitter:image'".

(* ===================================================================== *)
(** ** The document model ([LPData]) *)
(* ===================================================================== *)

Record LPData : Type := {
  html : text;
  logo_src : text;
  h1_title : text;
  tagline : text;
  meta_title : text;
  meta_desc : text;
  meta_keywords : text;
  og_image : text;
  twitter_image : text;
  cpab_it : text;
  cpab_key : text;
  apps : value
}.

(** [LPData.__init__] *)
Definition LPData_init : LPData :=
  {| html := []; logo_src := []; h1_title := []; tagline := [];
     meta_title := []; meta_desc := []; meta_keywords := []; og_image := [];
     twitter_image := []; cpab_it := []; cpab_key := []; apps := VList [] |}.

(** [m = regex_search(p, html); if m: field = m.group(1)], from the
    initial empty value *)
Definition extract (p : regex) (doc : text) : text :=
  match re_search p doc with
  | Some m => group 1 m
  | None => []
  end.

Definition INDEX_FILE : text := py "index.html".

(** the files of the working folder: the content of each path, as the
    characters it decodes to *)
Definition filesystem : Type := text -> option text.

Definition cr : ascii := "013"%char.      (* the carriage return *)

(** what a read in text mode makes of the line ends: a carriage return
    with the line feed after it, and a carriage return alone, are read
    as one line feed *)
Fixpoint universal_newlines (s : text) : text :=
  match s with
  | [] => []
  | c :: s' =>
      if Ascii.eqb c cr then
        match s' with
        | d :: s'' =>
            if Ascii.eqb d nl then nl :: universal_newlines s''
            else nl :: universal_newlines s'
        | [] => [nl]
        end
      else c :: universal_newlines s'
  end.

(** [read_file]: the file is opened in text mode and read whole *)
Definition read_file (fs : filesystem) (path : text) : outcome text :=
  match fs path with
  | Some content => Ret (universal_newlines content)
  | None => Raise (FileNotFoundError path)
  end.

Definition fs_write (fs : filesystem) (path content : text) : filesystem :=
  fun p => if text_eqb p path then Some content else fs p.

(** the state of a write: [open(path, 'w')] may be refused, and a write
    may fail after some of the content has reached the file *)
Inductive write_fault : Type :=
| NoFault
| OpenFails
| WriteFails (written : nat).

(** [write_file]: opening for writing empties the file, then the
    content is written to it *)
Definition write_file (fault : write_fault) (fs : filesystem)
           (path content : text) : filesystem * outcome unit :=
  match fault with
  | OpenFails => (fs, Raise OSError)
  | WriteFails n => (fs_write fs path (firstn n content), Raise OSError)
  | NoFault => (fs_write fs path content, Ret tt)
  end.

(** [int(self.cpab_it or 0)] *)
Definition int_or_zero (s : text) : outcome Z :=
  match s with
  | [] => Ret 0%Z
  | _ => py_int s
  end.

(** the replacement [rf'\1{value}\3'] *)
Definition keep_ends (value : text) : text :=
  bsl :: "1"%char :: value ++ [bsl; "3"%char].

(** [html = re.sub(pattern, rf'\1{value}\3', html)] *)
Definition subst (p : regex) (value : text) (doc : text) : outcome text :=
  re_sub p (keep_ends value) doc.

(** [if value: html = re.sub(pattern, rf'\1{value}\3', html)] *)
Definition subst_if (p : regex) (value : text) (doc : text) : outcome text :=
  match value with
  | [] => Ret doc
  | _ => subst p value doc
  end.

(** the settings step of [save] *)
Definition subst_settings (it key : text) (doc : text) : outcome text :=
  n <- int_or_zero it ;;
  subst Save.settings (json_dumps_settings n key) doc.

(** the array step of [save]: the encoding is the replacement itself *)
Definition subst_apps (records : value) (doc : text) : outcome text :=
  new_apps_js <- python_apps_to_js records ;;
  re_sub apps_pattern new_apps_js doc.

(** the text [save] writes *)
Definition save_html (lp : LPData) : outcome text :=
  h <- subst Save.logo (logo_src lp) (html lp) ;;
  h <- subst Save.h1 (h1_title lp) h ;;
  h <- subst Save.tagline (tagline lp) h ;;
  h <- subst Save.title (meta_title lp) h ;;
  h <- subst_if (Save.meta attr_description) (meta_desc lp) h ;;
  h <- subst_if (Save.meta attr_keywords) (meta_keywords lp) h ;;
  h <- subst_if (Save.meta attr_og_image) (og_image lp) h ;;
  h <- subst_if (Save.meta attr_twitter_image) (twitter_image lp) h ;;
  h <- subst_settings (cpab_it lp) (cpab_key lp) h ;;
  subst_apps (apps lp) h.

Definition set_html (lp : LPData) (h : text) : LPData :=
  {| html := h; logo_src := logo_src lp; h1_title := h1_title lp;
     tagline := tagline lp; meta_title := meta_title lp;
     meta_desc := meta_desc lp; meta_keywords := meta_keywords lp;
     og_image := og_image lp; twitter_image := twitter_image lp;
     cpab_it := cpab_it lp; cpab_key := cpab_key lp; apps := apps lp |}.

(** [LPData.save]: the files and the object after the call, and how the
    call ended.  [self.html] is assigned after [write_file] returns. *)
Definition save (fault : write_fault) (fs : filesystem) (lp : LPData)
           (path : text) : filesystem * LPData * outcome unit :=
  match save_html lp with
  | Ret h =>
      match write_file fault fs path h with
      | (fs', Ret _) => (fs', set_html lp h, Ret tt)
      | (fs', Raise e) => (fs', lp, Raise e)
      | (fs', Unmodelled) => (fs', lp, Unmodelled)
      end
  | Raise e => (fs, lp, Raise e)
  | Unmodelled => (fs, lp, Unmodelled)
  end.

Section Document.
(** [json5.loads] when the package is installed *)
Variable json5 : option (text -> outcome value).
(** [json.loads], the strict parser of the standard library *)
Variable json_loads : text -> outcome value.

(** the settings fields of [load], from the captured braces: the
    strict parse first, the two patterns when it raises *)
Definition load_settings (braces : text) : outcome (text * text) :=
  let by_pattern :=
    Ret (extract Load.it braces, extract Load.key braces) in
  match json_loads braces with
  | Ret (VDict obj) =>
      i <- py_str (get obj (py "it") (VStr [])) ;;
      k <- py_str (get obj (py "key") (VStr [])) ;;
      Ret (i, k)
  | Ret _ => by_pattern              (* AttributeError, caught *)
  | Raise _ => by_pattern
  | Unmodelled => Unmodelled
  end.

(** the array field of [load] *)
Definition load_apps (doc : text) : outcome value :=
  match re_search apps_pattern doc with
  | Some m => js_apps_to_python json5 (py "[" ++ group 1 m ++ py "]")
  | None => Ret (VList [])
  end.

(** [LPData.load] on the text read, for a fresh [LPData] *)
Definition load_html (doc : text) : outcome LPData :=
  st <- match re_search Load.settings doc with
        | Some m => load_settings (group 1 m)
        | None => Ret ([], [])
        end ;;
  records <- load_apps doc ;;
  Ret {| html := doc;
         logo_src := extract Load.logo doc;
         h1_title := extract Load.h1 doc;
         tagline := extract Load.tagline doc;
         meta_title := extract Load.title doc;
         meta_desc := extract (Load.meta attr_description) doc;
         meta_keywords := extract (Load.meta attr_keywords) doc;
         og_image := extract (Load.meta attr_og_image) doc;
         twitter_image := extract (Load.meta attr_twitter_image) doc;
         cpab_it := fst st;
         cpab_key := snd st;
         apps := records |}.

(** [LPData.load]: the path is checked, the file is read, and the fields
    are taken from the text read *)
Definition load (fs : filesystem) (path : text) : outcome LPData :=
  match fs path with
  | None => Raise (FileNotFoundError path)
  | Some _ => doc <- read_file fs path ;; load_html doc
  end.

(** how [main] goes on after loading: the error box and return, or the
    editing session on the loaded data *)
Inductive session : Type :=
| ShowError (e : pyexn)
| Editing (lp : LPData).

Definition main (fs : filesystem) : outcome session :=
  match load fs INDEX_FILE with
  | Ret lp => Ret (Editing lp)
  | Raise e => Ret (ShowError e)
  | Unmodelled => Unmodelled
  end.
End Document.

(* ===================================================================== *)
(** * Properties *)
(* ===================================================================== *)

(** ** Encode: the layout of the literal *)

Lemma mapM_map_ret {A B C} (f : B -> outcome C) (g : A -> B) (h : A -> C) l :
  (forall a, f (g a) = Ret (h a)) ->
  mapM f (map g l) = Ret (map h l).
Proof.
  intros H; induction l as [|a l IH]; simpl; [reflexivity|].
  rewrite H; simpl. rewrite IH; reflexivity.
Qed.

(** every line followed by a line feed *)
Definition lines_nl (ls : list text) : text :=
  flat_map (fun l => l ++ [nl]) ls.

Lemma join_last ls last : join [nl] (ls ++ [last]) = lines_nl ls ++ last.
Proof.
  induction ls as [|l ls IH]; simpl; [reflexivity|].
  rewrite IH. destruct ls; simpl; rewrite <- ?app_assoc; reflexivity.
Qed.

Lemma lines_nl_app a b : lines_nl (a ++ b) = lines_nl a ++ lines_nl b.
Proof. unfold lines_nl. rewrite flat_map_app. reflexivity. Qed.

Lemma lines_nl_concat ls : lines_nl (List.concat ls) = flat_map lines_nl ls.
Proof.
  induction ls as [|l ls IH]; simpl; [reflexivity|].
  rewrite lines_nl_app, IH. reflexivity.
Qed.

(** The layout in the words of the specification: the platform array is
    a bracketed, comma separated list of double-quoted strings; an
    object holds the six fields in the fixed order, strings between
    double quotes as they are, booleans bare; the objects sit in a
    [const APPS = [ ... ];] declaration. *)
Definition encode_platforms (ps : list text) : text :=
  py "[" ++ join (py ", ") (map quoted ps) ++ py "]".

Definition encode_object (a : App) : text :=
  py "  {" ++ [nl]
  ++ py "    name: " ++ [dq] ++ name a ++ [dq] ++ py "," ++ [nl]
  ++ py "    icon: " ++ [dq] ++ icon a ++ [dq] ++ py "," ++ [nl]
  ++ py "    locker_id: " ++ [dq] ++ locker_id a ++ [dq] ++ py "," ++ [nl]
  ++ py "    platforms: " ++ encode_platforms (platforms a) ++ py "," ++ [nl]
  ++ py "    trending: " ++ (if trending a then py "true" else py "false")
  ++ py "," ++ [nl]
  ++ py "    featured: " ++ (if featured a then py "true" else py "false")
  ++ [nl]
  ++ py "  }," ++ [nl].

Definition encode_layout (records : list App) : text :=
  py "const APPS = [" ++ [nl] ++ flat_map encode_object records ++ py "];".

(** the lines [python_apps_to_js] appends for a record of the dialog *)
Definition record_lines (a : App) : list text :=
  [ py "  {";
    py "    name: " ++ quoted (name a) ++ py ",";
    py "    icon: " ++ quoted (icon a) ++ py ",";
    py "    locker_id: " ++ quoted (locker_id a) ++ py ",";
    py "    platforms: " ++ encode_platforms (platforms a) ++ py ",";
    py "    trending: " ++ py_bool (trending a) ++ py ",";
    py "    featured: " ++ py_bool (featured a);
    py "  }," ].

Lemma py_list_strings ps :
  py_list (VList (map VStr ps)) = Ret (encode_platforms ps).
Proof.
  unfold py_list; simpl.
  rewrite (mapM_map_ret _ VStr quoted) by reflexivity.
  reflexivity.
Qed.

Lemma get_dialog_fields a d :
  dict_of_app a = VDict d ->
  get d (py "name") (VStr []) = VStr (name a)
  /\ get d (py "icon") (VStr []) = VStr (icon a)
  /\ get d (py "locker_id") (VStr []) = VStr (locker_id a)
  /\ get d (py "platforms") (VList []) = VList (map VStr (platforms a))
  /\ get d (py "trending") (VBool false) = VBool (trending a)
  /\ get d (py "featured") (VBool false) = VBool (featured a).
Proof. intros H; injection H as <-. repeat split. Qed.

Lemma app_lines_record a : app_lines (dict_of_app a) = Ret (record_lines a).
Proof.
  destruct (dict_of_app a) as [| | | | |d] eqn:E; try discriminate.
  destruct (get_dialog_fields E) as (Hn & Hi & Hl & Hp & Ht & Hf).
  unfold app_lines. rewrite Hn, Hi, Hl, Hp, Ht, Hf.
  cbn [py_str bind truthy]. rewrite py_list_strings. reflexivity.
Qed.

Lemma record_lines_layout a : lines_nl (record_lines a) = encode_object a.
Proof.
  destruct a as [n i l p t f]. unfold record_lines, encode_object, lines_nl, quoted, py_bool.
  cbn -[py encode_platforms]. repeat rewrite <- app_assoc. cbn -[py encode_platforms].
  repeat (f_equal; try reflexivity; repeat rewrite <- app_assoc; cbn -[py encode_platforms]).
Qed.

Lemma records_layout records :
  flat_map lines_nl (map record_lines records) = flat_map encode_object records.
Proof.
  induction records as [|a rs IH]; [reflexivity|].
  cbn [map flat_map]. rewrite record_lines_layout, IH. reflexivity.
Qed.

(** C9: for every record sequence, [python_apps_to_js] emits the
    [const APPS = [ ... ];] declaration with one object per record, the
    fields in the order name, icon, locker_id, platforms, trending,
    featured, the strings between double quotes with no escaping, the
    platforms as a bracketed comma separated list of double-quoted
    strings, and the booleans as bare true / false. *)
Theorem encode_emits_layout (records : list App) :
  python_apps_to_js (VList (map dict_of_app records)) = Ret (encode_layout records).
Proof.
  unfold python_apps_to_js. cbn [py_iter bind].
  rewrite (mapM_map_ret _ dict_of_app record_lines) by apply app_lines_record.
  cbn [bind]. f_equal.
  change ([py "const APPS = ["] ++ List.concat (map record_lines records) ++ [py "];"])
    with ((py "const APPS = [" :: List.concat (map record_lines records)) ++ [py "];"]).
  rewrite join_last. unfold encode_layout.
  change (lines_nl (py "const APPS = [" :: List.concat (map record_lines records)))
    with ((py "const APPS = [" ++ [nl]) ++ lines_nl (List.concat (map record_lines records))).
  rewrite lines_nl_concat, records_layout. rewrite <- !app_assoc. reflexivity.
Qed.

(** ** Inverting a bind *)

Lemma bind_ret_inv {A B} (m : outcome A) (f : A -> outcome B) b :
  bind m f = Ret b -> exists a, m = Ret a /\ f a = Ret b.
Proof. destruct m; simpl; intros H; try discriminate. eauto. Qed.

(** ** The literal with one record that has a name only *)

Definition bar_record : App :=
  {| name := py "Bar"; icon := []; locker_id := []; platforms := [];
     trending := false; featured := false |}.


(** ** The fallback evaluation *)

(** literal data syntax: constants, list and dict displays of literals *)
Fixpoint is_literal (e : expr) : bool :=
  match e with
  | EConst _ => true
  | EName _ => false
  | EList es => forallb is_literal es
  | EDict kvs => forallb (fun kv => is_literal (fst kv) && is_literal (snd kv)) kvs
  | EAdd _ _ => false
  end.

Fixpoint names_of (e : expr) : list text :=
  match e with
  | EConst _ => []
  | EName n => [n]
  | EList es => flat_map names_of es
  | EDict kvs => flat_map (fun kv => names_of (fst kv) ++ names_of (snd kv)) kvs
  | EAdd a b => names_of a ++ names_of b
  end.

(** the expression the fallback evaluates *)
Definition fallback_expr (js_array_str : text) : outcome expr :=
  ts <- tokenize LTop 0 (normalize js_array_str) ;; parse ts.

Section ExprInd.
Variable P : expr -> Prop.
Hypothesis HConst : forall v, P (EConst v).
Hypothesis HName : forall n, P (EName n).
Hypothesis HList : forall es, Forall P es -> P (EList es).
Hypothesis HDict :
  forall kvs, Forall (fun kv => P (fst kv) /\ P (snd kv)) kvs -> P (EDict kvs).
Hypothesis HAdd : forall a b, P a -> P b -> P (EAdd a b).

Fixpoint expr_induction (e : expr) : P e :=
  match e with
  | EConst v => HConst v
  | EName n => HName n
  | EList es =>
      HList ((fix all (l : list expr) : Forall P l :=
                match l with
                | [] => @Forall_nil _ P
                | x :: l' => @Forall_cons _ P x l' (expr_induction x) (all l')
                end) es)
  | EDict kvs =>
      HDict ((fix all (l : list (expr * expr))
                : Forall (fun kv => P (fst kv) /\ P (snd kv)) l :=
                match l with
                | [] => @Forall_nil _ (fun kv => P (fst kv) /\ P (snd kv))
                | (k, v) :: l' =>
                    @Forall_cons _ (fun kv => P (fst kv) /\ P (snd kv)) (k, v) l'
                                 (conj (expr_induction k) (expr_induction v))
                                 (all l')
                end) kvs)
  | EAdd a b => HAdd (expr_induction a) (expr_induction b)
  end.
End ExprInd.

(** No ambient name is reachable: an expression that evaluates mentions
    no name but [__builtins__]. *)
Lemma eval_reaches_no_name e v :
  eval_expr e = Ret v -> Forall (eq builtins_name) (names_of e).
Proof.
  revert v. induction e using expr_induction; intros w Hev; simpl in *.
  - constructor.
  - destruct (text_eqb_spec n builtins_name) as [->|]; [|discriminate].
    repeat constructor.
  - apply bind_ret_inv in Hev as (vs & Hvs & _). clear w.
    revert vs Hvs. induction H as [|x l Hx Hl IH]; intros vs Hvs; simpl.
    + constructor.
    + apply bind_ret_inv in Hvs as (v1 & H1 & Hvs).
      apply bind_ret_inv in Hvs as (v2 & H2 & _).
      apply Forall_app; split; eauto.
  - apply bind_ret_inv in Hev as (vs & Hvs & _). clear w.
    revert vs Hvs. induction H as [|[k x] l [Hk Hx] Hl IH]; intros vs Hvs; simpl.
    + constructor.
    + apply bind_ret_inv in Hvs as (v1 & H1 & Hvs).
      apply bind_ret_inv in Hvs as (v2 & H2 & Hvs).
      apply bind_ret_inv in Hvs as (v3 & H3 & _).
      simpl in *. repeat (apply Forall_app; split); eauto.
  - apply bind_ret_inv in Hev as (x & Hx & Hev).
    apply bind_ret_inv in Hev as (y & Hy & _).
    apply Forall_app; split; eauto.
Qed.

Definition operator_literal : text := py "[{name: 'a' + 'b'}]".

(** C1 (the code at the failing input): the fallback accepts a literal
    that holds an operator, and runs the operator; the expression it
    evaluates is not literal data syntax. *)
Theorem fallback_runs_operator :
  fallback_expr operator_literal
  = Ret (EList [EDict [(EConst (VStr (py "name")),
                        EAdd (EConst (VStr (py "a"))) (EConst (VStr (py "b"))))]])
  /\ is_literal (EList [EDict [(EConst (VStr (py "name")),
                        EAdd (EConst (VStr (py "a"))) (EConst (VStr (py "b"))))]])
     = false
  /\ js_apps_to_python None operator_literal
     = Ret (VList [VDict [(VStr (py "name"), VStr (py "ab"))]]).
Proof. repeat split; vm_compute; reflexivity. Qed.

(** ** Encode, then decode *)

(** the supported string fields: no double quote, backslash or line feed *)
Definition supported_text (t : text) : bool :=
  forallb (fun c => negb (Ascii.eqb c dq || Ascii.eqb c bsl || Ascii.eqb c nl)) t.

Definition supported (a : App) : bool :=
  supported_text (name a) && supported_text (icon a)
  && supported_text (locker_id a) && forallb supported_text (platforms a).

(** [decode(encode(records))]: the declaration [python_apps_to_js]
    writes, read back the way [load] reads the array field *)
Definition decode_encoded (json5 : option (text -> outcome value))
           (records : list App) : outcome value :=
  js <- python_apps_to_js (VList (map dict_of_app records)) ;;
  load_apps json5 js.

Definition record_named (n i : text) : App :=
  {| name := n; icon := i; locker_id := []; platforms := [];
     trending := false; featured := false |}.

(** C2 (the code at failing inputs): without [json5], a record whose
    name holds the word [true] comes back with [True] in its place, and
    a record whose icon is a URL does not come back at all: the
    normalization pass rewrites inside the string literals. *)
Theorem decode_encode_rewrites_strings :
  (supported (record_named (py "Is it true") []) = true
   /\ decode_encoded None [record_named (py "Is it true") []]
      = Ret (VList [dict_of_app (record_named (py "Is it True") [])]))
  /\ (supported (record_named (py "Foo") (py "https://cdn.example.com/foo.png")) = true
      /\ decode_encoded None
           [record_named (py "Foo") (py "https://cdn.example.com/foo.png")]
         = Raise (ValueError_apps SyntaxError)).
Proof. repeat split; vm_compute; reflexivity. Qed.

(** ** Load, then save *)

Definition heading_doc : text :=
  py "<html><head><title>Apps</title></head><body><h1>2024 Best Apps</h1></body></html>".

Definition tagline_doc : text :=
  py "<body><p  class='tagline'>Free apps</p></body>".

Lemma load_html_plain json5 json_loads doc :
  re_search Load.settings doc = None ->
  re_search apps_pattern doc = None ->
  load_html json5 json_loads doc
  = Ret {| html := doc;
           logo_src := extract Load.logo doc;
           h1_title := extract Load.h1 doc;
           tagline := extract Load.tagline doc;
           meta_title := extract Load.title doc;
           meta_desc := extract (Load.meta attr_description) doc;
           meta_keywords := extract (Load.meta attr_keywords) doc;
           og_image := extract (Load.meta attr_og_image) doc;
           twitter_image := extract (Load.meta attr_twitter_image) doc;
           cpab_it := []; cpab_key := []; apps := VList [] |}.
Proof. intros Hs Ha. unfold load_html, load_apps. rewrite Hs, Ha. reflexivity. Qed.

(** C3 (the code at failing inputs): loading a page and saving it with
    nothing changed rewrites text outside the settings object and the
    array literal.  A heading that starts with digits is read back as a
    template escape and loses its opening tag; a tagline whose marker
    has two spaces is not found by [load] and is emptied by [save]. *)
Theorem load_save_changes_markup json5 json_loads :
  (exists lp,
      load_html json5 json_loads heading_doc = Ret lp
      /\ h1_title lp = py "2024 Best Apps"
      /\ save_html lp
         = Ret (py "<html><head><title>Apps</title></head><body>P24 Best Apps</h1></body></html>"))
  /\ (exists lp,
         load_html json5 json_loads tagline_doc = Ret lp
         /\ tagline lp = []
         /\ save_html lp = Ret (py "<body><p  class='tagline'></p></body>")).
Proof.
  split; eexists; (split; [apply load_html_plain; vm_compute; reflexivity|]);
    split; vm_compute; reflexivity.
Qed.

(** ** A literal that cannot be decoded *)

Lemma decode_fallback_error s e :
  decode_fallback s = Raise e ->
  exists cause, e = ValueError_apps cause /\ py_eval (normalize s) = Raise cause.
Proof.
  unfold decode_fallback. destruct (py_eval (normalize s)); intros H;
    try discriminate. injection H as <-. eauto.
Qed.

Lemma js_apps_to_python_error json5 s e :
  js_apps_to_python json5 s = Raise e ->
  exists cause, e = ValueError_apps cause /\ py_eval (normalize s) = Raise cause.
Proof.
  unfold js_apps_to_python. destruct json5 as [loads|].
  - destruct (loads s); intros H; try discriminate.
    apply decode_fallback_error; assumption.
  - apply decode_fallback_error.
Qed.

(** what [load] makes of the settings object *)
Definition settings_of json_loads (doc : text) : outcome (text * text) :=
  match re_search Load.settings doc with
  | Some m => load_settings json_loads (group 1 m)
  | None => Ret ([], [])
  end.

(** C5, amended: when the array literal cannot be decoded, decoding
    raises the ValueError that carries the underlying cause; [load] lets
    it through, and [main] shows it and returns: no editing session is
    started. *)
Theorem undecodable_array_ends_session
        json5 json_loads (fs : filesystem) (doc : text) (m : Match)
        (st : text * text) (e : pyexn) :
  read_file fs INDEX_FILE = Ret doc ->
  settings_of json_loads doc = Ret st ->
  re_search apps_pattern doc = Some m ->
  js_apps_to_python json5 (py "[" ++ group 1 m ++ py "]") = Raise e ->
  (exists cause,
      e = ValueError_apps cause
      /\ py_eval (normalize (py "[" ++ group 1 m ++ py "]")) = Raise cause)
  /\ load json5 json_loads fs INDEX_FILE = Raise e
  /\ main json5 json_loads fs = Ret (ShowError e).
Proof.
  intros Hfs Hst Hm He. split; [eapply js_apps_to_python_error; eassumption|].
  assert (L : load json5 json_loads fs INDEX_FILE = Raise e).
  { unfold load. rewrite Hfs.
    assert (X : exists raw, fs INDEX_FILE = Some raw).
    { unfold read_file in Hfs. destruct (fs INDEX_FILE); [eauto|discriminate]. }
    destruct X as [raw ->]. cbn [bind]. unfold load_html.
    unfold settings_of in Hst. rewrite Hst. cbn [bind].
    unfold load_apps. rewrite Hm, He. reflexivity. }
  split; [exact L|]. unfold main. rewrite L. reflexivity.
Qed.

Definition undecodable_doc : text := py "<script>const APPS = [foo];</script>".

Definition one_file (doc : text) : filesystem :=
  fun p => if text_eqb p INDEX_FILE then Some doc else None.

(** the strict parser is not reached by a document without a settings
    object *)
Definition json_loads_unused : text -> outcome value := fun _ => Unmodelled.

Definition undecodable_match : Match :=
  {| m_text := py "const APPS = [foo];";
     m_groups := [(1, py "foo")];
     m_rest := py "</script>" |}.

Lemma undecodable_array_ends_session_witness :
  main None json_loads_unused (one_file undecodable_doc)
  = Ret (ShowError (ValueError_apps (NameError (py "foo")))).
Proof.
  refine (proj2 (proj2 (@undecodable_array_ends_session None json_loads_unused
            (one_file undecodable_doc) undecodable_doc undecodable_match ([], [])
            (ValueError_apps (NameError (py "foo"))) _ _ _ _)));
    vm_compute; reflexivity.
Defined.

(** C5, as stated, fails: on a page whose array literal cannot be
    decoded the session does not continue with an empty record list;
    [main] shows the error and returns. *)
Lemma undecodable_array_no_session :
  main None json_loads_unused (one_file undecodable_doc)
  = Ret (ShowError (ValueError_apps (NameError (py "foo"))))
  /\ ~ (exists lp, main None json_loads_unused (one_file undecodable_doc)
                   = Ret (Editing lp) /\ apps lp = VList []).
Proof.
  assert (E : main None json_loads_unused (one_file undecodable_doc)
              = Ret (ShowError (ValueError_apps (NameError (py "foo")))))
    by (vm_compute; reflexivity).
  split; [exact E|]. intros (lp & H & _). rewrite E in H. discriminate.
Qed.

(** ** A write that fails *)

Definition files_after (r : filesystem * LPData * outcome unit) : filesystem :=
  fst (fst r).
Definition object_after (r : filesystem * LPData * outcome unit) : LPData :=
  snd (fst r).
Definition ending (r : filesystem * LPData * outcome unit) : outcome unit :=
  snd r.

(** C8, amended: a write that fails ends [save] with the error, leaves
    the object in memory as it was ([self.html] is assigned after the
    write) and leaves every other file alone.  The destination is left
    as it was only when the failure is at [open]: the file is opened for
    writing in place, so a failure during the write leaves it with the
    part of the new text written so far. *)
Theorem failed_write_effects
        (fault : write_fault) (fs : filesystem) (lp : LPData) (path h : text) :
  save_html lp = Ret h ->
  fault <> NoFault ->
  ending (save fault fs lp path) = Raise OSError
  /\ object_after (save fault fs lp path) = lp
  /\ (forall p, p <> path -> files_after (save fault fs lp path) p = fs p)
  /\ (fault = OpenFails -> forall p, files_after (save fault fs lp path) p = fs p)
  /\ (forall n, fault = WriteFails n ->
                files_after (save fault fs lp path) path = Some (firstn n h)).
Proof.
  intros Hh Hf. unfold save, ending, object_after, files_after. rewrite Hh.
  destruct fault as [| |n]; [congruence| |]; cbn.
  - repeat split; try reflexivity; intros; discriminate.
  - repeat split; try discriminate.
    + intros p Hp. unfold fs_write.
      destruct (text_eqb_spec p path); [contradiction|reflexivity].
    + intros k Hk. injection Hk as <-. unfold fs_write.
      rewrite text_eqb_refl. reflexivity.
Qed.

Definition page_doc : text := py "<html><body><h1>Apps</h1></body></html>".

Definition page_data : LPData :=
  {| html := page_doc; logo_src := []; h1_title := py "Free Apps"; tagline := [];
     meta_title := []; meta_desc := []; meta_keywords := []; og_image := [];
     twitter_image := []; cpab_it := []; cpab_key := []; apps := VList [] |}.

Definition page_saved : text := py "<html><body><h1>Free Apps</h1></body></html>".

Lemma failed_write_effects_witness :
  ending (save (WriteFails 6) (one_file page_doc) page_data INDEX_FILE) = Raise OSError
  /\ object_after (save (WriteFails 6) (one_file page_doc) page_data INDEX_FILE)
     = page_data
  /\ files_after (save (WriteFails 6) (one_file page_doc) page_data INDEX_FILE)
       INDEX_FILE = Some (py "<html>").
Proof.
  assert (H : save_html page_data = Ret page_saved) by (vm_compute; reflexivity).
  assert (F : WriteFails 6 <> NoFault) by discriminate.
  destruct (@failed_write_effects (WriteFails 6) (one_file page_doc) page_data
              INDEX_FILE page_saved H F) as (E & O & _ & _ & W).
  split; [exact E|]. split; [exact O|]. exact (W 6 eq_refl).
Defined.

(** C8, as stated, fails: a write that fails after the file is opened
    leaves the destination partially overwritten. *)
Lemma failed_write_overwrites :
  one_file page_doc INDEX_FILE = Some page_doc
  /\ ending (save (WriteFails 6) (one_file page_doc) page_data INDEX_FILE)
     = Raise OSError
  /\ files_after (save (WriteFails 6) (one_file page_doc) page_data INDEX_FILE)
       INDEX_FILE = Some (py "<html>")
  /\ files_after (save (WriteFails 6) (one_file page_doc) page_data INDEX_FILE)
       INDEX_FILE <> one_file page_doc INDEX_FILE.
Proof. repeat split; try (vm_compute; reflexivity). vm_compute; discriminate. Qed.

Unset Implicit Arguments.

(** ** Templates that say what they mean *)

(** a value that [rf'\1{value}\3'] takes literally: no backslash in it,
    and no digit at its start *)
Definition inert (v : text) : bool :=
  forallb (fun c => negb (Ascii.eqb c bsl)) v
  && match v with
     | c :: _ => negb (is_digit c)
     | [] => true
     end.

Lemma then_lit_ret c items : then_lit c (Ret items) = Ret (TLit c :: items).
Proof. reflexivity. Qed.

Lemma parse_template_literal groups v tail items :
  forallb (fun c => negb (Ascii.eqb c bsl)) v = true ->
  parse_template groups Plain tail = Ret items ->
  parse_template groups Plain (v ++ tail) = Ret (map TLit v ++ items).
Proof.
  intros Hv Ht. induction v as [|c v IH]; [exact Ht|].
  cbn [forallb] in Hv. apply andb_true_iff in Hv as [Hc Hv].
  cbn [app map parse_template]. rewrite Hc, (IH Hv). reflexivity.
Qed.

Lemma parse_keep_ends groups v :
  3 <= groups -> inert v = true ->
  parse_template groups Plain (keep_ends v)
  = Ret (TGroup 1 :: map TLit v ++ [TGroup 3]).
Proof.
  intros Hg Hv. unfold inert in Hv. apply andb_true_iff in Hv as [Hb Hd].
  assert (G1 : (groups <? 1) = false) by (apply Nat.ltb_ge; lia).
  assert (G3 : (groups <? 3) = false) by (apply Nat.ltb_ge; lia).
  assert (T : parse_template groups Plain [bsl; "3"%char] = Ret [TGroup 3]).
  { cbv -[Nat.ltb]. rewrite G3. reflexivity. }
  pose proof (parse_template_literal groups v _ _ Hb T) as P.
  unfold keep_ends.
  destruct v as [|c v].
  - cbv -[Nat.ltb]. rewrite G1, G3. reflexivity.
  - apply negb_true_iff in Hd.
    change (parse_template groups Plain (bsl :: "1"%char :: (c :: v) ++ [bsl; "3"%char]))
      with (if is_digit c
            then match v ++ [bsl; "3"%char] with
                 | d2 :: t4 =>
                     if is_octdigit "1" && is_octdigit c && is_octdigit d2
                     then let w := 64 * digit_val "1" + 8 * digit_val c + digit_val d2 in
                          if 255 <? w then Raise re_error
                          else then_lit (ascii_of_nat w) (parse_template groups Plain t4)
                     else then_group groups (10 * digit_val "1" + digit_val c)
                            (parse_template groups Plain (v ++ [bsl; "3"%char]))
                 | [] => then_group groups (10 * digit_val "1" + digit_val c)
                           (parse_template groups Plain (v ++ [bsl; "3"%char]))
                 end
            else then_group groups 1
                   (parse_template groups Plain ((c :: v) ++ [bsl; "3"%char]))).
    rewrite Hd. unfold then_group. rewrite G1, P. reflexivity.
Qed.

Lemma expand_keep_ends v m :
  expand (TGroup 1 :: map TLit v ++ [TGroup 3]) m = group 1 m ++ v ++ group 3 m.
Proof.
  unfold expand. cbn [flat_map]. rewrite flat_map_app. cbn [flat_map].
  rewrite app_nil_r. f_equal. f_equal.
  induction v as [|c v IH]; [reflexivity|]. cbn. rewrite IH. reflexivity.
Qed.

Lemma sub_scan_ext r f g :
  (forall m, f m = g m) ->
  forall s prev skip, sub_scan r f prev s skip = sub_scan r g prev s skip.
Proof.
  intros E. induction s as [|c s IH]; intros prev skip.
  - destruct skip; cbn [sub_scan]; [|reflexivity].
    destruct (match_here r false prev []) as [m|]; [|reflexivity].
    destruct (m_text m); rewrite ?E; [|reflexivity].
    destruct (match_here r true prev []); rewrite ?E; reflexivity.
  - destruct skip; cbn [sub_scan]; [|apply IH].
    destruct (match_here r false prev (c :: s)) as [m|]; [|rewrite IH; reflexivity].
    destruct (m_text m); rewrite ?E, ?IH; [|reflexivity].
    destruct (match_here r true prev (c :: s)); rewrite ?E, ?IH; reflexivity.
Qed.

(** the substitution of an inert value keeps the ends of every marker
    and puts the value between them *)
Lemma subst_inert p v doc :
  3 <= groups_of p -> inert v = true ->
  subst p v doc = Ret (re_sub_fun p (fun m => group 1 m ++ v ++ group 3 m) doc).
Proof.
  intros Hg Hv. unfold subst, re_sub. rewrite (parse_keep_ends _ v Hg Hv).
  cbn [bind]. f_equal. unfold re_sub_fun.
  apply sub_scan_ext. intros m. apply expand_keep_ends.
Qed.

(** ** A marker that is absent *)

Lemma sub_scan_no_match r f s :
  forall prev, search_from r prev s = None -> sub_scan r f prev s 0 = s.
Proof.
  induction s as [|c s IH]; intros prev H; cbn [search_from sub_scan] in *.
  - destruct (match_here r false prev []); [discriminate|reflexivity].
  - destruct (match_here r false prev (c :: s)); [discriminate|].
    rewrite (IH _ H). reflexivity.
Qed.

(** [extract] gives the empty default, and the substitution of an inert
    value gives the document back, when the marker is absent *)
Lemma absent_marker_extract p doc : re_search p doc = None -> extract p doc = [].
Proof. unfold extract. intros ->. reflexivity. Qed.

Lemma absent_marker_subst p v doc :
  3 <= groups_of p -> inert v = true ->
  re_search p doc = None -> subst p v doc = Ret doc.
Proof.
  intros Hg Hv H. rewrite (subst_inert p v doc Hg Hv). unfold re_sub_fun.
  rewrite sub_scan_no_match; [reflexivity|exact H].
Qed.

(** ** The matcher on a marker *)

Lemma strip_prefix_app l s : strip_prefix l (l ++ s) = Some s.
Proof.
  induction l as [|c l IH]; cbn [strip_prefix app]; [destruct s; reflexivity|].
  rewrite Ascii.eqb_refl. exact IH.
Qed.

Lemma strip_prefix_head c l d s :
  c <> d -> strip_prefix (c :: l) (d :: s) = None.
Proof.
  intros H. cbn [strip_prefix].
  destruct (Ascii.eqb_spec c d); [contradiction|reflexivity].
Qed.

Lemma firstn_consumed (a b : text) :
  firstn (List.length (a ++ b) - List.length b) (a ++ b) = a.
Proof.
  rewrite length_app. replace (List.length a + List.length b - List.length b)
    with (List.length a) by lia.
  rewrite firstn_app, Nat.sub_diag, firstn_all. cbn. apply app_nil_r.
Qed.

Lemma length_after_nonempty (a b : text) :
  a <> [] -> Nat.eqb (List.length b) (List.length (a ++ b)) = false.
Proof.
  intros H. apply Nat.eqb_neq. rewrite length_app.
  destruct a; [contradiction|]. cbn. lia.
Qed.

Lemma last_of_app prev a b : last_of prev (a ++ b) = last_of (last_of prev a) b.
Proof. revert prev; induction a as [|c a IH]; intros prev; cbn; auto. Qed.

(** a lazy run passes over text on which what follows cannot start *)
Lemma rep_lazy_skip (A : Type) p (k : option ascii -> text -> option A) v rest :
  forallb p v = true ->
  (forall c t pv, In c v -> k pv (c :: t) = None) ->
  forall prev,
    rep_lazy p k prev (v ++ rest) = rep_lazy p k (last_of prev v) rest.
Proof.
  induction v as [|c v IH]; intros Hp Hk prev; [reflexivity|].
  cbn [forallb] in Hp. apply andb_true_iff in Hp as [Hc Hp].
  cbn [app rep_lazy last_of]. rewrite (Hk c (v ++ rest) prev (or_introl eq_refl)), Hc.
  apply IH; [exact Hp|]. intros; apply Hk; right; assumption.
Qed.

Lemma rep_lazy_here (A : Type) p (k : option ascii -> text -> option A) prev s a :
  k prev s = Some a -> rep_lazy p k prev s = Some a.
Proof. intros H. destruct s; cbn [rep_lazy]; rewrite H; reflexivity. Qed.

(** a greedy run takes all of a run that ends where the class ends *)
Lemma rep_greedy_run (A : Type) p (k : option ascii -> text -> option A) run rest a :
  forallb p run = true ->
  (forall c t, rest = c :: t -> p c = false) ->
  forall prev,
    k (last_of prev run) rest = Some a ->
    rep_greedy p k prev (run ++ rest) = Some a.
Proof.
  induction run as [|c run IH]; intros Hp Hr prev Hk.
  - cbn [app last_of] in *. destruct rest as [|d t]; cbn [rep_greedy]; [exact Hk|].
    rewrite (Hr d t eq_refl). exact Hk.
  - cbn [forallb] in Hp. apply andb_true_iff in Hp as [Hc Hp].
    cbn [app rep_greedy]. rewrite Hc, (IH Hp Hr (Some c) Hk). reflexivity.
Qed.

(** the scan passes over the text of a match *)
Lemma sub_scan_skip r f a b :
  forall prev,
    sub_scan r f prev (a ++ b) (List.length a) = sub_scan r f (last_of prev a) b 0.
Proof.
  induction a as [|c a IH]; intros prev; [reflexivity|].
  cbn [app List.length sub_scan last_of]. apply IH.
Qed.

Lemma sub_scan_at_match r f prev c t rest m :
  match_here r false prev ((c :: t) ++ rest) = Some m ->
  m_text m = c :: t ->
  sub_scan r f prev ((c :: t) ++ rest) 0
  = f m ++ sub_scan r f (last_of prev (c :: t)) rest 0.
Proof.
  intros Hm Ht. cbn [app] in *. cbn [sub_scan]. rewrite Hm, Ht.
  f_equal. replace (List.length (c :: t) - 1) with (List.length t)
    by (cbn [List.length]; lia).
  cbn [last_of]. apply sub_scan_skip.
Qed.

(** the scan copies text on which the pattern cannot start *)
Lemma sub_scan_copy r f c0 pre rest :
  (forall adv prev c s, c <> c0 -> match_here r adv prev (c :: s) = None) ->
  Forall (fun c => c <> c0) pre ->
  forall prev,
    sub_scan r f prev (pre ++ rest) 0 = pre ++ sub_scan r f (last_of prev pre) rest 0.
Proof.
  intros Hr Hpre. induction Hpre as [|c pre Hc _ IH]; intros prev; [reflexivity|].
  cbn [app sub_scan last_of]. rewrite (Hr false prev c (pre ++ rest) Hc).
  f_equal. apply IH.
Qed.

Lemma sub_scan_end r f prev :
  match_here r false prev [] = None -> sub_scan r f prev [] 0 = [].
Proof. intros H. cbn [sub_scan]. rewrite H. reflexivity. Qed.

(** a marker whose value is a lazy run: opening, value, closing text *)
Definition lazy_marker (O : regex) (p : ascii -> bool) (close : text) : regex :=
  RGroup 1 O ⋅ RGroup 2 (RLazy p) ⋅ RGroup 3 (RStr close).

(** [O] matches the text [open] at the front, whatever follows *)
Definition opens (O : regex) (open : text) : Prop :=
  forall (A : Type) prev rest g (k : option ascii -> text -> caps -> option A),
    rmatch O prev (open ++ rest) g k = k (last_of prev open) rest g.

Lemma opens_str l : opens (RStr l) l.
Proof. intros A prev rest g k. cbn [rmatch]. rewrite strip_prefix_app. reflexivity. Qed.

Lemma lazy_marker_match O p open c1 close' v post adv prev :
  opens O open -> open <> [] ->
  forallb p v = true ->
  Forall (fun c => c <> c1) v ->
  match_here (lazy_marker O p (c1 :: close')) adv prev
             (open ++ v ++ (c1 :: close') ++ post)
  = Some {| m_text := open ++ v ++ (c1 :: close');
            m_groups := [(3, c1 :: close'); (2, v); (1, open)];
            m_rest := post |}.
Proof.
  intros HO Hne Hp Hv. unfold match_here, lazy_marker. cbn [rmatch].
  rewrite HO. rewrite rep_lazy_skip; [|exact Hp|].
  2:{ intros c t pv Hin. rewrite strip_prefix_head; [reflexivity|].
      rewrite Forall_forall in Hv. intros E. apply (Hv c Hin). congruence. }
  erewrite rep_lazy_here; [reflexivity|].
  rewrite strip_prefix_app.
  replace (Nat.eqb (List.length post)
             (List.length (open ++ v ++ (c1 :: close') ++ post))) with false.
  2:{ symmetry. rewrite !app_assoc. apply length_after_nonempty.
      destruct open; [contradiction|discriminate]. }
  rewrite andb_false_r.
  rewrite !firstn_consumed.
  replace (open ++ v ++ (c1 :: close') ++ post)
    with ((open ++ v ++ c1 :: close') ++ post) by (rewrite <- !app_assoc; reflexivity).
  rewrite firstn_consumed. reflexivity.
Qed.

(** [O] starts only on the character [c0] *)
Definition starts_on (O : regex) (c0 : ascii) : Prop :=
  forall (A : Type) prev g (k : option ascii -> text -> caps -> option A),
    rmatch O prev [] g k = None
    /\ forall c s, c <> c0 -> rmatch O prev (c :: s) g k = None.

Lemma starts_on_str c0 l : starts_on (RStr (c0 :: l)) c0.
Proof.
  intros A prev g k. split; [reflexivity|]. intros c s H. cbn [rmatch].
  rewrite strip_prefix_head; [reflexivity|congruence].
Qed.

Lemma starts_on_cat O R c0 : starts_on O c0 -> starts_on (O ⋅ R) c0.
Proof.
  intros H A prev g k. cbn [rmatch]. split; [apply H|]. intros c s Hc. apply H, Hc.
Qed.

Lemma starts_on_group O n c0 : starts_on O c0 -> starts_on (RGroup n O) c0.
Proof.
  intros H A prev g k. cbn [rmatch]. split; [apply H|]. intros c s Hc. apply H, Hc.
Qed.

Lemma starts_on_no_match r c0 :
  starts_on r c0 ->
  (forall adv prev, match_here r adv prev [] = None)
  /\ (forall adv prev c s, c <> c0 -> match_here r adv prev (c :: s) = None).
Proof.
  intros H. split; intros; unfold match_here; apply H; assumption.
Qed.

(** the scan of a document with one marker, in text on which the
    pattern cannot start *)
Lemma sub_scan_one_marker r f c0 pre c t post m :
  starts_on r c0 ->
  Forall (fun x => x <> c0) pre ->
  Forall (fun x => x <> c0) post ->
  (forall prev, match_here r false prev ((c :: t) ++ post) = Some m) ->
  m_text m = c :: t ->
  sub_scan r f None (pre ++ (c :: t) ++ post) 0 = pre ++ f m ++ post.
Proof.
  intros Hs Hpre Hpost Hm Ht.
  destruct (starts_on_no_match r c0 Hs) as [Hend Hstart].
  rewrite (sub_scan_copy r f c0 pre _ Hstart Hpre).
  rewrite (sub_scan_at_match r f _ c t post m (Hm _) Ht).
  rewrite <- (app_nil_r post) at 1.
  rewrite (sub_scan_copy r f c0 post [] Hstart Hpost).
  rewrite sub_scan_end by apply Hend. rewrite app_nil_r. reflexivity.
Qed.

(** Substituting an inert value into a document with one marker puts
    the value between the ends of the marker and keeps the rest. *)
Lemma one_marker_subst r c0 pre open v close post value :
  3 <= groups_of r -> starts_on r c0 -> open <> [] ->
  (forall prev,
      match_here r false prev (open ++ v ++ close ++ post)
      = Some {| m_text := open ++ v ++ close;
                m_groups := [(3, close); (2, v); (1, open)];
                m_rest := post |}) ->
  Forall (fun c => c <> c0) pre ->
  Forall (fun c => c <> c0) post ->
  inert value = true ->
  subst r value (pre ++ open ++ v ++ close ++ post)
  = Ret (pre ++ open ++ value ++ close ++ post).
Proof.
  intros Hg Hs Hne Hm Hpre Hpost Hval.
  rewrite subst_inert; [|exact Hg|exact Hval].
  f_equal. unfold re_sub_fun.
  destruct open as [|o open']; [contradiction|].
  replace ((o :: open') ++ v ++ close ++ post)
    with (((o :: open') ++ v ++ close) ++ post)
    by (rewrite <- !app_assoc; reflexivity).
  change ((o :: open') ++ v ++ close) with (o :: (open' ++ v ++ close)).
  rewrite (sub_scan_one_marker _ _ c0 pre o (open' ++ v ++ close) post
             {| m_text := (o :: open') ++ v ++ close;
                m_groups := [(3, close); (2, v); (1, o :: open')];
                m_rest := post |}); try assumption.
  - cbn [group m_groups cap_lookup Nat.eqb m_text]. rewrite <- !app_assoc. reflexivity.
  - intros prev.
    change (o :: (open' ++ v ++ close)) with ((o :: open') ++ v ++ close).
    replace (((o :: open') ++ v ++ close) ++ post)
      with ((o :: open') ++ v ++ close ++ post)
      by (rewrite <- !app_assoc; reflexivity).
    apply Hm.
  - reflexivity.
Qed.

Lemma lazy_marker_subst O p open c0 c1 close' pre v post value :
  opens O open -> open <> [] -> starts_on O c0 ->
  forallb p v = true ->
  Forall (fun c => c <> c1) v ->
  Forall (fun c => c <> c0) pre ->
  Forall (fun c => c <> c0) post ->
  inert value = true ->
  subst (lazy_marker O p (c1 :: close')) value
        (pre ++ open ++ v ++ (c1 :: close') ++ post)
  = Ret (pre ++ open ++ value ++ (c1 :: close') ++ post).
Proof.
  intros HO Hne Hs Hp Hv Hpre Hpost Hval.
  apply (one_marker_subst _ c0); try assumption.
  - cbn [groups_of lazy_marker]. lia.
  - repeat apply starts_on_cat. apply starts_on_group, Hs.
  - intros prev. apply lazy_marker_match; assumption.
Qed.

(** Steps of the matcher, one construct at a time *)

Lemma rmatch_cat (A : Type) r1 r2 prev s g (k : option ascii -> text -> caps -> option A) :
  rmatch (r1 ⋅ r2) prev s g k
  = rmatch r1 prev s g (fun pv s' g' => rmatch r2 pv s' g' k).
Proof. reflexivity. Qed.

Lemma rmatch_group (A : Type) n r prev s g (k : option ascii -> text -> caps -> option A) :
  rmatch (RGroup n r) prev s g k
  = rmatch r prev s g
      (fun pv s' g' => k pv s' ((n, firstn (List.length s - List.length s') s) :: g')).
Proof. reflexivity. Qed.

Lemma rmatch_str (A : Type) l prev s g (k : option ascii -> text -> caps -> option A) :
  rmatch (RStr l) prev (l ++ s) g k = k (last_of prev l) s g.
Proof. cbn [rmatch]. rewrite strip_prefix_app. reflexivity. Qed.

Lemma or_else_none (A : Type) (a : option A) : or_else a None = a.
Proof. destruct a; reflexivity. Qed.

(** a greedy run before text on which the class ends, when what follows
    cannot start inside the run: the whole run is taken, and only it *)
Lemma rep_greedy_exact (A : Type) p (k : option ascii -> text -> option A) run c rest :
  forallb p run = true ->
  p c = false ->
  (forall pv d t, p d = true -> k pv (d :: t) = None) ->
  forall prev,
    rep_greedy p k prev (run ++ c :: rest) = k (last_of prev run) (c :: rest).
Proof.
  intros Hp Hc Hk. induction run as [|d run IH]; intros prev.
  - cbn [app rep_greedy last_of]. rewrite Hc. reflexivity.
  - cbn [forallb] in Hp. apply andb_true_iff in Hp as [Hd Hp].
    cbn [app rep_greedy last_of]. rewrite Hd, (IH Hp), (Hk prev d _ Hd).
    apply or_else_none.
Qed.

Lemma rmatch_star_run (A : Type) p ws c rest prev g
      (k : option ascii -> text -> caps -> option A) :
  forallb p ws = true ->
  p c = false ->
  (forall pv d t, p d = true -> k pv (d :: t) g = None) ->
  rmatch (RStar p) prev (ws ++ c :: rest) g k = k (last_of prev ws) (c :: rest) g.
Proof.
  intros Hp Hc Hk. cbn [rmatch].
  apply (rep_greedy_exact A p (fun pv s' => k pv s' g)); assumption.
Qed.

Lemma rmatch_plus_run (A : Type) p ws c rest prev g
      (k : option ascii -> text -> caps -> option A) :
  forallb p ws = true -> ws <> [] ->
  p c = false ->
  (forall pv d t, p d = true -> k pv (d :: t) g = None) ->
  rmatch (RPlus p) prev (ws ++ c :: rest) g k = k (last_of prev ws) (c :: rest) g.
Proof.
  intros Hp Hne Hc Hk. destruct ws as [|w ws]; [contradiction|].
  cbn [forallb] in Hp. apply andb_true_iff in Hp as [Hw Hp].
  cbn [rmatch app last_of]. rewrite Hw.
  apply (rep_greedy_exact A p (fun pv s' => k pv s' g)); assumption.
Qed.

Lemma rmatch_lazy_skip (A : Type) p v rest prev g
      (k : option ascii -> text -> caps -> option A) :
  forallb p v = true ->
  (forall d t pv, In d v -> k pv (d :: t) g = None) ->
  rmatch (RLazy p) prev (v ++ rest) g k = rmatch (RLazy p) (last_of prev v) rest g k.
Proof.
  intros Hp Hk. cbn [rmatch].
  apply (rep_lazy_skip A p (fun pv s' => k pv s' g)); assumption.
Qed.

Lemma rmatch_lazy_here (A : Type) p prev s g
      (k : option ascii -> text -> caps -> option A) a :
  k prev s g = Some a -> rmatch (RLazy p) prev s g k = Some a.
Proof.
  intros H. cbn [rmatch]. apply (rep_lazy_here A p (fun pv s' => k pv s' g)). exact H.
Qed.

(** a literal cannot start on another character *)
Lemma rmatch_str_head (A : Type) c l prev d t g
      (k : option ascii -> text -> caps -> option A) :
  c <> d -> rmatch (RStr (c :: l)) prev (d :: t) g k = None.
Proof. intros H. cbn [rmatch]. rewrite strip_prefix_head; [reflexivity|exact H]. Qed.

Lemma space_not (c d : ascii) : is_space d = true -> is_space c = false -> c <> d.
Proof. intros Hd Hc E. subst. congruence. Qed.

(** white space, then a literal that does not start with white space *)
Lemma opens_spaced a ws b0 b :
  forallb is_space ws = true -> ws <> [] -> is_space b0 = false ->
  opens (RStr a ⋅ RPlus is_space ⋅ RStr (b0 :: b)) (a ++ ws ++ b0 :: b).
Proof.
  intros Hws Hne Hb A prev rest g k.
  rewrite !rmatch_cat. rewrite <- !app_assoc. rewrite rmatch_str.
  cbn [app]. rewrite rmatch_plus_run; try assumption.
  - change (b0 :: b ++ rest) with ((b0 :: b) ++ rest). rewrite rmatch_str.
    rewrite !last_of_app. reflexivity.
  - intros pv d t Hd. apply rmatch_str_head. apply space_not; assumption.
Qed.

Lemma opens_then_spaced X a ws b0 b :
  opens X a ->
  forallb is_space ws = true -> ws <> [] -> is_space b0 = false ->
  opens (X ⋅ RPlus is_space ⋅ RStr (b0 :: b)) (a ++ ws ++ b0 :: b).
Proof.
  intros HX Hws Hne Hb A prev rest g k.
  rewrite !rmatch_cat. rewrite <- !app_assoc. rewrite HX.
  cbn [app]. rewrite rmatch_plus_run; try assumption.
  - change (b0 :: b ++ rest) with ((b0 :: b) ++ rest). rewrite rmatch_str.
    rewrite !last_of_app. reflexivity.
  - intros pv d t Hd. apply rmatch_str_head. apply space_not; assumption.
Qed.

(** a marker whose value is a greedy, non-empty run of a class *)
Definition greedy_marker (O : regex) (p : ascii -> bool) (close : text) : regex :=
  RGroup 1 O ⋅ RGroup 2 (RPlus p) ⋅ RGroup 3 (RStr close).

Lemma greedy_marker_match O p open c1 close' v post adv prev :
  opens O open -> open <> [] ->
  forallb p v = true -> v <> [] -> p c1 = false ->
  match_here (greedy_marker O p (c1 :: close')) adv prev
             (open ++ v ++ (c1 :: close') ++ post)
  = Some {| m_text := open ++ v ++ (c1 :: close');
            m_groups := [(3, c1 :: close'); (2, v); (1, open)];
            m_rest := post |}.
Proof.
  intros HO Hne Hp Hv Hc. unfold match_here, greedy_marker.
  rewrite !rmatch_cat, !rmatch_group. rewrite HO.
  cbn [app]. rewrite rmatch_group, rmatch_plus_run; try assumption.
  2:{ intros pv d t Hd. rewrite rmatch_group. apply rmatch_str_head.
      intros E; subst; congruence. }
  rewrite rmatch_group.
  change (c1 :: close' ++ post) with ((c1 :: close') ++ post). rewrite rmatch_str.
  replace (Nat.eqb (List.length post)
             (List.length (open ++ v ++ (c1 :: close') ++ post))) with false.
  2:{ symmetry. rewrite !app_assoc. apply length_after_nonempty.
      destruct open; [contradiction|discriminate]. }
  rewrite andb_false_r.
  rewrite !firstn_consumed.
  replace (open ++ v ++ (c1 :: close') ++ post)
    with ((open ++ v ++ c1 :: close') ++ post) by (rewrite <- !app_assoc; reflexivity).
  rewrite firstn_consumed. reflexivity.
Qed.

(** the text holds no [c] *)
Definition lacks (c : ascii) (t : text) : bool := forallb (is_not c) t.

Lemma lacks_Forall c t : lacks c t = true -> Forall (fun x => x <> c) t.
Proof.
  unfold lacks. rewrite forallb_forall, Forall_forall. intros H x Hx E.
  specialize (H x Hx). unfold is_not in H. subst.
  rewrite Ascii.eqb_refl in H. discriminate.
Qed.

Lemma forallb_dotall v : forallb dotall v = true.
Proof. induction v; cbn; auto. Qed.

(** ** The value fields of [save], on a page with one marker *)

Lemma subst_h1 pre v post value :
  lacks "<" pre = true -> lacks "<" v = true -> lacks "<" post = true ->
  inert value = true ->
  subst Save.h1 value (pre ++ py "<h1>" ++ v ++ py "</h1>" ++ post)
  = Ret (pre ++ py "<h1>" ++ value ++ py "</h1>" ++ post).
Proof.
  intros Hpre Hv Hpost Hval.
  apply (lazy_marker_subst (RStr (py "<h1>")) dotall (py "<h1>") "<" "<" (py "/h1>"));
    auto using lacks_Forall, forallb_dotall, opens_str.
  - discriminate.
  - apply (starts_on_str "<" (py "h1>")).
Qed.

Lemma subst_title pre v post value :
  lacks "<" pre = true -> lacks "<" v = true -> lacks "<" post = true ->
  inert value = true ->
  subst Save.title value (pre ++ py "<title>" ++ v ++ py "</title>" ++ post)
  = Ret (pre ++ py "<title>" ++ value ++ py "</title>" ++ post).
Proof.
  intros Hpre Hv Hpost Hval.
  apply (lazy_marker_subst (RStr (py "<title>")) dotall (py "<title>") "<" "<"
           (py "/title>"));
    auto using lacks_Forall, forallb_dotall, opens_str.
  - discriminate.
  - apply (starts_on_str "<" (py "title>")).
Qed.

(** the opening of the tagline, with any white space after [<p] *)
Definition tagline_open (ws : text) : text := py "<p" ++ ws ++ py "class='tagline'>".

Lemma subst_tagline ws pre v post value :
  forallb is_space ws = true -> ws <> [] ->
  lacks "<" pre = true -> lacks "<" v = true -> lacks "<" post = true ->
  inert value = true ->
  subst Save.tagline value (pre ++ tagline_open ws ++ v ++ py "</p>" ++ post)
  = Ret (pre ++ tagline_open ws ++ value ++ py "</p>" ++ post).
Proof.
  intros Hws Hne Hpre Hv Hpost Hval.
  apply (lazy_marker_subst
           (RStr (py "<p") ⋅ RPlus is_space ⋅ RStr (py "class='tagline'>"))
           dotall (tagline_open ws) "<" "<" (py "/p>"));
    auto using lacks_Forall, forallb_dotall.
  - apply (opens_spaced (py "<p") ws "c" (py "lass='tagline'>")); auto.
  - discriminate.
  - repeat apply starts_on_cat. apply (starts_on_str "<" (py "p")).
Qed.

(** the opening of the logo, with any white space between its parts *)
Definition logo_open (w1 w2 : text) : text :=
  py "<img" ++ w1 ++ py "class='logo'" ++ w2 ++ py "src='".

Lemma subst_logo w1 w2 pre v post value :
  forallb is_space w1 = true -> w1 <> [] ->
  forallb is_space w2 = true -> w2 <> [] ->
  lacks "<" pre = true -> lacks dq v = true -> v <> [] -> lacks "<" post = true ->
  inert value = true ->
  subst Save.logo value (pre ++ logo_open w1 w2 ++ v ++ [dq] ++ post)
  = Ret (pre ++ logo_open w1 w2 ++ value ++ [dq] ++ post).
Proof.
  intros H1 N1 H2 N2 Hpre Hv Nv Hpost Hval.
  apply (one_marker_subst Save.logo "<"); auto using lacks_Forall.
  - unfold Save.logo. repeat apply starts_on_cat. apply starts_on_group.
    repeat apply starts_on_cat. apply (starts_on_str "<" (py "img")).
  - discriminate.
  - intros prev.
    apply (greedy_marker_match
             (RStr (py "<img") ⋅ RPlus is_space ⋅ RStr (py "class='logo'")
              ⋅ RPlus is_space ⋅ RStr (py "src='"))
             not_dq (logo_open w1 w2) dq []); auto.
    + unfold logo_open.
      replace (py "<img" ++ w1 ++ py "class='logo'" ++ w2 ++ py "src='")
        with ((py "<img" ++ w1 ++ py "class='logo'") ++ w2 ++ py "src='")
        by (rewrite <- !app_assoc; reflexivity).
      apply (opens_then_spaced _ _ w2 "s" (py "rc='")); auto.
      apply (opens_spaced (py "<img") w1 "c" (py "lass='logo'")); auto.
    + discriminate.
Qed.

(** ** Empty values *)

(** with the four meta fields empty, [save] runs the six other steps *)
Lemma save_html_empty_meta lp :
  meta_desc lp = [] -> meta_keywords lp = [] ->
  og_image lp = [] -> twitter_image lp = [] ->
  save_html lp
  = (h <- subst Save.logo (logo_src lp) (html lp) ;;
     h <- subst Save.h1 (h1_title lp) h ;;
     h <- subst Save.tagline (tagline lp) h ;;
     h <- subst Save.title (meta_title lp) h ;;
     h <- subst_settings (cpab_it lp) (cpab_key lp) h ;;
     subst_apps (apps lp) h).
Proof.
  intros H1 H2 H3 H4. unfold save_html. rewrite H1, H2, H3, H4.
  destruct (subst Save.logo (logo_src lp) (html lp)) as [h| |]; reflexivity.
Qed.

(** the text in which every match of the marker [p] has lost its value:
    the opening (group 1) and the closing text (group 3) are kept *)
Definition emptied (p : regex) (doc : text) : text :=
  re_sub_fun p (fun m => group 1 m ++ group 3 m) doc.

(** The two kinds of field of the specification.  A field that is
    written whatever its value is: with the empty value, every marker is
    emptied. *)
Definition written_always (p : regex) (value doc : text) : outcome text :=
  match value with
  | [] => Ret (emptied p doc)
  | _ => subst p value doc
  end.

(** A field that is written only when it has a value: with the empty
    value the document stays as it is, so the value in its marker cannot
    be cleared. *)
Definition written_if_given (p : regex) (value doc : text) : outcome text :=
  match value with
  | [] => Ret doc
  | _ => subst p value doc
  end.

(** [save] in the words of the specification: the logo, the heading, the
    tagline and the title are always written, the four meta fields only
    when they have a value *)
Definition save_by_kind (lp : LPData) : outcome text :=
  h <- written_always Save.logo (logo_src lp) (html lp) ;;
  h <- written_always Save.h1 (h1_title lp) h ;;
  h <- written_always Save.tagline (tagline lp) h ;;
  h <- written_always Save.title (meta_title lp) h ;;
  h <- written_if_given (Save.meta attr_description) (meta_desc lp) h ;;
  h <- written_if_given (Save.meta attr_keywords) (meta_keywords lp) h ;;
  h <- written_if_given (Save.meta attr_og_image) (og_image lp) h ;;
  h <- written_if_given (Save.meta attr_twitter_image) (twitter_image lp) h ;;
  h <- subst_settings (cpab_it lp) (cpab_key lp) h ;;
  subst_apps (apps lp) h.

Lemma subst_empty p doc :
  3 <= groups_of p -> subst p [] doc = Ret (emptied p doc).
Proof. intros Hg. rewrite (subst_inert p [] doc Hg eq_refl). reflexivity. Qed.

Lemma subst_written_always p value doc :
  3 <= groups_of p -> subst p value doc = written_always p value doc.
Proof.
  intros Hg. destruct value as [|c v]; [|reflexivity]. now apply subst_empty.
Qed.

(** C10: for every object and every page, [save] is the save of the
    specification.  A meta field (description, keywords, og:image,
    twitter:image) is substituted only when its value is not empty: with
    the empty value its step returns the document as it is, so the
    document keeps the value its marker had.  The logo, the heading, the
    tagline and the title are substituted even when empty: every match
    of their marker keeps its opening and closing text and loses the
    value between them. *)
Theorem empty_values_on_save (lp : LPData) :
  save_html lp = save_by_kind lp.
Proof.
  unfold save_html, save_by_kind.
  rewrite (subst_written_always Save.logo) by (cbn; lia).
  destruct (written_always Save.logo (logo_src lp) (html lp)) as [h1| |];
    [cbn [bind]|reflexivity|reflexivity].
  rewrite (subst_written_always Save.h1) by (cbn; lia).
  destruct (written_always Save.h1 (h1_title lp) h1) as [h2| |];
    [cbn [bind]|reflexivity|reflexivity].
  rewrite (subst_written_always Save.tagline) by (cbn; lia).
  destruct (written_always Save.tagline (tagline lp) h2) as [h3| |];
    [cbn [bind]|reflexivity|reflexivity].
  rewrite (subst_written_always Save.title) by (cbn; lia).
  reflexivity.
Qed.

(** a page with every marker among other tags *)
Definition all_fields_page : text :=
  py "<html><head><title>T</title><meta charset='utf-8'><meta name='description' content='D'><meta name='keywords' content='K'><meta property='og:image' content='O'><meta name='twitter:image' content='W'></head><body><div><img class='logo' src='a.png'><img src='b.png'></div><h1>H</h1><p class='tagline'>G</p><p>more</p></body></html>".

(** the object after the user emptied every field but the description *)
Definition emptied_fields : LPData :=
  {| html := all_fields_page; logo_src := []; h1_title := []; tagline := [];
     meta_title := []; meta_desc := py "New"; meta_keywords := [];
     og_image := []; twitter_image := []; cpab_it := []; cpab_key := [];
     apps := VList [] |}.

(** on that page: the title, the logo, the heading and the tagline are
    emptied, the description is written, and the three meta fields that
    were emptied keep K, O and W *)
Lemma empty_values_on_save_witness :
  save_html emptied_fields
  = Ret (py "<html><head><title></title><meta charset='utf-8'><meta name='description' content='New'><meta name='keywords' content='K'><meta property='og:image' content='O'><meta name='twitter:image' content='W'></head><body><div><img class='logo' src=''><img src='b.png'></div><h1></h1><p class='tagline'></p><p>more</p></body></html>").
Proof.
  rewrite (empty_values_on_save emptied_fields). vm_compute. reflexivity.
Defined.

Definition all_markers_doc : text :=
  py "<title>T</title><meta name='description' content='D'><meta name='keywords' content='K'><meta property='og:image' content='O'><meta name='twitter:image' content='W'><img class='logo' src='a.png'><h1>H</h1><p class='tagline'>G</p>".

(** [save] with every field empty, on a page with every marker: the
    four meta values stay, the four other values go *)
Example save_with_empty_fields :
  save_html {| html := all_markers_doc; logo_src := []; h1_title := [];
               tagline := []; meta_title := []; meta_desc := [];
               meta_keywords := []; og_image := []; twitter_image := [];
               cpab_it := []; cpab_key := []; apps := VList [] |}
  = Ret (py "<title></title><meta name='description' content='D'><meta name='keywords' content='K'><meta property='og:image' content='O'><meta name='twitter:image' content='W'><img class='logo' src=''><h1></h1><p class='tagline'></p>").
Proof. vm_compute. reflexivity. Qed.

(** ** The settings object *)

Lemma opens_then_star_str X a ws b0 b :
  opens X a ->
  forallb is_space ws = true -> is_space b0 = false ->
  opens (X ⋅ RStar is_space ⋅ RStr (b0 :: b)) (a ++ ws ++ b0 :: b).
Proof.
  intros HX Hws Hb A prev rest g k.
  rewrite !rmatch_cat. rewrite <- !app_assoc. rewrite HX.
  cbn [app]. rewrite rmatch_star_run; try assumption.
  - change (b0 :: b ++ rest) with ((b0 :: b) ++ rest). rewrite rmatch_str.
    rewrite !last_of_app. reflexivity.
  - intros pv d t Hd. apply rmatch_str_head. apply space_not; assumption.
Qed.

Definition no_bsl (t : text) : bool := forallb (fun c => negb (Ascii.eqb c bsl)) t.

Lemma no_bsl_app a b : no_bsl (a ++ b) = no_bsl a && no_bsl b.
Proof. apply forallb_app. Qed.

Lemma no_bsl_uint d : no_bsl (str (NilEmpty.string_of_uint d)) = true.
Proof. induction d; cbn; auto. Qed.

Lemma no_bsl_decimal n : no_bsl (decimal n) = true.
Proof.
  unfold decimal. destruct (Z.to_int n) as [d|d]; cbn [NilZero.string_of_int].
  - destruct d; try apply no_bsl_uint. reflexivity.
  - change (no_bsl ("-"%char :: str (NilZero.string_of_uint d)) = true).
    cbn [no_bsl forallb]. destruct d; try apply no_bsl_uint. reflexivity.
Qed.

(** a key that [json.dumps] writes as it is: printable ASCII, no double
    quote, no backslash *)
Definition plain_char (c : ascii) : bool :=
  in_range 32 126 c && negb (Ascii.eqb c dq) && negb (Ascii.eqb c bsl).

Definition plain_key (key : text) : bool := forallb plain_char key.

Lemma json_escape_plain c : plain_char c = true -> json_escape c = [c].
Proof.
  unfold plain_char, json_escape, in_range. intros H.
  apply andb_true_iff in H as [H Hb]. apply andb_true_iff in H as [Hr Hq].
  apply negb_true_iff in Hb, Hq. rewrite Hq, Hb.
  pose proof Hr as Hr'. apply andb_true_iff in Hr' as [Hlo Hhi].
  apply Nat.leb_le in Hlo.
  repeat match goal with
         | |- context [Nat.eqb (code c) ?k] =>
             replace (Nat.eqb (code c) k) with false
               by (symmetry; apply Nat.eqb_neq; lia)
         end.
  unfold in_range in *. rewrite Hr. reflexivity.
Qed.

Lemma json_string_plain key :
  plain_key key = true -> json_string key = dq :: key ++ [dq].
Proof.
  intros H. unfold json_string. do 2 f_equal.
  induction key as [|c key IH]; [reflexivity|].
  cbn [plain_key forallb] in H. apply andb_true_iff in H as [Hc H].
  cbn [flat_map]. rewrite (json_escape_plain c Hc), (IH H). reflexivity.
Qed.

Lemma plain_key_no_bsl key : plain_key key = true -> no_bsl key = true.
Proof.
  unfold plain_key, no_bsl, plain_char. rewrite !forallb_forall.
  intros H c Hc. specialize (H c Hc).
  apply andb_true_iff in H as [_ H]. exact H.
Qed.

(** the normalized settings literal *)
Definition settings_literal (n : Z) (key : text) : text :=
  py "{'it': " ++ decimal n ++ py ", 'key': '" ++ key ++ py "'}".

Lemma json_dumps_plain n key :
  plain_key key = true -> json_dumps_settings n key = settings_literal n key.
Proof.
  intros H. unfold json_dumps_settings, settings_literal.
  rewrite (json_string_plain key H).
  change (py ", 'key': '") with (py ", 'key': " ++ [dq]).
  change (py "'}") with ([dq] ++ py "}").
  do 2 f_equal. rewrite <- (app_assoc (py ", 'key': ")). f_equal.
  cbn [app]. f_equal. rewrite <- app_assoc. reflexivity.
Qed.

Lemma settings_literal_inert n key :
  plain_key key = true -> inert (settings_literal n key) = true.
Proof.
  intros H. unfold inert. apply andb_true_iff. split; [|reflexivity].
  change (no_bsl (settings_literal n key) = true). unfold settings_literal.
  rewrite !no_bsl_app, no_bsl_decimal, (plain_key_no_bsl key H). reflexivity.
Qed.

(** ** One match in a page *)

Definition is_none {A : Type} (o : option A) : bool :=
  match o with
  | None => true
  | Some _ => false
  end.

(** [r] matches at no position of [pre] in the text [pre ++ rest];
    [prev] is the character before [pre] *)
Fixpoint unmatched (r : regex) (prev : option ascii) (pre rest : text) : bool :=
  match pre with
  | [] => true
  | c :: pre' =>
      is_none (match_here r false prev (pre ++ rest))
      && unmatched r (Some c) pre' rest
  end.

(** in the page [pre ++ mt ++ post], the scan of [re.sub] finds no match
    of [r] before [mt] and none after it *)
Definition only_match (r : regex) (pre mt post : text) : bool :=
  unmatched r None pre (mt ++ post)
  && unmatched r (last_of None (pre ++ mt)) post []
  && is_none (match_here r false (last_of None (pre ++ mt ++ post)) []).

Lemma sub_scan_unmatched r f pre rest :
  forall prev,
    unmatched r prev pre rest = true ->
    sub_scan r f prev (pre ++ rest) 0 = pre ++ sub_scan r f (last_of prev pre) rest 0.
Proof.
  induction pre as [|c pre IH]; intros prev H; [reflexivity|].
  cbn [unmatched] in H. apply andb_true_iff in H as [H1 H2].
  cbn [app sub_scan last_of] in *.
  destruct (match_here r false prev (c :: pre ++ rest)); [discriminate|].
  f_equal. apply IH, H2.
Qed.

Lemma sub_scan_only_match r f pre c t post m :
  only_match r pre (c :: t) post = true ->
  match_here r false (last_of None pre) ((c :: t) ++ post) = Some m ->
  m_text m = c :: t ->
  sub_scan r f None (pre ++ (c :: t) ++ post) 0 = pre ++ f m ++ post.
Proof.
  unfold only_match. intros H Hm Ht.
  apply andb_true_iff in H as [H H3]. apply andb_true_iff in H as [H1 H2].
  rewrite (sub_scan_unmatched r f pre _ None H1).
  rewrite (sub_scan_at_match r f _ c t post m Hm Ht).
  rewrite <- (app_nil_r post) at 1.
  rewrite <- last_of_app in *.
  rewrite (sub_scan_unmatched r f post [] _ H2).
  rewrite <- last_of_app, <- app_assoc.
  rewrite sub_scan_end, app_nil_r; [reflexivity|].
  destruct (match_here r false (last_of None (pre ++ (c :: t) ++ post)) []);
    [discriminate|reflexivity].
Qed.

(** ** The settings object *)

(** the opening of the settings object, with any white space between its
    parts *)
Definition settings_open (w1 w2 w3 : text) : text :=
  py "var" ++ w1 ++ py "CPABUILDSETTINGS" ++ w2 ++ py "=" ++ w3.

(** the end of the braces, [}\s*;], matches at the front of [s] *)
Definition closes_at (s : text) : bool :=
  match s with
  | c :: t =>
      Ascii.eqb c "}"
      && match lstrip is_space t with
         | d :: _ => Ascii.eqb d ";"
         | [] => false
         end
  | [] => false
  end.

(** the end of the braces matches at no position of [body] in the text
    [body ++ rest]: the braces are open as far as [rest] *)
Fixpoint open_inside (body rest : text) : bool :=
  match body with
  | [] => true
  | _ :: body' => negb (closes_at (body ++ rest)) && open_inside body' rest
  end.

Lemma rep_greedy_semicolon_none (A : Type) s
      (K : option ascii -> text -> option A) :
  (forall pv s', strip_prefix (py ";") s' = None -> K pv s' = None) ->
  match lstrip is_space s with
  | d :: _ => Ascii.eqb d ";"
  | [] => false
  end = false ->
  forall prev, rep_greedy is_space K prev s = None.
Proof.
  intros HK H.
  induction s as [|c s IH]; intros prev; cbn [rep_greedy lstrip] in *.
  - apply HK. reflexivity.
  - assert (Hc : is_space c = true \/ Ascii.eqb c ";" = false ->
                 K prev (c :: s) = None).
    { intros Hc. apply HK. change (py ";") with [";"%char]. cbn [strip_prefix].
      rewrite Ascii.eqb_sym.
      destruct (Ascii.eqb_spec c ";") as [->|]; [|reflexivity].
      destruct Hc; discriminate. }
    destruct (is_space c) eqn:Ec.
    + rewrite (IH H), Hc by auto. reflexivity.
    + apply Hc. auto.
Qed.

Lemma rep_lazy_skip_open (A : Type) p (k : option ascii -> text -> option A) v rest :
  forallb p v = true ->
  (forall pv s, closes_at s = false -> k pv s = None) ->
  open_inside v rest = true ->
  forall prev, rep_lazy p k prev (v ++ rest) = rep_lazy p k (last_of prev v) rest.
Proof.
  intros Hp Hk. induction v as [|c v IH]; intros Ho prev; [reflexivity|].
  cbn [forallb] in Hp. apply andb_true_iff in Hp as [Hpc Hp].
  cbn [open_inside] in Ho. apply andb_true_iff in Ho as [Hc Ho].
  apply negb_true_iff in Hc.
  cbn [app rep_lazy last_of] in *. rewrite (Hk prev _ Hc), Hpc.
  apply IH; assumption.
Qed.

(** the braces, up to the first place where their end matches *)
Lemma braces_match (A : Type) body tail prev g
      (F : text -> caps -> caps) (kf : option ascii -> text -> caps -> option A) a :
  open_inside body (py "}" ++ tail) = true ->
  rmatch (RGroup 3 (RStar is_space ⋅ RStr (py ";")))
         (last_of prev (py "{" ++ body ++ py "}")) tail (F tail g) kf = Some a ->
  rmatch (RStr (py "{") ⋅ RLazy dotall ⋅ RStr (py "}")) prev
         ((py "{" ++ body ++ py "}") ++ tail) g
         (fun pv s' g' =>
            rmatch (RGroup 3 (RStar is_space ⋅ RStr (py ";"))) pv s' (F s' g') kf)
  = Some a.
Proof.
  intros Ho Hk. rewrite !rmatch_cat. rewrite <- !app_assoc. rewrite rmatch_str.
  cbn [rmatch].
  rewrite (rep_lazy_skip_open _ dotall _ body (py "}" ++ tail));
    [|apply forallb_dotall| |exact Ho].
  - apply rep_lazy_here. rewrite strip_prefix_app.
    rewrite !last_of_app in *. exact Hk.
  - intros pv s Hs. destruct s as [|c t]; [reflexivity|].
    change (py "}") with ["}"%char]. cbn [strip_prefix].
    cbn [closes_at] in Hs. rewrite Ascii.eqb_sym.
    destruct (Ascii.eqb c "}"); [|reflexivity].
    cbn [andb] in Hs. cbv iota.
    apply rep_greedy_semicolon_none; [|exact Hs].
    intros pv0 s' E. rewrite E. reflexivity.
Qed.

Lemma settings_match w1 w2 w3 w4 body post adv prev :
  forallb is_space w1 = true -> w1 <> [] ->
  forallb is_space w2 = true -> forallb is_space w3 = true ->
  forallb is_space w4 = true ->
  open_inside body (py "}" ++ (w4 ++ py ";") ++ post) = true ->
  match_here Save.settings adv prev
    (settings_open w1 w2 w3 ++ (py "{" ++ body ++ py "}") ++ (w4 ++ py ";") ++ post)
  = Some {| m_text := settings_open w1 w2 w3 ++ (py "{" ++ body ++ py "}")
                        ++ (w4 ++ py ";");
            m_groups := [(3, w4 ++ py ";");
                         (2, py "{" ++ body ++ py "}");
                         (1, settings_open w1 w2 w3)];
            m_rest := post |}.
Proof.
  intros H1 N1 H2 H3 H4 Hb.
  set (braces := py "{" ++ body ++ py "}").
  set (tail := w4 ++ py ";").
  set (open := (py "var" ++ w1 ++ py "CPABUILDSETTINGS") ++ w2 ++ py "=").
  assert (E : settings_open w1 w2 w3 = open ++ w3).
  { unfold settings_open, open. rewrite <- !app_assoc. reflexivity. }
  rewrite E.
  set (doc := (open ++ w3) ++ braces ++ tail ++ post).
  assert (HO : opens (RStr (py "var") ⋅ RPlus is_space ⋅ RStr (py "CPABUILDSETTINGS")
                      ⋅ RStar is_space ⋅ RStr (py "=")) open).
  { apply (opens_then_star_str _ _ w2 "=" []); auto.
    apply (opens_spaced (py "var") w1 "C" (py "PABUILDSETTINGS")); auto. }
  unfold match_here, Save.settings.
  rewrite !rmatch_cat, rmatch_group, rmatch_cat.
  unfold doc at 1. rewrite <- (app_assoc open). rewrite HO.
  assert (Eb : braces ++ tail ++ post = "{"%char :: (body ++ py "}") ++ tail ++ post)
    by reflexivity.
  rewrite Eb. rewrite rmatch_star_run; try assumption; try reflexivity.
  2:{ intros pv d t Hd. rewrite rmatch_group, !rmatch_cat.
      apply rmatch_str_head. apply space_not; [assumption|reflexivity]. }
  rewrite <- Eb. rewrite rmatch_group.
  apply (braces_match Match body (tail ++ post) _ _
           (fun s' g' =>
              (2, firstn (List.length (braces ++ tail ++ post) - List.length s')
                         (braces ++ tail ++ post)) :: g')).
  { exact Hb. }
  rewrite rmatch_group. unfold tail at 1. rewrite rmatch_cat. rewrite <- app_assoc.
  change (py ";" ++ post) with (";"%char :: post).
  rewrite rmatch_star_run; try assumption; try reflexivity.
  2:{ intros pv d t Hd. apply rmatch_str_head. apply space_not; [assumption|reflexivity]. }
  change (";"%char :: post) with (py ";" ++ post). rewrite rmatch_str.
  replace (Nat.eqb (List.length post) (List.length doc)) with false.
  2:{ symmetry. unfold doc. rewrite !app_assoc. apply length_after_nonempty.
      unfold open. discriminate. }
  rewrite andb_false_r. unfold doc.
  change ((w4 ++ py ";") ++ post) with (tail ++ post).
  rewrite (firstn_consumed braces (tail ++ post)).
  rewrite (firstn_consumed tail post).
  rewrite (firstn_consumed (open ++ w3) (braces ++ tail ++ post)).
  replace ((open ++ w3) ++ braces ++ tail ++ post)
    with (((open ++ w3) ++ braces ++ tail) ++ post)
    by (rewrite <- !app_assoc; reflexivity).
  rewrite firstn_consumed. reflexivity.
Qed.

(** the field steps of [save], from the logo to the last meta field: the
    text the settings step is given *)
Definition save_fields (lp : LPData) : outcome text :=
  h <- subst Save.logo (logo_src lp) (html lp) ;;
  h <- subst Save.h1 (h1_title lp) h ;;
  h <- subst Save.tagline (tagline lp) h ;;
  h <- subst Save.title (meta_title lp) h ;;
  h <- subst_if (Save.meta attr_description) (meta_desc lp) h ;;
  h <- subst_if (Save.meta attr_keywords) (meta_keywords lp) h ;;
  h <- subst_if (Save.meta attr_og_image) (og_image lp) h ;;
  subst_if (Save.meta attr_twitter_image) (twitter_image lp) h.

Lemma save_html_steps lp :
  save_html lp
  = (h <- save_fields lp ;;
     h <- subst_settings (cpab_it lp) (cpab_key lp) h ;;
     subst_apps (apps lp) h).
Proof.
  unfold save_html, save_fields.
  repeat match goal with
         | |- context [bind ?m _] =>
             lazymatch m with
             | bind _ _ => fail
             | _ => destruct m; cbn [bind]; try reflexivity
             end
         end.
Qed.

Lemma int_or_zero_raises it e :
  int_or_zero it = Raise e -> e = ValueError_int it.
Proof.
  unfold int_or_zero, py_int. destruct it as [|c it]; [discriminate|].
  generalize (c :: it). intros s H.
  repeat match type of H with
         | context [if ?b then _ else _] => destruct b
         | context [match ?x with _ => _ end] => destruct x
         end;
    try discriminate; injection H as <-; reflexivity.
Qed.

(** the text with the settings object re-emitted: every match of the
    pattern keeps its declaration (group 1) and its semicolon (group 3)
    and gets the literal in place of its braces (group 2) *)
Definition reemitted (n : Z) (key : text) (h : text) : text :=
  re_sub_fun Save.settings
    (fun m => group 1 m ++ settings_literal n key ++ group 3 m) h.

Lemma subst_settings_reemits it key n h :
  plain_key key = true -> int_or_zero it = Ret n ->
  subst_settings it key h = Ret (reemitted n key h).
Proof.
  intros Hk Hn. unfold subst_settings. rewrite Hn. cbn [bind].
  rewrite (json_dumps_plain n key Hk).
  apply subst_inert; [cbn; lia | apply settings_literal_inert, Hk].
Qed.

Lemma reemitted_one_object n key w1 w2 w3 w4 pre body post :
  forallb is_space w1 = true -> w1 <> [] ->
  forallb is_space w2 = true -> forallb is_space w3 = true ->
  forallb is_space w4 = true ->
  open_inside body (py "}" ++ (w4 ++ py ";") ++ post) = true ->
  only_match Save.settings pre
    (settings_open w1 w2 w3 ++ (py "{" ++ body ++ py "}") ++ (w4 ++ py ";")) post
  = true ->
  reemitted n key
    (pre ++ settings_open w1 w2 w3 ++ (py "{" ++ body ++ py "}")
         ++ (w4 ++ py ";") ++ post)
  = pre ++ settings_open w1 w2 w3 ++ settings_literal n key ++ (w4 ++ py ";") ++ post.
Proof.
  intros H1 N1 H2 H3 H4 Hb Ho. unfold reemitted, re_sub_fun.
  assert (Em : exists t, settings_open w1 w2 w3 ++ (py "{" ++ body ++ py "}")
                           ++ (w4 ++ py ";") = "v"%char :: t).
  { eexists. unfold settings_open. reflexivity. }
  destruct Em as [t Em].
  assert (E : settings_open w1 w2 w3 ++ (py "{" ++ body ++ py "}")
                ++ (w4 ++ py ";") ++ post = ("v"%char :: t) ++ post).
  { rewrite <- Em, <- !app_assoc. reflexivity. }
  rewrite E. rewrite Em in Ho.
  rewrite (sub_scan_only_match _ _ pre "v" t post
             {| m_text := settings_open w1 w2 w3 ++ (py "{" ++ body ++ py "}")
                            ++ (w4 ++ py ";");
                m_groups := [(3, w4 ++ py ";");
                             (2, py "{" ++ body ++ py "}");
                             (1, settings_open w1 w2 w3)];
                m_rest := post |}); [|exact Ho| |exact Em].
  - cbn [group m_groups cap_lookup Nat.eqb]. rewrite <- !app_assoc. reflexivity.
  - rewrite <- E. now apply settings_match.
Qed.

(** C4, amended: when the field substitutions before it return, [save]
    re-emits the settings object as the normalized two-key literal:
    every match of the settings pattern keeps its declaration and its
    semicolon and gets the literal in place of its braces, where [it] is
    the integer [int] reads from the stored value, 0 when the stored
    value is empty, and [key] is the stored key between double quotes
    (for a key of printable ASCII without double quote or backslash).
    On a page where the pattern matches once, the literal stands in
    place of the text from the opening brace to the first closing brace
    that white space and a semicolon follow, whatever that text is, and
    the rest of the page is handed to the array step as it is.  A stored
    value that [int] does not read is not defaulted: [save] raises
    ValueError, no file is written and the object is not changed. *)
Theorem settings_reemitted (lp : LPData) (h : text) :
  save_fields lp = Ret h ->
  plain_key (cpab_key lp) = true ->
  (forall n, int_or_zero (cpab_it lp) = Ret n ->
     save_html lp = subst_apps (apps lp) (reemitted n (cpab_key lp) h)
     /\ forall w1 w2 w3 w4 pre body post,
          h = pre ++ settings_open w1 w2 w3 ++ (py "{" ++ body ++ py "}")
                  ++ (w4 ++ py ";") ++ post ->
          forallb is_space w1 = true -> w1 <> [] ->
          forallb is_space w2 = true -> forallb is_space w3 = true ->
          forallb is_space w4 = true ->
          open_inside body (py "}" ++ (w4 ++ py ";") ++ post) = true ->
          only_match Save.settings pre
            (settings_open w1 w2 w3 ++ (py "{" ++ body ++ py "}") ++ (w4 ++ py ";"))
            post = true ->
          save_html lp
          = subst_apps (apps lp)
              (pre ++ settings_open w1 w2 w3 ++ settings_literal n (cpab_key lp)
                   ++ (w4 ++ py ";") ++ post))
  /\ (cpab_it lp = [] ->
      save_html lp = subst_apps (apps lp) (reemitted 0 (cpab_key lp) h))
  /\ (forall e, int_or_zero (cpab_it lp) = Raise e ->
        e = ValueError_int (cpab_it lp)
        /\ save_html lp = Raise e
        /\ forall fault fs path, save fault fs lp path = (fs, lp, Raise e)).
Proof.
  intros Hf Hk.
  assert (S : forall n, int_or_zero (cpab_it lp) = Ret n ->
                save_html lp = subst_apps (apps lp) (reemitted n (cpab_key lp) h)).
  { intros n Hn. rewrite save_html_steps, Hf. cbn [bind].
    rewrite (subst_settings_reemits _ _ n h Hk Hn). reflexivity. }
  split; [|split].
  - intros n Hn. split; [exact (S n Hn)|].
    intros w1 w2 w3 w4 pre body post -> H1 N1 H2 H3 H4 Hb Ho.
    rewrite (S n Hn). f_equal. now apply reemitted_one_object.
  - intros E. apply S. rewrite E. reflexivity.
  - intros e He. split; [exact (int_or_zero_raises _ _ He)|].
    assert (R : save_html lp = Raise e).
    { rewrite save_html_steps, Hf. cbn [bind].
      unfold subst_settings. rewrite He. reflexivity. }
    split; [exact R|]. intros fault fs path. unfold save. rewrite R. reflexivity.
Qed.

(** a page with other tags, another [var] and braces inside the braces *)
Definition settings_page : text :=
  py "<div>v</div><script>var a = {};" ++ [nl]
  ++ py "var CPABUILDSETTINGS = {it: '7', x: {}, key: 'abc'} ;</script>".

Definition settings_page_data : LPData :=
  {| html := settings_page; logo_src := []; h1_title := []; tagline := [];
     meta_title := []; meta_desc := []; meta_keywords := []; og_image := [];
     twitter_image := []; cpab_it := py "7"; cpab_key := py "abc";
     apps := VList [] |}.

Lemma settings_reemitted_witness :
  save_html settings_page_data
  = Ret (py "<div>v</div><script>var a = {};" ++ [nl]
         ++ py "var CPABUILDSETTINGS = {'it': 7, 'key': 'abc'} ;</script>").
Proof.
  rewrite (proj2 (proj1 (settings_reemitted settings_page_data settings_page
                           ltac:(vm_compute; reflexivity) eq_refl)
                        7%Z eq_refl)
             (py " ") (py " ") (py " ") (py " ")
             (py "<div>v</div><script>var a = {};" ++ [nl])
             (py "it: '7', x: {}, key: 'abc'") (py "</script>")
             eq_refl eq_refl ltac:(discriminate) eq_refl eq_refl eq_refl
             ltac:(vm_compute; reflexivity) ltac:(vm_compute; reflexivity)).
  vm_compute. reflexivity.
Defined.

Definition settings_doc : text :=
  py "<script>var CPABUILDSETTINGS = {it: 1, key: 'k'};</script>".

(** C4, as stated, fails: a stored value that is not a number is not
    defaulted to 0; [save] raises and writes no document. *)
Lemma settings_not_a_number_raises :
  save_html {| html := settings_doc; logo_src := []; h1_title := [];
               tagline := []; meta_title := []; meta_desc := [];
               meta_keywords := []; og_image := []; twitter_image := [];
               cpab_it := py "abc"; cpab_key := py "k"; apps := VList [] |}
  = Raise (ValueError_int (py "abc")).
Proof. vm_compute. reflexivity. Qed.

(** the settings object of the specification's example: unquoted keys
    and a number between quotes *)
Definition quoted_it_page : text :=
  py "<script>var CPABUILDSETTINGS = {it: '7', key: 'abc'};</script>".

(** On that page [load] does not read the number: the strict parser
    refuses the unquoted keys, and the pattern for [it] wants a digit
    right after the colon.  The stored value is empty, and a save with
    nothing edited writes 0. *)
Lemma quoted_it_is_saved_as_zero json5 json_loads e :
  json_loads (py "{it: '7', key: 'abc'}") = Raise e ->
  exists lp,
    load_html json5 json_loads quoted_it_page = Ret lp
    /\ cpab_it lp = [] /\ cpab_key lp = py "abc"
    /\ save_html lp
       = Ret (py "<script>var CPABUILDSETTINGS = {'it': 0, 'key': 'abc'};</script>").
Proof.
  intros H. unfold load_html.
  assert (M : re_search Load.settings quoted_it_page
              = Some {| m_text := py "var CPABUILDSETTINGS = {it: '7', key: 'abc'};";
                        m_groups := [(1, py "{it: '7', key: 'abc'}")];
                        m_rest := py "</script>" |})
    by (vm_compute; reflexivity).
  rewrite M. cbn [group m_groups cap_lookup Nat.eqb].
  unfold load_settings. rewrite H. cbn [bind].
  assert (A : load_apps json5 quoted_it_page = Ret (VList []))
    by (unfold load_apps;
        replace (re_search apps_pattern quoted_it_page) with (@None Match)
          by (vm_compute; reflexivity);
        reflexivity).
  rewrite A. cbn [bind]. eexists. split; [reflexivity|].
  split; [vm_compute; reflexivity|]. split; vm_compute; reflexivity.
Qed.

(** ** A marker that is absent, and a value that starts with a digit *)

Definition no_heading_doc : text := py "<html><body><p>Hello</p></body></html>".

(** the data loaded from [no_heading_doc], with a heading typed in *)
Definition no_heading_edit : LPData :=
  {| html := no_heading_doc; logo_src := []; h1_title := py "7 Tips";
     tagline := []; meta_title := []; meta_desc := []; meta_keywords := [];
     og_image := []; twitter_image := []; cpab_it := []; cpab_key := [];
     apps := VList [] |}.

(** C6 (the code at the failing input): the page has no heading marker,
    and [load] reads the empty default; saving with the heading
    ["7 Tips"] does not drop the value silently: the replacement
    [\17 Tips\3] names a group that does not exist, and [save] raises
    before anything is substituted or written. *)
Theorem absent_marker_value_raises json5 json_loads :
  re_search Load.h1 no_heading_doc = None
  /\ re_search Save.h1 no_heading_doc = None
  /\ (exists lp, load_html json5 json_loads no_heading_doc = Ret lp
                 /\ h1_title lp = []
                 /\ no_heading_edit
                    = {| html := html lp; logo_src := logo_src lp;
                         h1_title := py "7 Tips"; tagline := tagline lp;
                         meta_title := meta_title lp; meta_desc := meta_desc lp;
                         meta_keywords := meta_keywords lp; og_image := og_image lp;
                         twitter_image := twitter_image lp; cpab_it := cpab_it lp;
                         cpab_key := cpab_key lp; apps := apps lp |})
  /\ save_html no_heading_edit = Raise re_error.
Proof.
  split; [vm_compute; reflexivity|]. split; [vm_compute; reflexivity|].
  split; [|vm_compute; reflexivity].
  eexists. split; [apply load_html_plain; vm_compute; reflexivity|].
  split; vm_compute; reflexivity.
Qed.

(* ===================================================================== *)
(** * Further properties of the document model *)
(* ===================================================================== *)

(** ** A value that starts with a digit

    The replacement is [\1], the value, [\3]: a digit at the start of the
    value runs into the group reference. *)

Lemma parse_group_one_then groups d1 t3 :
  parse_template groups Plain (bsl :: "1"%char :: d1 :: t3)
  = if is_digit d1 then
      match t3 with
      | d2 :: t4 =>
          if is_octdigit "1" && is_octdigit d1 && is_octdigit d2
          then let w := 64 * digit_val "1" + 8 * digit_val d1 + digit_val d2 in
               if 255 <? w then Raise re_error
               else then_lit (ascii_of_nat w) (parse_template groups Plain t4)
          else then_group groups (10 * digit_val "1" + digit_val d1)
                          (parse_template groups Plain t3)
      | [] => then_group groups (10 * digit_val "1" + digit_val d1)
                         (parse_template groups Plain t3)
      end
    else then_group groups 1 (parse_template groups Plain (d1 :: t3)).
Proof. reflexivity. Qed.

Lemma digit_val_bound d : is_digit d = true -> digit_val d <= 9.
Proof.
  unfold is_digit, in_range, digit_val. intros H.
  apply andb_true_iff in H as [_ H]. apply Nat.leb_le in H. lia.
Qed.

Lemma octdigit_val_bound d : is_octdigit d = true -> digit_val d <= 7.
Proof.
  unfold is_octdigit, in_range, digit_val. intros H.
  apply andb_true_iff in H as [_ H]. apply Nat.leb_le in H. lia.
Qed.

Lemma octdigit_is_digit d : is_octdigit d = true -> is_digit d = true.
Proof.
  unfold is_octdigit, is_digit, in_range. intros H.
  apply andb_true_iff in H as [H1 H2]. apply Nat.leb_le in H2.
  rewrite H1. apply Nat.leb_le. lia.
Qed.

(** the character after the first one of the value, as the template sees
    it: the backslash of [\3] when the value has one character *)
Definition second_char (rest : text) : ascii :=
  match rest with
  | d2 :: _ => d2
  | [] => bsl
  end.

(** the template of such a value is refused *)
Lemma digit_template_raises (groups : nat) (d1 : ascii) (rest : text) :
  groups < 10 ->
  is_digit d1 = true ->
  is_octdigit d1 && is_octdigit (second_char rest) = false ->
  parse_template groups Plain (keep_ends (d1 :: rest)) = Raise re_error.
Proof.
  intros Hg Hd Ho. unfold keep_ends.
  cbn [app]. rewrite parse_group_one_then, Hd.
  assert (G : then_group groups (10 * digit_val "1" + digit_val d1)
                (parse_template groups Plain (rest ++ [bsl; "3"%char]))
              = Raise re_error).
  { unfold then_group.
    replace (groups <? 10 * digit_val "1" + digit_val d1) with true;
      [reflexivity|].
    symmetry. apply Nat.ltb_lt. change (digit_val "1") with 1. lia. }
  destruct rest as [|d2 rest]; cbn [app second_char] in *.
  - change (is_octdigit "1") with true. cbn [andb].
    change (is_octdigit bsl) with false in *. rewrite andb_false_r.
    rewrite G. reflexivity.
  - change (is_octdigit "1") with true. cbn [andb]. rewrite Ho.
    rewrite G. reflexivity.
Qed.

(** A value whose first character is a digit, and whose first two
    characters are not both octal digits, makes the substitution raise,
    for every pattern of [save] and on every document: [\1d] is read as a
    reference to group 10 + d. *)
Theorem digit_value_raises (p : regex) (d1 : ascii) (rest doc : text) :
  groups_of p < 10 ->
  is_digit d1 = true ->
  is_octdigit d1 && is_octdigit (second_char rest) = false ->
  subst p (d1 :: rest) doc = Raise re_error.
Proof.
  intros Hg Hd Ho. unfold subst, re_sub.
  rewrite (digit_template_raises (groups_of p) d1 rest Hg Hd Ho).
  reflexivity.
Qed.

Lemma digit_value_raises_witness :
  subst Save.h1 (py "7 Tips") (py "<p>no heading here</p>") = Raise re_error.
Proof.
  exact (digit_value_raises Save.h1 "7" (py " Tips") (py "<p>no heading here</p>")
           ltac:(cbn; lia) eq_refl eq_refl).
Defined.

(** A value that starts with two octal digits does not raise: together
    with the 1 of [\1] they are read as one octal escape.  Every marker
    loses its opening text (group 1 is never written) and gets that
    character in place of the two digits. *)
Theorem octal_value_drops_opening (p : regex) (d1 d2 : ascii) (rest doc : text) :
  3 <= groups_of p ->
  is_octdigit d1 = true -> is_octdigit d2 = true ->
  no_bsl rest = true ->
  subst p (d1 :: d2 :: rest) doc
  = Ret (re_sub_fun p
           (fun m => ascii_of_nat (64 + 8 * digit_val d1 + digit_val d2)
                       :: rest ++ group 3 m) doc).
Proof.
  intros Hg H1 H2 Hr. unfold subst, re_sub, keep_ends.
  cbn [app]. rewrite parse_group_one_then, (octdigit_is_digit d1 H1), H1, H2.
  change (is_octdigit "1") with true. cbn [andb]. cbv zeta.
  change (digit_val "1") with 1.
  pose proof (octdigit_val_bound d1 H1). pose proof (octdigit_val_bound d2 H2).
  replace (255 <? 64 * 1 + 8 * digit_val d1 + digit_val d2) with false
    by (symmetry; apply Nat.ltb_ge; lia).
  assert (T : parse_template (groups_of p) Plain [bsl; "3"%char] = Ret [TGroup 3]).
  { generalize dependent (groups_of p). intros groups Hg.
    assert (G3 : (groups <? 3) = false) by (apply Nat.ltb_ge; lia).
    cbv -[Nat.ltb]. rewrite G3. reflexivity. }
  rewrite (parse_template_literal (groups_of p) rest _ _ Hr T).
  cbn [then_lit bind]. f_equal. unfold re_sub_fun.
  apply sub_scan_ext. intros m. unfold expand. cbn [flat_map].
  rewrite flat_map_app. cbn [flat_map]. rewrite app_nil_r.
  replace (64 * 1 + 8 * digit_val d1 + digit_val d2)
    with (64 + 8 * digit_val d1 + digit_val d2) by lia.
  cbn [app]. f_equal. f_equal.
  induction rest as [|c r IH]; [reflexivity|].
  cbn [no_bsl forallb] in Hr. apply andb_true_iff in Hr as [_ Hr].
  cbn. rewrite (IH Hr). reflexivity.
Qed.

Lemma octal_value_drops_opening_witness :
  subst Save.h1 (py "2024 Best Apps") (py "<body><h1>Old</h1></body>")
  = Ret (py "<body>P24 Best Apps</h1></body>").
Proof.
  change (py "2024 Best Apps") with ("2"%char :: "0"%char :: py "24 Best Apps").
  rewrite (octal_value_drops_opening Save.h1 "2" "0" (py "24 Best Apps")
             (py "<body><h1>Old</h1></body>") ltac:(cbn; lia) eq_refl eq_refl eq_refl).
  vm_compute. reflexivity.
Defined.

(** ** A page without markers *)

Definition absent (p : regex) (doc : text) : bool :=
  match re_search p doc with
  | None => true
  | Some _ => false
  end.

Lemma absent_none p doc : absent p doc = true -> re_search p doc = None.
Proof. unfold absent. destruct (re_search p doc); [discriminate|reflexivity]. Qed.

(** none of the patterns of [load], and none of the patterns [save]
    substitutes with when every value is empty, is found in the page *)
Definition markerless (doc : text) : bool :=
  forallb (fun p => absent p doc)
    [ Load.logo; Load.h1; Load.tagline; Load.title;
      Load.meta attr_description; Load.meta attr_keywords;
      Load.meta attr_og_image; Load.meta attr_twitter_image;
      Load.settings; apps_pattern;
      Save.logo; Save.h1; Save.tagline; Save.title; Save.settings ].

(** what [load] gives on a page without markers *)
Definition blank (doc : text) : LPData := set_html LPData_init doc.

(** A page without markers loads with every field at its default, and
    saving it right away writes the same text back: nothing is inserted
    for a field whose marker is missing. *)
Theorem markerless_page_round_trip json5 json_loads (doc : text) :
  markerless doc = true ->
  load_html json5 json_loads doc = Ret (blank doc)
  /\ save_html (blank doc) = Ret doc.
Proof.
  unfold markerless. intros H.
  assert (N : forall p, In p
                [ Load.logo; Load.h1; Load.tagline; Load.title;
                  Load.meta attr_description; Load.meta attr_keywords;
                  Load.meta attr_og_image; Load.meta attr_twitter_image;
                  Load.settings; apps_pattern;
                  Save.logo; Save.h1; Save.tagline; Save.title; Save.settings ] ->
                re_search p doc = None).
  { intros p Hp. apply absent_none. rewrite forallb_forall in H. apply H, Hp. }
  assert (M : forall p, In p
                [ Load.logo; Load.h1; Load.tagline; Load.title;
                  Load.meta attr_description; Load.meta attr_keywords;
                  Load.meta attr_og_image; Load.meta attr_twitter_image ] ->
                extract p doc = []).
  { intros p Hp. apply absent_marker_extract, N. cbn [In] in *. tauto. }
  clear H. split.
  - rewrite load_html_plain by (apply N; cbn [In]; tauto).
    rewrite !M by (cbn [In]; tauto). reflexivity.
  - unfold save_html, blank, set_html, LPData_init.
    cbn [html logo_src h1_title tagline meta_title meta_desc meta_keywords
         og_image twitter_image cpab_it cpab_key apps subst_if].
    rewrite (absent_marker_subst Save.logo [] doc)
      by (try reflexivity; try (apply N; cbn [In]; tauto); cbn; lia).
    cbn [bind].
    rewrite (absent_marker_subst Save.h1 [] doc)
      by (try reflexivity; try (apply N; cbn [In]; tauto); cbn; lia).
    cbn [bind].
    rewrite (absent_marker_subst Save.tagline [] doc)
      by (try reflexivity; try (apply N; cbn [In]; tauto); cbn; lia).
    cbn [bind].
    rewrite (absent_marker_subst Save.title [] doc)
      by (try reflexivity; try (apply N; cbn [In]; tauto); cbn; lia).
    cbn [bind].
    unfold subst_settings. cbn [int_or_zero bind].
    rewrite (absent_marker_subst Save.settings (json_dumps_settings 0 []) doc)
      by (try reflexivity; try (apply N; cbn [In]; tauto); cbn; lia).
    cbn [bind]. unfold subst_apps.
    assert (E : python_apps_to_js (VList []) = Ret (py "const APPS = [" ++ [nl] ++ py "];"))
      by reflexivity.
    rewrite E. cbn [bind]. unfold re_sub.
    assert (T : parse_template (groups_of apps_pattern) Plain
                  (py "const APPS = [" ++ [nl] ++ py "];")
                = Ret (map TLit (py "const APPS = [" ++ [nl] ++ py "];")))
      by (vm_compute; reflexivity).
    rewrite T. cbn [bind]. unfold re_sub_fun.
    rewrite sub_scan_no_match by (apply N; cbn [In]; tauto). reflexivity.
Qed.

Definition plain_page : text := py "<html><body><p>Hello, world.</p></body></html>".

Lemma markerless_page_round_trip_witness :
  load_html None json_loads_unused plain_page = Ret (blank plain_page)
  /\ save_html (blank plain_page) = Ret plain_page.
Proof.
  exact (markerless_page_round_trip None json_loads_unused plain_page
           ltac:(vm_compute; reflexivity)).
Defined.

(** ** Preview *)

Definition PREVIEW_FILE : text := py "preview.html".

(** [preview_changes] saves to [preview.html]: the primary file is left
    as it is and the preview file holds the new text, but the object in
    memory now holds the new text too, so the next save starts from it. *)
Theorem preview_keeps_primary_file (fs : filesystem) (lp : LPData) (h : text) :
  save_html lp = Ret h ->
  ending (save NoFault fs lp PREVIEW_FILE) = Ret tt
  /\ files_after (save NoFault fs lp PREVIEW_FILE) INDEX_FILE = fs INDEX_FILE
  /\ files_after (save NoFault fs lp PREVIEW_FILE) PREVIEW_FILE = Some h
  /\ html (object_after (save NoFault fs lp PREVIEW_FILE)) = h
  /\ save_html (object_after (save NoFault fs lp PREVIEW_FILE))
     = save_html (set_html lp h).
Proof.
  intros H. unfold save, ending, files_after, object_after. rewrite H.
  cbn [write_file fst snd]. repeat split.
Qed.

Lemma preview_keeps_primary_file_witness :
  files_after (save NoFault (one_file page_doc) page_data PREVIEW_FILE) INDEX_FILE
  = Some page_doc
  /\ html (object_after (save NoFault (one_file page_doc) page_data PREVIEW_FILE))
     = page_saved.
Proof.
  destruct (preview_keeps_primary_file (one_file page_doc) page_data page_saved
              ltac:(vm_compute; reflexivity)) as (_ & F & _ & O & _).
  split; [rewrite F; reflexivity|exact O].
Defined.

(** ** What the encoder accepts *)

Definition is_dict (v : value) : bool :=
  match v with
  | VDict _ => true
  | _ => false
  end.

Lemma mapM_ret_all {A B} (f : A -> outcome B) (ok : A -> bool) l bs :
  (forall a b, f a = Ret b -> ok a = true) ->
  mapM f l = Ret bs -> forallb ok l = true.
Proof.
  intros Hf. revert bs. induction l as [|a l IH]; intros bs H; [reflexivity|].
  cbn [mapM] in H. apply bind_ret_inv in H as (b & Hb & H).
  apply bind_ret_inv in H as (bs' & Hbs & _).
  cbn [forallb]. rewrite (Hf a b Hb), (IH bs' Hbs). reflexivity.
Qed.

(** [python_apps_to_js] returns only for a list whose every element is a
    dict: any other element (a number, a string, a nested array, which
    the decoder lets through) makes it raise, and with it [save]. *)
Theorem encode_returns_only_for_dicts (records : list value) (js : text) :
  python_apps_to_js (VList records) = Ret js ->
  forallb is_dict records = true.
Proof.
  unfold python_apps_to_js. cbn [py_iter bind]. intros H.
  apply bind_ret_inv in H as (per_app & Hp & _).
  apply (mapM_ret_all app_lines is_dict records per_app); [|exact Hp].
  intros a b Ha. destruct a; try discriminate. reflexivity.
Qed.

Lemma encode_emits_layout_for_one a :
  python_apps_to_js (VList [dict_of_app a]) = Ret (encode_layout [a]).
Proof.
  unfold python_apps_to_js. cbn [py_iter bind mapM].
  rewrite app_lines_record. cbn [bind]. f_equal.
  change ([py "const APPS = ["] ++ List.concat [record_lines a] ++ [py "];"])
    with ((py "const APPS = [" :: List.concat [record_lines a]) ++ [py "];"]).
  rewrite join_last. unfold encode_layout.
  change (lines_nl (py "const APPS = [" :: List.concat [record_lines a]))
    with ((py "const APPS = [" ++ [nl]) ++ lines_nl (List.concat [record_lines a])).
  rewrite lines_nl_concat. cbn [flat_map]. rewrite record_lines_layout.
  rewrite <- !app_assoc. reflexivity.
Qed.

Lemma encode_returns_only_for_dicts_witness :
  forallb is_dict [dict_of_app bar_record] = true.
Proof.
  exact (encode_returns_only_for_dicts [dict_of_app bar_record]
           (encode_layout [bar_record]) (encode_emits_layout_for_one bar_record)).
Defined.

(** the one expression with a name that evaluates *)
Lemma eval_reaches_no_name_witness :
  Forall (eq builtins_name) (names_of (EList [EName builtins_name])).
Proof.
  exact (@eval_reaches_no_name (EList [EName builtins_name]) (VList [VDict []])
           eq_refl).
Defined.

(* ===================================================================== *)
(** * The record table ([AppGUI])

    The buttons of the Apps tab work on [self.lp.apps] by the index of
    the selected row.  [None] is no selection. *)
(* ===================================================================== *)

Inductive row_error : Type :=
| IndexError                 (* list index out of range *)
| NoGet                      (* the row is not a dict: no attribute 'get' *)
| NotJoinable.               (* the platforms of the row cannot be joined *)

(** [", ".join(v)] returns: [v] gives strings when iterated *)
Definition joinable (v : value) : bool :=
  match v with
  | VStr _ => true
  | VList l => forallb (fun x => match x with VStr _ => true | _ => false end) l
  | VDict d => forallb (fun kv => match fst kv with VStr _ => true | _ => false end) d
  | VNone | VBool _ | VInt _ => false
  end.

(** the row [refresh_tree] inserts for [app], or the exception *)
Definition row_shown (app : value) : option row_error :=
  match app with
  | VDict d => if joinable (get d (py "platforms") (VList [])) then None
               else Some NotJoinable
  | _ => Some NoGet
  end.

(** [refresh_tree]: the rows are inserted in order, up to the first one
    that raises *)
Fixpoint refresh_tree (apps : list value) : option row_error :=
  match apps with
  | [] => None
  | app :: rest =>
      match row_shown app with
      | Some e => Some e
      | None => refresh_tree rest
      end
  end.

(** [apps[idx] = x], for [idx] in range *)
Fixpoint set_item (l : list value) (idx : nat) (x : value) : list value :=
  match l, idx with
  | [], _ => []
  | _ :: l', 0 => x :: l'
  | y :: l', S i => y :: set_item l' i x
  end.

(** [apps.pop(idx)], for [idx] in range: the list that is left *)
Fixpoint pop_item (l : list value) (idx : nat) : list value :=
  match l, idx with
  | [], _ => []
  | _ :: l', 0 => l'
  | y :: l', S i => y :: pop_item l' i
  end.

(** A click on a button of the tab: the list after it and how the
    handler ended.  An exception leaves the list as the handler had made
    it by then. *)
Inductive click_end : Type :=
| Done                       (* the handler returned *)
| Selects (idx : nat)        (* it returned after selecting row idx *)
| Fails (e : row_error).

Definition after_refresh (apps : list value) (e : click_end) : click_end :=
  match refresh_tree apps with
  | Some err => Fails err
  | None => e
  end.

(** [add_app]: the dialog's result, when there is one, is appended and
    the table is refreshed.  The dialog ([prompt_app_data]) gives [None]
    or the dict of a record. *)
Definition add_app (apps : list value) (data : option App)
  : list value * click_end :=
  match data with
  | Some a => (apps ++ [dict_of_app a], after_refresh (apps ++ [dict_of_app a]) Done)
  | None => (apps, Done)
  end.

(** [edit_selected_app]: the dialog opens on the selected row and its
    result, when there is one, takes the place of the row.  The dialog
    may raise on a row it cannot read. *)
Definition edit_selected_app (apps : list value) (sel : option nat)
           (dialog : value -> row_error + option App) : list value * click_end :=
  match sel with
  | None => (apps, Done)
  | Some idx =>
      match nth_error apps idx with
      | None => (apps, Fails IndexError)
      | Some old =>
          match dialog old with
          | inl e => (apps, Fails e)
          | inr (Some a) =>
              (set_item apps idx (dict_of_app a),
               after_refresh (set_item apps idx (dict_of_app a)) Done)
          | inr None => (apps, Done)
          end
      end
  end.

(** [delete_selected_app]: the name of the row is read for the question,
    and the row is popped when the answer is yes *)
Definition delete_selected_app (apps : list value) (sel : option nat)
           (yes : bool) : list value * click_end :=
  match sel with
  | None => (apps, Done)
  | Some idx =>
      match nth_error apps idx with
      | None => (apps, Fails IndexError)
      | Some (VDict _) =>
          if yes then (pop_item apps idx, after_refresh (pop_item apps idx) Done)
          else (apps, Done)
      | Some _ => (apps, Fails NoGet)
      end
  end.

(** [a[i], a[j] = a[j], a[i]]: both items are read, then [a[i]] and
    [a[j]] are assigned in that order *)
Definition swap_items (a : list value) (i j : nat) : row_error + list value :=
  match nth_error a j, nth_error a i with
  | Some x, Some y => inr (set_item (set_item a i x) j y)
  | _, _ => inl IndexError
  end.

(** the status line reads the name of the row now at [idx] *)
Definition status_of (apps : list value) (idx : nat) : click_end :=
  match nth_error apps idx with
  | Some (VDict _) => Selects idx
  | Some _ => Fails NoGet
  | None => Fails IndexError
  end.

(** [move_up]: swap with the row above, refresh, select the moved row,
    name it in the status line *)
Definition move_up (apps : list value) (sel : option nat) : list value * click_end :=
  match sel with
  | None => (apps, Done)
  | Some 0 => (apps, Done)                              (* idx <= 0 *)
  | Some (S i) =>
      match swap_items apps i (S i) with
      | inr apps' => (apps', after_refresh apps' (status_of apps' i))
      | inl e => (apps, Fails e)
      end
  end.

(** [move_down]; [idx >= len(apps) - 1] is [len(apps) <= idx + 1] *)
Definition move_down (apps : list value) (sel : option nat) : list value * click_end :=
  match sel with
  | None => (apps, Done)
  | Some idx =>
      if List.length apps <=? idx + 1 then (apps, Done)
      else
        match swap_items apps (idx + 1) idx with
        | inr apps' => (apps', after_refresh apps' (status_of apps' (idx + 1)))
        | inl e => (apps, Fails e)
        end
  end.

(** ** Rows that move *)

Lemma set_item_length l idx x : List.length (set_item l idx x) = List.length l.
Proof.
  revert idx; induction l as [|y l IH]; intros [|i]; simpl; auto.
Qed.

Lemma nth_error_set_item l idx x k :
  idx < List.length l ->
  nth_error (set_item l idx x) k = if k =? idx then Some x else nth_error l k.
Proof.
  revert idx k; induction l as [|y l IH]; intros [|i] [|k] H; simpl in *;
    try lia; try reflexivity.
  apply IH; lia.
Qed.

(** the row that is at [k] after rows [i] and [i + 1] changed places *)
Definition moved_from (i k : nat) : nat :=
  if k =? i then S i else if k =? S i then i else k.

Lemma swap_items_rows apps i :
  S i < List.length apps ->
  exists apps',
    swap_items apps i (S i) = inr apps'
    /\ swap_items apps (S i) i = inr apps'
    /\ List.length apps' = List.length apps
    /\ forall k, nth_error apps' k = nth_error apps (moved_from i k).
Proof.
  intros Hi. unfold swap_items.
  destruct (nth_error apps i) as [y|] eqn:Ey;
    [|apply nth_error_None in Ey; lia].
  destruct (nth_error apps (S i)) as [x|] eqn:Ex;
    [|apply nth_error_None in Ex; lia].
  assert (E : set_item (set_item apps (S i) y) i x
              = set_item (set_item apps i x) (S i) y).
  { apply nth_error_ext. intros k.
    rewrite !nth_error_set_item by (rewrite ?set_item_length; lia).
    destruct (Nat.eqb_spec k i), (Nat.eqb_spec k (S i)); try lia; reflexivity. }
  exists (set_item (set_item apps i x) (S i) y).
  split; [reflexivity|]. split; [now rewrite E|].
  split; [now rewrite !set_item_length|].
  intros k. rewrite !nth_error_set_item by (rewrite ?set_item_length; lia).
  unfold moved_from.
  destruct (Nat.eqb_spec k i), (Nat.eqb_spec k (S i)); subst; try lia; auto.
Qed.

Lemma moved_from_twice i k : moved_from i (moved_from i k) = k.
Proof.
  unfold moved_from.
  destruct (Nat.eqb_spec k i), (Nat.eqb_spec k (S i)); subst;
    repeat match goal with
           | |- context [?a =? ?b] => destruct (Nat.eqb_spec a b)
           end; lia.
Qed.

Lemma refresh_tree_shown apps :
  refresh_tree apps = None <-> Forall (fun r => row_shown r = None) apps.
Proof.
  induction apps as [|r apps IH]; simpl.
  - split; auto.
  - destruct (row_shown r) eqn:E.
    + split; [discriminate|]. intros H; inversion H; congruence.
    + rewrite IH. split; [auto|]. intros H; now inversion H.
Qed.

Lemma shown_rows_nth apps :
  Forall (fun r => row_shown r = None) apps <->
  forall k r, nth_error apps k = Some r -> row_shown r = None.
Proof.
  rewrite Forall_forall. split.
  - intros H k r Hk. apply H. eapply nth_error_In; eauto.
  - intros H r Hr. apply In_nth_error in Hr as [k Hk]. eauto.
Qed.

Lemma status_of_shown apps k :
  refresh_tree apps = None -> k < List.length apps -> status_of apps k = Selects k.
Proof.
  intros H Hk. unfold status_of.
  destruct (nth_error apps k) as [r|] eqn:E; [|apply nth_error_None in E; lia].
  apply refresh_tree_shown, shown_rows_nth with (k := k) (r := r) in H; auto.
  destruct r; try discriminate. reflexivity.
Qed.

Lemma swapped_rows_shown apps apps' i :
  (forall k, nth_error apps' k = nth_error apps (moved_from i k)) ->
  refresh_tree apps = None -> refresh_tree apps' = None.
Proof.
  intros Hn H. apply refresh_tree_shown, shown_rows_nth. intros k r Hk.
  apply refresh_tree_shown in H. rewrite shown_rows_nth in H.
  rewrite Hn in Hk. eauto.
Qed.

(** Move Up and Move Down undo each other.  On a table whose rows all
    display, moving row [i + 1] up selects it at [i], and Move Down from
    there gives back the list and the selection; and the same the other
    way round. *)
Theorem moves_undo_each_other (apps : list value) (i : nat) :
  refresh_tree apps = None ->
  S i < List.length apps ->
  snd (move_up apps (Some (S i))) = Selects i
  /\ move_down (fst (move_up apps (Some (S i)))) (Some i) = (apps, Selects (S i))
  /\ snd (move_down apps (Some i)) = Selects (S i)
  /\ move_up (fst (move_down apps (Some i))) (Some (S i)) = (apps, Selects i).
Proof.
  intros Hs Hi.
  destruct (swap_items_rows apps i Hi) as (apps' & Hup & Hdown & Hlen & Hn).
  assert (Hs' : refresh_tree apps' = None) by (eapply swapped_rows_shown; eauto).
  assert (Hi' : S i < List.length apps') by lia.
  destruct (swap_items_rows apps' i Hi') as (back & Bup & Bdown & Blen & Bn).
  assert (back = apps) as ->.
  { apply nth_error_ext. intros k. rewrite Bn, Hn. now rewrite moved_from_twice. }
  assert (Eup : move_up apps (Some (S i)) = (apps', Selects i)).
  { unfold move_up. rewrite Hup. unfold after_refresh. rewrite Hs'.
    rewrite status_of_shown by (auto; lia). reflexivity. }
  assert (Edown : move_down apps (Some i) = (apps', Selects (S i))).
  { unfold move_down. destruct (Nat.leb_spec (List.length apps) (i + 1)); [lia|].
    replace (i + 1) with (S i) by lia. rewrite Hdown.
    unfold after_refresh. rewrite Hs'.
    rewrite status_of_shown by (auto; lia). reflexivity. }
  rewrite Eup, Edown. cbn [fst snd].
  split; [reflexivity|]. split; [|split; [reflexivity|]].
  - unfold move_down. destruct (Nat.leb_spec (List.length apps') (i + 1)); [lia|].
    replace (i + 1) with (S i) by lia. rewrite Bdown.
    unfold after_refresh. rewrite Hs.
    rewrite status_of_shown by (auto; lia). reflexivity.
  - unfold move_up. rewrite Bup. unfold after_refresh. rewrite Hs.
    rewrite status_of_shown by (auto; lia). reflexivity.
Qed.

Definition two_rows : list value :=
  [dict_of_app bar_record; dict_of_app (record_named (py "Foo") [])].

Lemma moves_undo_each_other_witness :
  refresh_tree two_rows = None
  /\ move_down (fst (move_up two_rows (Some 1))) (Some 0) = (two_rows, Selects 1).
Proof.
  split; [reflexivity|].
  apply (moves_undo_each_other two_rows 0); [reflexivity | simpl; lia].
Defined.

Lemma refresh_tree_fails apps :
  refresh_tree apps <> None <-> exists r, In r apps /\ row_shown r <> None.
Proof.
  rewrite refresh_tree_shown, Forall_forall. split.
  - intros H. induction apps as [|r apps IH].
    + exfalso; apply H; intros ? [].
    + destruct (row_shown r) eqn:E.
      * exists r. split; [left; reflexivity | congruence].
      * destruct IH as (r' & Hin & Hr').
        { intros Hall. apply H. intros x [<-|Hx]; auto. }
        exists r'. split; [right|]; auto.
  - intros (r & Hin & Hr) H. auto.
Qed.

Lemma moved_rows_in (apps apps' : list value) i r :
  (forall k, nth_error apps' k = nth_error apps (moved_from i k)) ->
  In r apps -> In r apps'.
Proof.
  intros Hn Hin. apply In_nth_error in Hin as [k Hk].
  apply nth_error_In with (n := moved_from i k).
  now rewrite Hn, moved_from_twice.
Qed.

(** A move changes the list before anything can fail.  On any list,
    whatever its rows are, Move Up on row [i + 1] and Move Down on row
    [i] leave the two rows exchanged and every other row in place; and
    when some row of the table does not display, the click ends in an
    exception all the same, with the rows exchanged and no row
    selected. *)
Theorem move_swaps_before_failing (apps : list value) (i : nat) :
  S i < List.length apps ->
  fst (move_up apps (Some (S i))) = fst (move_down apps (Some i))
  /\ (forall k, nth_error (fst (move_up apps (Some (S i)))) k
                = nth_error apps (moved_from i k))
  /\ (refresh_tree apps <> None ->
      exists e e', snd (move_up apps (Some (S i))) = Fails e
                   /\ snd (move_down apps (Some i)) = Fails e').
Proof.
  intros Hi.
  destruct (swap_items_rows apps i Hi) as (apps' & Hup & Hdown & Hlen & Hn).
  unfold move_up, move_down. rewrite Hup.
  destruct (Nat.leb_spec (List.length apps) (i + 1)); [lia|].
  replace (i + 1) with (S i) by lia. rewrite Hdown. cbn [fst snd].
  split; [reflexivity|]. split; [exact Hn|].
  intros Hf. apply refresh_tree_fails in Hf as (r & Hin & Hr).
  assert (Hf' : refresh_tree apps' <> None).
  { apply refresh_tree_fails. exists r. split; [|exact Hr].
    eapply moved_rows_in; eauto. }
  unfold after_refresh. destruct (refresh_tree apps') as [e|]; [|congruence].
  exists e, e. split; reflexivity.
Qed.

(** a list as the decoder may give it: a record and a number *)
Definition row_and_number : list value := [dict_of_app bar_record; VInt 7].

Lemma move_swaps_before_failing_witness :
  move_up row_and_number (Some 1) = ([VInt 7; dict_of_app bar_record], Fails NoGet)
  /\ exists e e', snd (move_up row_and_number (Some 1)) = Fails e
                  /\ snd (move_down row_and_number (Some 0)) = Fails e'.
Proof.
  split; [reflexivity|].
  refine (proj2 (proj2 (move_swaps_before_failing row_and_number 0 _)) _);
    [simpl; lia | discriminate].
Defined.

(** ** Rows that are added, edited and deleted *)

Lemma pop_item_parts l idx : pop_item l idx = firstn idx l ++ skipn (S idx) l.
Proof.
  revert idx; induction l as [|y l IH]; intros [|i]; simpl; auto.
  now rewrite IH.
Qed.

Lemma set_item_parts l idx x :
  idx < List.length l -> set_item l idx x = firstn idx l ++ x :: skipn (S idx) l.
Proof.
  revert idx; induction l as [|y l IH]; intros [|i] H; simpl in *; try lia; auto.
  rewrite IH by lia. reflexivity.
Qed.

Lemma edit_list apps sel dialog :
  fst (edit_selected_app apps sel dialog) = apps
  \/ exists idx old a,
       sel = Some idx /\ nth_error apps idx = Some old
       /\ dialog old = inr (Some a)
       /\ fst (edit_selected_app apps sel dialog)
          = firstn idx apps ++ dict_of_app a :: skipn (S idx) apps.
Proof.
  unfold edit_selected_app. destruct sel as [idx|]; [|now left].
  destruct (nth_error apps idx) as [old|] eqn:E; [|now left].
  destruct (dialog old) as [e|[a|]] eqn:D; try now left.
  right. exists idx, old, a. repeat (split; [reflexivity || assumption|]).
  cbn [fst]. apply set_item_parts. apply nth_error_Some. congruence.
Qed.

Lemma delete_list apps sel yes :
  fst (delete_selected_app apps sel yes) = apps
  \/ exists idx d,
       sel = Some idx /\ nth_error apps idx = Some (VDict d) /\ yes = true
       /\ fst (delete_selected_app apps sel yes)
          = firstn idx apps ++ skipn (S idx) apps.
Proof.
  unfold delete_selected_app. destruct sel as [idx|]; [|now left].
  destruct (nth_error apps idx) as [[| | | | |d]|] eqn:E; try now left.
  destruct yes; [|now left].
  right. exists idx, d. repeat (split; [reflexivity || assumption|]).
  cbn [fst]. apply pop_item_parts.
Qed.

(** Edit and Delete touch the selected row only.  Whatever the dialog
    and the answer are, and whether the click fails or not, the list
    after the click is the list before it, or the list before it with
    the selected row replaced by the dialog's record (Edit) or taken out
    (Delete), the rows before and after it in their order. *)
Theorem edit_and_delete_touch_one_row
        (apps : list value) (sel : option nat)
        (dialog : value -> row_error + option App) (yes : bool) :
  (fst (edit_selected_app apps sel dialog) = apps
   \/ exists idx old a,
        sel = Some idx /\ nth_error apps idx = Some old
        /\ dialog old = inr (Some a)
        /\ fst (edit_selected_app apps sel dialog)
           = firstn idx apps ++ dict_of_app a :: skipn (S idx) apps)
  /\ (fst (delete_selected_app apps sel yes) = apps
      \/ exists idx d,
           sel = Some idx /\ nth_error apps idx = Some (VDict d) /\ yes = true
           /\ fst (delete_selected_app apps sel yes)
              = firstn idx apps ++ skipn (S idx) apps).
Proof. split; [apply edit_list | apply delete_list]. Qed.

(** ** The table over a session *)

(** A click on one of the five buttons, with what the user does in the
    dialogs it opens. *)
Inductive button : Type :=
| Add (data : option App)
| Edit (sel : option nat) (dialog : value -> row_error + option App)
| Delete (sel : option nat) (yes : bool)
| Up (sel : option nat)
| Down (sel : option nat).

Definition click (apps : list value) (b : button) : list value * click_end :=
  match b with
  | Add data => add_app apps data
  | Edit sel dialog => edit_selected_app apps sel dialog
  | Delete sel yes => delete_selected_app apps sel yes
  | Up sel => move_up apps sel
  | Down sel => move_down apps sel
  end.

(** the list after a run of clicks: an exception in a handler ends the
    handler, not the session *)
Definition clicks (apps : list value) (bs : list button) : list value :=
  fold_left (fun l b => fst (click l b)) bs apps.

Lemma swap_items_in (a a' : list value) i j r :
  swap_items a i j = inr a' -> In r a' -> In r a.
Proof.
  unfold swap_items.
  destruct (nth_error a j) as [x|] eqn:Ex; [|discriminate].
  destruct (nth_error a i) as [y|] eqn:Ey; [|discriminate].
  intros [= <-] Hin.
  assert (Hi : i < List.length a) by (apply nth_error_Some; congruence).
  assert (Hj : j < List.length a) by (apply nth_error_Some; congruence).
  apply In_nth_error in Hin as [k Hk].
  rewrite !nth_error_set_item in Hk by (rewrite ?set_item_length; lia).
  destruct (k =? j); [injection Hk as <-; eapply nth_error_In; eauto|].
  destruct (k =? i); [injection Hk as <-; eapply nth_error_In; eauto|].
  eapply nth_error_In; eauto.
Qed.

Lemma in_firstn (l : list value) n r : In r (firstn n l) -> In r l.
Proof. intros H. rewrite <- (firstn_skipn n l). apply in_or_app. now left. Qed.

Lemma in_skipn (l : list value) n r : In r (skipn n l) -> In r l.
Proof. intros H. rewrite <- (firstn_skipn n l). apply in_or_app. now right. Qed.

(** a click makes no row but a record of the dialog *)
Lemma click_rows apps b r :
  In r (fst (click apps b)) -> In r apps \/ exists a, r = dict_of_app a.
Proof.
  destruct b as [data|sel dialog|sel yes|sel|sel]; cbn [click].
  - destruct data as [a|]; cbn [add_app fst]; [|auto].
    intros H. apply in_app_or in H as [H|[<-|[]]]; eauto.
  - destruct (edit_list apps sel dialog) as [->|(idx & old & a & _ & _ & _ & ->)];
      [auto|].
    intros H. apply in_app_or in H as [H|[<-|H]]; eauto.
    + left. eapply in_firstn; eauto.
    + left. eapply in_skipn; eauto.
  - destruct (delete_list apps sel yes) as [->|(idx & d & _ & _ & _ & ->)];
      [auto|].
    intros H. apply in_app_or in H as [H|H].
    + left. eapply in_firstn; eauto.
    + left. eapply in_skipn; eauto.
  - unfold move_up. destruct sel as [[|i]|]; cbn [fst]; auto.
    destruct (swap_items apps i (S i)) eqn:E; cbn [fst]; auto.
    intros H. left. eapply swap_items_in; eauto.
  - unfold move_down. destruct sel as [idx|]; cbn [fst]; auto.
    destruct (List.length apps <=? idx + 1); cbn [fst]; auto.
    destruct (swap_items apps (idx + 1) idx) eqn:E; cbn [fst]; auto.
    intros H. left. eapply swap_items_in; eauto.
Qed.

Lemma mapM_returns {A B} (f : A -> outcome B) l :
  (exists bs, mapM f l = Ret bs) <-> (forall a, In a l -> exists b, f a = Ret b).
Proof.
  induction l as [|a l IH]; cbn [mapM].
  - split; [intros _ ? []|eauto].
  - split.
    + intros (bs & H). apply bind_ret_inv in H as (b & Hb & H).
      apply bind_ret_inv in H as (bs' & Hbs & _).
      intros x [<-|Hx]; [eauto|]. apply IH; eauto.
    + intros H. destruct (H a) as (b & ->); [now left|].
      destruct (proj2 IH) as (bs & ->); [intros x Hx; apply H; now right|].
      cbn [bind]. eauto.
Qed.

Lemma encode_returns apps :
  (exists js, python_apps_to_js (VList apps) = Ret js)
  <-> (forall r, In r apps -> exists ls, app_lines r = Ret ls).
Proof.
  rewrite <- mapM_returns. unfold python_apps_to_js. cbn [py_iter bind]. split.
  - intros (js & H). apply bind_ret_inv in H as (per_app & -> & _). eauto.
  - intros (per_app & ->). cbn [bind]. eauto.
Qed.

Lemma row_shown_record a : row_shown (dict_of_app a) = None.
Proof.
  destruct (dict_of_app a) as [| | | | |d] eqn:E; try discriminate.
  destruct (get_dialog_fields E) as (_ & _ & _ & Hp & _).
  cbn [row_shown]. rewrite Hp. cbn [joinable].
  replace (forallb _ (map VStr (platforms a))) with true; [reflexivity|].
  clear. induction (platforms a) as [|p ps IH]; [reflexivity | exact IH].
Qed.

(** the rows the table displays and the encoder takes *)
Definition sound_row (r : value) : Prop :=
  row_shown r = None /\ exists ls, app_lines r = Ret ls.

Lemma sound_record a : sound_row (dict_of_app a).
Proof. split; [apply row_shown_record | rewrite app_lines_record; eauto]. Qed.

Lemma sound_table apps :
  (refresh_tree apps = None /\ exists js, python_apps_to_js (VList apps) = Ret js)
  <-> (forall r, In r apps -> sound_row r).
Proof.
  rewrite refresh_tree_shown, Forall_forall, encode_returns. unfold sound_row.
  split; [intros [H1 H2] r Hr; split; auto | intros H; split; intros r Hr; apply H; auto].
Qed.

Lemma clicks_rows apps bs r :
  In r (clicks apps bs) -> In r apps \/ exists a, r = dict_of_app a.
Proof.
  unfold clicks. revert apps. induction bs as [|b bs IH]; intros apps; cbn [fold_left].
  - auto.
  - intros H. apply IH in H as [H|H]; [|auto]. now apply click_rows in H.
Qed.

(** A table that displays and saves keeps doing so.  When every row of
    the loaded list displays in the table and [python_apps_to_js]
    returns for the list, then after any run of clicks on Add, Edit,
    Delete, Move Up and Move Down, with any selections and any dialog
    results, the table still displays and the list still encodes: the
    buttons cannot bring the list to a state that Save rejects. *)
Theorem table_stays_sound (apps : list value) (js : text) (bs : list button) :
  refresh_tree apps = None ->
  python_apps_to_js (VList apps) = Ret js ->
  refresh_tree (clicks apps bs) = None
  /\ exists js', python_apps_to_js (VList (clicks apps bs)) = Ret js'.
Proof.
  intros Hs Hjs. apply sound_table. intros r Hr.
  apply clicks_rows in Hr as [Hr|(a & ->)]; [|apply sound_record].
  revert r Hr. apply sound_table. eauto.
Qed.

Lemma encode_of_records records :
  python_apps_to_js (VList (map dict_of_app records)) = Ret (encode_layout records).
Proof.
  unfold python_apps_to_js. cbn [py_iter bind].
  rewrite (mapM_map_ret _ dict_of_app record_lines) by apply app_lines_record.
  cbn [bind]. f_equal.
  change ([py "const APPS = ["] ++ List.concat (map record_lines records) ++ [py "];"])
    with ((py "const APPS = [" :: List.concat (map record_lines records)) ++ [py "];"]).
  rewrite join_last. unfold encode_layout.
  change (lines_nl (py "const APPS = [" :: List.concat (map record_lines records)))
    with ((py "const APPS = [" ++ [nl]) ++ lines_nl (List.concat (map record_lines records))).
  rewrite lines_nl_concat, records_layout. rewrite <- !app_assoc. reflexivity.
Qed.

(** a session on the two rows: the second goes up, the first is edited,
    a row is added and one is deleted *)
Definition some_clicks : list button :=
  [ Up (Some 1);
    Edit (Some 0) (fun _ => inr (Some bar_record));
    Add (Some (record_named (py "Baz") []));
    Delete (Some 1) true;
    Down (Some 0) ].

Lemma table_stays_sound_witness :
  clicks two_rows some_clicks
  = [dict_of_app (record_named (py "Baz") []); dict_of_app bar_record]
  /\ refresh_tree (clicks two_rows some_clicks) = None
  /\ exists js', python_apps_to_js (VList (clicks two_rows some_clicks)) = Ret js'.
Proof.
  split; [reflexivity|].
  exact (table_stays_sound two_rows
           (encode_layout [bar_record; record_named (py "Foo") []]) some_clicks
           eq_refl (encode_of_records [bar_record; record_named (py "Foo") []])).
Defined.

(* ===================================================================== *)
(** * The record dialog ([AppDialog])

    The dialog holds six Tk variables.  [__init__] fills them from the
    row it is opened on, and [ok], the Save button, reads them back into
    a record. *)
(* ===================================================================== *)

Record dialog_vars : Type := {
  name_var : text;
  icon_var : text;
  locker_var : text;
  platforms_var : text;
  trending_var : bool;
  featured_var : bool
}.

(** [s.split(sep)] for a separator of one character *)
Fixpoint str_split (sep : ascii) (s : text) : list text :=
  match s with
  | [] => [[]]
  | c :: s' =>
      if Ascii.eqb c sep then [] :: str_split sep s'
      else match str_split sep s' with
           | p :: ps => (c :: p) :: ps
           | [] => [[c]]
           end
  end.

(** [s.lower()] below 256: the ASCII capitals and the Latin-1 ones, the
    multiplication sign between them apart *)
Definition lower_char (c : ascii) : ascii :=
  if in_range 65 90 c || (in_range 192 222 c && negb (Nat.eqb (code c) 215))
  then ascii_of_nat (code c + 32)
  else c.

Definition lower (s : text) : text := map lower_char s.

Definition is_empty (s : text) : bool :=
  match s with
  | [] => true
  | _ => false
  end.

(** [[p.strip().lower() for p in s.split(",") if p.strip()]] *)
Definition platforms_of (s : text) : list text :=
  map (fun p => lower (strip p))
      (filter (fun p => negb (is_empty (strip p))) (str_split ","%char s)).

(** [ok]: the record that becomes [self.result]; with an empty name an
    error box is shown and [self.result] stays [None] *)
Definition ok (v : dialog_vars) : option App :=
  let n := strip (name_var v) in
  if is_empty n then None
  else Some {| name := n;
               icon := strip (icon_var v);
               locker_id := strip (locker_var v);
               platforms := platforms_of (platforms_var v);
               trending := trending_var v;
               featured := featured_var v |}.

(** what a [StringVar] holds for a [str]; the Tcl rendering of another
    value is not modelled *)
Definition string_var (v : value) : outcome text :=
  match v with
  | VStr s => Ret s
  | _ => Unmodelled
  end.

(** [",".join(v)] *)
Definition join_value (sep : text) (v : value) : outcome text :=
  xs <- py_iter v ;;
  ps <- mapM (fun x => match x with
                       | VStr s => Ret s
                       | _ => Raise TypeError
                       end) xs ;;
  Ret (join sep ps).

(** [AppDialog.__init__]: the variables the dialog opens with.
    [initial or {}] is the empty dict for no row and for a falsy one. *)
Definition AppDialog_init (initial : option value) : outcome dialog_vars :=
  let init := match initial with
              | Some v => if truthy v then v else VDict []
              | None => VDict []
              end in
  match init with
  | VDict d =>
      n <- string_var (get d (py "name") (VStr [])) ;;
      i <- string_var (get d (py "icon") (VStr [])) ;;
      l <- string_var (get d (py "locker_id") (VStr [])) ;;
      p <- join_value (py ",")
             (get d (py "platforms") (VList [VStr (py "android"); VStr (py "ios")])) ;;
      Ret {| name_var := n; icon_var := i; locker_var := l; platforms_var := p;
             trending_var := truthy (get d (py "trending") (VBool false));
             featured_var := truthy (get d (py "featured") (VBool false)) |}
  | _ => Raise AttributeError          (* no attribute 'get' *)
  end.

(** a platform as [ok] leaves it *)
Definition normal_platform (p : text) : bool :=
  negb (is_empty p) && text_eqb (strip p) p && text_eqb (lower p) p
  && lacks ","%char p.

(** a record as [ok] leaves it *)
Definition normal_record (a : App) : bool :=
  negb (is_empty (name a)) && text_eqb (strip (name a)) (name a)
  && text_eqb (strip (icon a)) (icon a)
  && text_eqb (strip (locker_id a)) (locker_id a)
  && forallb normal_platform (platforms a).

(** ** Stripping *)

Lemma lstrip_idem p s : lstrip p (lstrip p s) = lstrip p s.
Proof.
  induction s as [|c s IH]; simpl; [reflexivity|].
  destruct (p c) eqn:E; [exact IH|]. simpl. now rewrite E.
Qed.

Lemma lstrip_keep p l c : p c = false -> lstrip p (l ++ [c]) = lstrip p l ++ [c].
Proof.
  intros Hc. induction l as [|x l IH]; simpl.
  - now rewrite Hc.
  - destruct (p x); [exact IH | reflexivity].
Qed.

Lemma lstrip_head p s : lstrip p s = [] \/ exists c u, lstrip p s = c :: u /\ p c = false.
Proof.
  induction s as [|c s IH]; simpl; [now left|].
  destruct (p c) eqn:E; [exact IH|]. right. eauto.
Qed.

Definition stripped (p : ascii -> bool) (t : text) : Prop :=
  lstrip p t = t /\ lstrip p (rev t) = rev t.

Lemma strip_of_stripped p s : stripped p (strip_of p s).
Proof.
  unfold stripped, strip_of. split.
  - destruct (lstrip_head p s) as [->|(c & u & -> & Hc)]; [reflexivity|].
    cbn [rev]. rewrite lstrip_keep by exact Hc.
    rewrite rev_app_distr. cbn [rev app lstrip]. now rewrite Hc.
  - rewrite rev_involutive. apply lstrip_idem.
Qed.

Lemma stripped_strip_of p t : stripped p t -> strip_of p t = t.
Proof.
  intros [H1 H2]. unfold strip_of. rewrite H1, H2. apply rev_involutive.
Qed.

Lemma strip_idem s : strip (strip s) = strip s.
Proof. apply stripped_strip_of, strip_of_stripped. Qed.

Lemma lstrip_map p f s :
  (forall c, p (f c) = p c) -> lstrip p (map f s) = map f (lstrip p s).
Proof.
  intros H. induction s as [|c s IH]; simpl; [reflexivity|].
  rewrite H. destruct (p c); [exact IH | reflexivity].
Qed.

Lemma strip_of_map p f s :
  (forall c, p (f c) = p c) -> strip_of p (map f s) = map f (strip_of p s).
Proof.
  intros H. unfold strip_of.
  rewrite lstrip_map, <- map_rev, lstrip_map, map_rev by exact H. reflexivity.
Qed.

Lemma lstrip_in p s x : In x (lstrip p s) -> In x s.
Proof.
  induction s as [|c s IH]; simpl; [auto|].
  destruct (p c); [auto|]. intros H; exact H.
Qed.

Lemma strip_of_in p s x : In x (strip_of p s) -> In x s.
Proof.
  unfold strip_of. intros H. apply in_rev, lstrip_in, in_rev, lstrip_in in H.
  exact H.
Qed.

(** ** Lower case *)

Ltac every_char c :=
  destruct c as [[] [] [] [] [] [] [] []]; vm_compute; try reflexivity.

Lemma lower_space c : is_space (lower_char c) = is_space c.
Proof. every_char c. Qed.

Lemma lower_char_idem c : lower_char (lower_char c) = lower_char c.
Proof. every_char c. Qed.

Lemma lower_char_comma c : is_not ","%char (lower_char c) = is_not ","%char c.
Proof. every_char c. Qed.

Lemma lower_idem s : lower (lower s) = lower s.
Proof.
  unfold lower. rewrite map_map. apply map_ext. intros c. apply lower_char_idem.
Qed.

Lemma strip_lower s : strip (lower s) = lower (strip s).
Proof. apply strip_of_map, lower_space. Qed.

(** ** Splitting *)

Lemma str_split_lacks sep s : Forall (fun p => lacks sep p = true) (str_split sep s).
Proof.
  induction s as [|c s IH]; cbn [str_split].
  - repeat constructor.
  - destruct (Ascii.eqb c sep) eqn:E.
    + constructor; [reflexivity | exact IH].
    + destruct (str_split sep s) as [|p ps]; [repeat constructor; simpl|].
      * unfold is_not. now rewrite E.
      * inversion IH; subst. constructor; [|assumption].
        cbn [lacks forallb]. unfold is_not at 1. rewrite E. assumption.
Qed.

Lemma lacks_in c t : lacks c t = true <-> ~ In c t.
Proof.
  unfold lacks. induction t as [|x t IH]; simpl.
  - split; auto.
  - unfold is_not at 1. destruct (Ascii.eqb_spec x c) as [->|Hn]; simpl.
    + split; [discriminate | intros H; exfalso; apply H; now left].
    + rewrite IH. split; [intros H [E|H']; auto | intros H H'; apply H; now right].
Qed.

Lemma str_split_piece sep p : lacks sep p = true -> str_split sep p = [p].
Proof.
  induction p as [|c p IH]; cbn [str_split lacks forallb]; [reflexivity|].
  intros H. apply andb_true_iff in H as [Hc Hp].
  unfold is_not in Hc. apply negb_true_iff in Hc. rewrite Hc.
  rewrite (IH Hp). reflexivity.
Qed.

Lemma str_split_app sep p rest :
  lacks sep p = true ->
  str_split sep (p ++ sep :: rest) = p :: str_split sep rest.
Proof.
  induction p as [|c p IH]; cbn [str_split lacks forallb app].
  - intros _. now rewrite Ascii.eqb_refl.
  - intros H. apply andb_true_iff in H as [Hc Hp].
    unfold is_not in Hc. apply negb_true_iff in Hc. rewrite Hc.
    rewrite (IH Hp). reflexivity.
Qed.

Lemma str_split_join sep ps :
  ps <> [] -> Forall (fun p => lacks sep p = true) ps ->
  str_split sep (join [sep] ps) = ps.
Proof.
  induction ps as [|p ps IH]; [congruence|]. intros _ H.
  inversion H as [|? ? Hp Hps]; subst.
  destruct ps as [|q ps].
  - cbn [join]. now apply str_split_piece.
  - change (join [sep] (p :: q :: ps)) with (p ++ sep :: join [sep] (q :: ps)).
    rewrite str_split_app by exact Hp. rewrite IH; [reflexivity|discriminate|exact Hps].
Qed.

(** ** What Save makes of the fields *)

Lemma text_eqb_eq a b : text_eqb a b = true <-> a = b.
Proof. destruct (text_eqb_spec a b); split; congruence. Qed.

Lemma lacks_lower p : lacks ","%char p = true -> lacks ","%char (lower p) = true.
Proof.
  unfold lacks, lower. intros H. rewrite forallb_forall in *.
  intros x Hx. apply in_map_iff in Hx as (y & <- & Hy).
  rewrite lower_char_comma. auto.
Qed.

Lemma lacks_strip c p : lacks c p = true -> lacks c (strip p) = true.
Proof.
  rewrite !lacks_in. intros H Hin. apply H. eapply strip_of_in; eauto.
Qed.

Lemma platform_normal q :
  lacks ","%char q = true -> is_empty (strip q) = false ->
  normal_platform (lower (strip q)) = true.
Proof.
  intros Hq Hne. unfold normal_platform.
  rewrite strip_lower, strip_idem, lower_idem, !text_eqb_refl.
  rewrite lacks_lower by now apply lacks_strip.
  destruct (strip q); [discriminate | reflexivity].
Qed.

Lemma platforms_of_normal s : forallb normal_platform (platforms_of s) = true.
Proof.
  apply forallb_forall. intros p Hp. unfold platforms_of in Hp.
  apply in_map_iff in Hp as (q & <- & Hq).
  apply filter_In in Hq as [Hq Hne]. apply negb_true_iff in Hne.
  apply platform_normal; [|exact Hne].
  pose proof (str_split_lacks ","%char s) as H. rewrite Forall_forall in H. auto.
Qed.

Lemma str_split_not_nil sep s : str_split sep s <> [].
Proof.
  destruct s as [|c s]; cbn [str_split]; [discriminate|].
  destruct (Ascii.eqb c sep); [discriminate|].
  destruct (str_split sep s); discriminate.
Qed.

(** the pieces of a split, joined with the separator, are the text *)
Lemma join_str_split sep s : join [sep] (str_split sep s) = s.
Proof.
  induction s as [|c s IH]; [reflexivity|]. cbn [str_split].
  pose proof (str_split_not_nil sep s) as Hne.
  destruct (Ascii.eqb_spec c sep) as [->|Hc].
  - destruct (str_split sep s) as [|p ps]; [contradiction|].
    change (join [sep] ([] :: p :: ps)) with ([sep] ++ join [sep] (p :: ps)).
    rewrite IH. reflexivity.
  - destruct (str_split sep s) as [|p ps]; [contradiction|].
    destruct ps as [|q ps].
    + cbn [join] in *. now rewrite IH.
    + change (join [sep] ((c :: p) :: q :: ps))
        with (c :: (p ++ [sep] ++ join [sep] (q :: ps))).
      change (join [sep] (p :: q :: ps))
        with (p ++ [sep] ++ join [sep] (q :: ps)) in IH.
      now rewrite IH.
Qed.

(** the record [a] is what Save makes of the fields [v], whose platform
    field reads as the comma-separated [entries] *)
Definition made_of (v : dialog_vars) (a : App) (entries : list text) : Prop :=
  name a = strip (name_var v)
  /\ icon a = strip (icon_var v)
  /\ locker_id a = strip (locker_var v)
  /\ trending a = trending_var v
  /\ featured a = featured_var v
  /\ platforms_var v = join [","%char] entries
  /\ Forall (fun e => lacks ","%char e = true) entries
  /\ platforms a
     = map (fun e => lower (strip e))
           (filter (fun e => negb (is_empty (strip e))) entries).

(** Save normalises what was typed.  When the name field is empty or
    white space, [ok] returns no record.  Otherwise it returns one: its
    name, icon and locker id are the fields stripped, its booleans the
    two boxes, and its platforms the entries of the comma-separated
    field, the empty ones dropped, the others stripped and put in lower
    case, in their order.  So in a record that [ok] returns the name is
    not empty, no string has white space at either end, and every
    platform is non-empty, stripped, lower-case and free of commas. *)
Theorem ok_leaves_normal_record (v : dialog_vars) :
  (strip (name_var v) = [] -> ok v = None)
  /\ (strip (name_var v) <> [] ->
      exists a entries,
        ok v = Some a /\ made_of v a entries /\ normal_record a = true).
Proof.
  unfold ok. split.
  - intros ->. reflexivity.
  - intros Hn. unfold made_of.
    destruct (strip (name_var v)) as [|c n] eqn:E; [contradiction|].
    cbn [is_empty]. eexists. exists (str_split ","%char (platforms_var v)).
    split; [reflexivity|]. split.
    + cbn [name icon locker_id platforms trending featured].
      repeat split; try reflexivity.
      * symmetry. apply join_str_split.
      * apply str_split_lacks.
    + unfold normal_record. cbn [name icon locker_id platforms is_empty negb andb].
      rewrite <- E, !strip_idem, !text_eqb_refl, platforms_of_normal. reflexivity.
Qed.

(** the fields as a user may leave them *)
Definition typed_vars : dialog_vars :=
  {| name_var := py "  Bar ";
     icon_var := py " https://cdn.example/bar.png";
     locker_var := py "42 ";
     platforms_var := py " Android , ,iOS,";
     trending_var := true;
     featured_var := false |}.

Definition typed_record : App :=
  {| name := py "Bar";
     icon := py "https://cdn.example/bar.png";
     locker_id := py "42";
     platforms := [py "android"; py "ios"];
     trending := true;
     featured := false |}.

Lemma ok_leaves_normal_record_witness :
  ok typed_vars = Some typed_record
  /\ exists a entries,
       ok typed_vars = Some a /\ made_of typed_vars a entries
       /\ normal_record a = true.
Proof.
  split; [reflexivity|].
  exact (proj2 (ok_leaves_normal_record typed_vars) ltac:(discriminate)).
Defined.

Lemma join_value_strings sep ps :
  join_value sep (VList (map VStr ps)) = Ret (join sep ps).
Proof.
  unfold join_value. cbn [py_iter bind].
  rewrite (mapM_map_ret _ VStr (fun s => s)) by reflexivity.
  now rewrite map_id.
Qed.

Lemma platforms_of_join ps :
  forallb normal_platform ps = true -> platforms_of (join (py ",") ps) = ps.
Proof.
  intros H. change (py ",") with [","%char]. unfold platforms_of.
  destruct ps as [|p0 ps0]; [reflexivity|].
  remember (p0 :: ps0) as ps eqn:Eps.
  assert (Hne : ps <> []) by (subst; discriminate). clear Eps p0 ps0.
  rewrite forallb_forall in H.
  rewrite str_split_join; [|exact Hne|].
  2:{ apply Forall_forall. intros p Hp. specialize (H p Hp).
      unfold normal_platform in H. now apply andb_true_iff in H as [_ H]. }
  clear Hne. induction ps as [|p ps IH]; [reflexivity|].
  assert (Hp : normal_platform p = true) by (apply H; now left).
  unfold normal_platform in Hp.
  apply andb_true_iff in Hp as [Hp _]. apply andb_true_iff in Hp as [Hp Hl].
  apply andb_true_iff in Hp as [He Hs].
  apply text_eqb_eq in Hl, Hs.
  cbn [filter]. rewrite Hs, He. cbn [map]. rewrite Hs, Hl.
  f_equal. apply IH. intros x Hx. apply H. now right.
Qed.

(** Opening a record and saving it changes nothing.  The dialog opened
    on a record that [ok] made (or on any record in that form) shows
    fields from which [ok] makes the same record again, so an Edit in
    which nothing is typed leaves the row as it was. *)
Theorem reopened_record_is_kept (a : App) :
  normal_record a = true ->
  exists v, AppDialog_init (Some (dict_of_app a)) = Ret v /\ ok v = Some a.
Proof.
  intros H. unfold normal_record in H.
  apply andb_true_iff in H as [H Hp]. apply andb_true_iff in H as [H Hl].
  apply andb_true_iff in H as [H Hi]. apply andb_true_iff in H as [Hne Hn].
  apply text_eqb_eq in Hl, Hi, Hn. apply negb_true_iff in Hne.
  unfold AppDialog_init.
  destruct (dict_of_app a) as [| | | | |d] eqn:E; try discriminate.
  assert (Ht : truthy (VDict d) = true) by (injection E as <-; reflexivity).
  rewrite Ht.
  destruct (get_dialog_fields E) as (Gn & Gi & Gl & Gp & Gt & Gf).
  assert (Gp' : get d (py "platforms") (VList [VStr (py "android"); VStr (py "ios")])
                = VList (map VStr (platforms a))) by (injection E as <-; reflexivity).
  rewrite Gn, Gi, Gl, Gp', Gt, Gf. cbn [string_var bind].
  rewrite join_value_strings. cbn [bind truthy].
  eexists; split; [reflexivity|].
  unfold ok. cbn [name_var icon_var locker_var platforms_var trending_var featured_var].
  rewrite Hn, Hne, Hi, Hl, platforms_of_join by exact Hp.
  destruct a; reflexivity.
Qed.

Lemma reopened_record_is_kept_witness :
  exists v, AppDialog_init (Some (dict_of_app typed_record)) = Ret v
            /\ ok v = Some typed_record.
Proof. exact (reopened_record_is_kept typed_record eq_refl). Defined.

(* ===================================================================== *)
(** * Records with missing fields

    The decoder returns a record as the dict of the keys the literal
    writes.  A default takes the place of a missing field where the
    record is read, and the readers do not agree on the platforms. *)
(* ===================================================================== *)
















(* ===================================================================== *)
(** * A page with a heading *)
(* ===================================================================== *)

(** the search passes over text on which the pattern cannot start *)
Lemma search_from_skip r c0 pre s :
  (forall adv prev c s, c <> c0 -> match_here r adv prev (c :: s) = None) ->
  Forall (fun c => c <> c0) pre ->
  forall prev, search_from r prev (pre ++ s) = search_from r (last_of prev pre) s.
Proof.
  intros Hr Hpre. induction Hpre as [|c pre Hc _ IH]; intros prev; [reflexivity|].
  cbn [app search_from last_of]. rewrite (Hr false prev c (pre ++ s) Hc). apply IH.
Qed.

Lemma search_from_here r prev s m :
  match_here r false prev s = Some m -> search_from r prev s = Some m.
Proof. intros H. destruct s; cbn [search_from]; rewrite H; reflexivity. Qed.

(** a pattern of [load] whose value is a lazy run between two literals *)
Lemma load_lazy_match open p c1 close' v post adv prev :
  open <> [] ->
  forallb p v = true ->
  Forall (fun c => c <> c1) v ->
  match_here (RStr open ⋅ RGroup 1 (RLazy p) ⋅ RStr (c1 :: close')) adv prev
             (open ++ v ++ (c1 :: close') ++ post)
  = Some {| m_text := open ++ v ++ (c1 :: close');
            m_groups := [(1, v)];
            m_rest := post |}.
Proof.
  intros Hne Hp Hv. unfold match_here. cbn [rmatch].
  rewrite strip_prefix_app. rewrite rep_lazy_skip; [|exact Hp|].
  2:{ intros c t pv Hin. rewrite strip_prefix_head; [reflexivity|].
      rewrite Forall_forall in Hv. intros E. apply (Hv c Hin). congruence. }
  erewrite rep_lazy_here; [reflexivity|].
  rewrite strip_prefix_app.
  replace (Nat.eqb (List.length post)
             (List.length (open ++ v ++ (c1 :: close') ++ post))) with false.
  2:{ symmetry. rewrite !app_assoc. apply length_after_nonempty.
      destruct open; [contradiction|discriminate]. }
  rewrite andb_false_r.
  rewrite !firstn_consumed.
  replace (open ++ v ++ (c1 :: close') ++ post)
    with ((open ++ v ++ c1 :: close') ++ post) by (rewrite <- !app_assoc; reflexivity).
  rewrite firstn_consumed. reflexivity.
Qed.

Lemma extract_h1 pre v post :
  lacks "<" pre = true -> lacks "<" v = true ->
  extract Load.h1 (pre ++ py "<h1>" ++ v ++ py "</h1>" ++ post) = v.
Proof.
  intros Hpre Hv. unfold extract, re_search.
  destruct (starts_on_no_match Load.h1 "<") as [_ Hstart].
  { unfold Load.h1. repeat apply starts_on_cat. apply (starts_on_str "<" (py "h1>")). }
  rewrite (search_from_skip Load.h1 "<" pre _ Hstart) by now apply lacks_Forall.
  rewrite (search_from_here Load.h1 _ _
             {| m_text := py "<h1>" ++ v ++ py "</h1>";
                m_groups := [(1, v)]; m_rest := post |}); [reflexivity|].
  apply (load_lazy_match (py "<h1>") dotall "<" (py "/h1>"));
    auto using lacks_Forall, forallb_dotall.
  discriminate.
Qed.

(** the patterns of [load] and [save] other than the heading's *)
Definition heading_only (doc : text) : bool :=
  forallb (fun p => absent p doc)
    [ Load.logo; Load.tagline; Load.title;
      Load.meta attr_description; Load.meta attr_keywords;
      Load.meta attr_og_image; Load.meta attr_twitter_image;
      Load.settings; apps_pattern;
      Save.logo; Save.tagline; Save.title; Save.settings ].

Definition with_heading (doc v : text) : LPData :=
  {| html := doc; logo_src := []; h1_title := v; tagline := [];
     meta_title := []; meta_desc := []; meta_keywords := []; og_image := [];
     twitter_image := []; cpab_it := []; cpab_key := []; apps := VList [] |}.

(** A page whose only marker is a heading.  When the text around and
    inside the heading holds no [<], [load] reads the text between
    [<h1>] and [</h1>]; and [save] with a heading that holds no
    backslash and starts with no digit writes the page with that heading
    in place of the old one and nothing else changed.  With the heading
    as it was read, the page that is written is the page that was
    read. *)
Theorem heading_is_read_and_written json5 json_loads (pre v post value : text) :
  lacks "<" pre = true -> lacks "<" v = true -> lacks "<" post = true ->
  inert value = true ->
  heading_only (pre ++ py "<h1>" ++ v ++ py "</h1>" ++ post) = true ->
  heading_only (pre ++ py "<h1>" ++ value ++ py "</h1>" ++ post) = true ->
  load_html json5 json_loads (pre ++ py "<h1>" ++ v ++ py "</h1>" ++ post)
  = Ret (with_heading (pre ++ py "<h1>" ++ v ++ py "</h1>" ++ post) v)
  /\ save_html (with_heading (pre ++ py "<h1>" ++ v ++ py "</h1>" ++ post) value)
     = Ret (pre ++ py "<h1>" ++ value ++ py "</h1>" ++ post).
Proof.
  intros Hpre Hv Hpost Hin H H'.
  assert (Eh : extract Load.h1 (pre ++ py "<h1>" ++ v ++ py "</h1>" ++ post) = v)
    by now apply extract_h1.
  assert (Sh : subst Save.h1 value (pre ++ py "<h1>" ++ v ++ py "</h1>" ++ post)
               = Ret (pre ++ py "<h1>" ++ value ++ py "</h1>" ++ post))
    by now apply subst_h1.
  remember (pre ++ py "<h1>" ++ v ++ py "</h1>" ++ post) as doc eqn:Edoc.
  remember (pre ++ py "<h1>" ++ value ++ py "</h1>" ++ post) as doc' eqn:Edoc'.
  clear Edoc Edoc'. unfold heading_only in H, H'.
  assert (N : forall d, forallb (fun p => absent p d)
                [ Load.logo; Load.tagline; Load.title;
                  Load.meta attr_description; Load.meta attr_keywords;
                  Load.meta attr_og_image; Load.meta attr_twitter_image;
                  Load.settings; apps_pattern;
                  Save.logo; Save.tagline; Save.title; Save.settings ] = true ->
              forall p, In p
                [ Load.logo; Load.tagline; Load.title;
                  Load.meta attr_description; Load.meta attr_keywords;
                  Load.meta attr_og_image; Load.meta attr_twitter_image;
                  Load.settings; apps_pattern;
                  Save.logo; Save.tagline; Save.title; Save.settings ] ->
                re_search p d = None).
  { intros d Hd p Hp. apply absent_none. rewrite forallb_forall in Hd. apply Hd, Hp. }
  pose proof (N doc H) as Nd. pose proof (N doc' H') as Nd'. clear N H H'.
  assert (M : forall p, In p
                [ Load.logo; Load.tagline; Load.title;
                  Load.meta attr_description; Load.meta attr_keywords;
                  Load.meta attr_og_image; Load.meta attr_twitter_image ] ->
                extract p doc = []).
  { intros p Hp. apply absent_marker_extract, Nd. cbn [In] in *. tauto. }
  split.
  - rewrite load_html_plain by (apply Nd; cbn [In]; tauto).
    rewrite Eh, !M by (cbn [In]; tauto). reflexivity.
  - unfold save_html, with_heading.
    cbn [html logo_src h1_title tagline meta_title meta_desc meta_keywords
         og_image twitter_image cpab_it cpab_key apps subst_if].
    rewrite (absent_marker_subst Save.logo [] doc)
      by (try reflexivity; try (apply Nd; cbn [In]; tauto); cbn; lia).
    cbn [bind]. rewrite Sh. cbn [bind].
    rewrite (absent_marker_subst Save.tagline [] doc')
      by (try reflexivity; try (apply Nd'; cbn [In]; tauto); cbn; lia).
    cbn [bind].
    rewrite (absent_marker_subst Save.title [] doc')
      by (try reflexivity; try (apply Nd'; cbn [In]; tauto); cbn; lia).
    cbn [bind].
    unfold subst_settings. cbn [int_or_zero bind].
    rewrite (absent_marker_subst Save.settings (json_dumps_settings 0 []) doc')
      by (try reflexivity; try (apply Nd'; cbn [In]; tauto); cbn; lia).
    cbn [bind]. unfold subst_apps.
    assert (E : python_apps_to_js (VList []) = Ret (py "const APPS = [" ++ [nl] ++ py "];"))
      by reflexivity.
    rewrite E. cbn [bind]. unfold re_sub.
    assert (T : parse_template (groups_of apps_pattern) Plain
                  (py "const APPS = [" ++ [nl] ++ py "];")
                = Ret (map TLit (py "const APPS = [" ++ [nl] ++ py "];")))
      by (vm_compute; reflexivity).
    rewrite T. cbn [bind]. unfold re_sub_fun.
    rewrite sub_scan_no_match by (apply Nd'; cbn [In]; tauto). reflexivity.
Qed.

Lemma heading_is_read_and_written_witness :
  save_html (with_heading (py "Offers: " ++ py "<h1>" ++ py "Best Apps 2024"
                             ++ py "</h1>" ++ py " and more")
                          (py "Apps of the week"))
  = Ret (py "Offers: " ++ py "<h1>" ++ py "Apps of the week" ++ py "</h1>"
           ++ py " and more").
Proof.
  refine (proj2 (heading_is_read_and_written None json_loads_unused
                   (py "Offers: ") (py "Best Apps 2024") (py " and more")
                   (py "Apps of the week") _ _ _ _ _ _)); vm_compute; reflexivity.
Defined.

(* ===================================================================== *)
(** * The Save button ([AppGUI.save_changes])

    The handler pulls the ten text fields of the form into the object,
    stripped, calls [save] on the primary file, and shows a box for the
    result: any exception of [save] is caught and shown. *)
(* ===================================================================== *)

Record form_vars : Type := {
  logo_var : text;
  h1_var : text;
  tagline_var : text;
  meta_title_var : text;
  meta_desc_var : text;
  meta_keywords_var : text;
  og_image_var : text;
  twitter_image_var : text;
  cpab_it_var : text;
  cpab_key_var : text
}.

(** the object after the ten assignments; [x or '0'] for the [it] field *)
Definition pull_vars (lp : LPData) (f : form_vars) : LPData :=
  {| html := html lp;
     logo_src := strip (logo_var f);
     h1_title := strip (h1_var f);
     tagline := strip (tagline_var f);
     meta_title := strip (meta_title_var f);
     meta_desc := strip (meta_desc_var f);
     meta_keywords := strip (meta_keywords_var f);
     og_image := strip (og_image_var f);
     twitter_image := strip (twitter_image_var f);
     cpab_it := match strip (cpab_it_var f) with
                | [] => py "0"
                | it => it
                end;
     cpab_key := strip (cpab_key_var f);
     apps := apps lp |}.

(** the box the handler shows *)
Inductive notice : Type :=
| Saved
| CouldNotSave (e : pyexn).

Definition save_changes (fault : write_fault) (fs : filesystem) (lp : LPData)
           (f : form_vars) : filesystem * LPData * outcome notice :=
  match save fault fs (pull_vars lp f) INDEX_FILE with
  | (fs', lp', Ret _) => (fs', lp', Ret Saved)
  | (fs', lp', Raise e) => (fs', lp', Ret (CouldNotSave e))
  | (fs', lp', Unmodelled) => (fs', lp', Unmodelled)
  end.

(** A heading that starts with a digit cannot be saved.  When the
    heading field, stripped, starts with a digit and its first two
    characters are not both octal digits, and the logo step before it
    returns, Save shows the error box whatever the page is; no file is
    written, and the object keeps the page it had together with the
    fields as typed, so every later Save and Preview fails the same way
    until the heading is changed. *)
Theorem digit_heading_is_not_saved
        (fault : write_fault) (fs : filesystem) (lp : LPData) (f : form_vars)
        (d1 : ascii) (rest h : text) :
  subst Save.logo (strip (logo_var f)) (html lp) = Ret h ->
  strip (h1_var f) = d1 :: rest ->
  is_digit d1 = true ->
  is_octdigit d1 && is_octdigit (second_char rest) = false ->
  save_changes fault fs lp f = (fs, pull_vars lp f, Ret (CouldNotSave re_error))
  /\ html (pull_vars lp f) = html lp
  /\ save_html (pull_vars lp f) = Raise re_error.
Proof.
  intros Hlogo Hh Hd Ho.
  assert (E : save_html (pull_vars lp f) = Raise re_error).
  { unfold save_html, pull_vars.
    cbn [html logo_src h1_title]. rewrite Hlogo. cbn [bind]. rewrite Hh.
    unfold subst, re_sub.
    rewrite (digit_template_raises (groups_of Save.h1) d1 rest); auto.
    cbn. lia. }
  split; [|split; [reflexivity|exact E]].
  unfold save_changes, save. rewrite E. reflexivity.
Qed.

Definition heading_page : text := py "<body><h1>Old</h1></body>".

Definition typed_form : form_vars :=
  {| logo_var := []; h1_var := py " 7 Tips "; tagline_var := [];
     meta_title_var := []; meta_desc_var := []; meta_keywords_var := [];
     og_image_var := []; twitter_image_var := [];
     cpab_it_var := []; cpab_key_var := [] |}.

Lemma digit_heading_is_not_saved_witness :
  save_changes NoFault (one_file heading_page) (blank heading_page) typed_form
  = (one_file heading_page, pull_vars (blank heading_page) typed_form,
     Ret (CouldNotSave re_error)).
Proof.
  refine (proj1 (digit_heading_is_not_saved NoFault (one_file heading_page)
                   (blank heading_page) typed_form "7" (py " Tips") heading_page
                   _ _ _ _)); vm_compute; reflexivity.
Defined.

(* ===================================================================== *)
(** * The array step of [save] *)
(* ===================================================================== *)

(** [l] starts at no position of [pre] in the text [pre ++ rest] *)
Fixpoint clear_before (l pre rest : text) : bool :=
  match pre with
  | [] => true
  | _ :: pre' =>
      match strip_prefix l (pre ++ rest) with
      | None => clear_before l pre' rest
      | Some _ => false
      end
  end.

(** a pattern that starts with the literal [l] *)
Definition begins_with (r : regex) (l : text) : Prop :=
  forall (A : Type) prev s g (k : option ascii -> text -> caps -> option A),
    strip_prefix l s = None -> rmatch r prev s g k = None.

Lemma begins_with_no_match r l adv prev s :
  begins_with r l -> strip_prefix l s = None -> match_here r adv prev s = None.
Proof. intros H Hs. unfold match_here. apply H, Hs. Qed.

Lemma sub_scan_copy_clear r f l pre rest :
  begins_with r l -> clear_before l pre rest = true ->
  forall prev,
    sub_scan r f prev (pre ++ rest) 0 = pre ++ sub_scan r f (last_of prev pre) rest 0.
Proof.
  intros Hr. induction pre as [|c pre IH]; intros Hc prev; [reflexivity|].
  cbn [clear_before] in Hc.
  destruct (strip_prefix l ((c :: pre) ++ rest)) eqn:E; [discriminate|].
  cbn [app sub_scan last_of] in *.
  rewrite (begins_with_no_match r l false prev _ Hr E).
  f_equal. apply IH, Hc.
Qed.

Lemma rep_lazy_skip_clear (A : Type) p (k : option ascii -> text -> option A)
      close v rest :
  forallb p v = true ->
  (forall pv s, strip_prefix close s = None -> k pv s = None) ->
  clear_before close v rest = true ->
  forall prev, rep_lazy p k prev (v ++ rest) = rep_lazy p k (last_of prev v) rest.
Proof.
  intros Hp Hk. induction v as [|c v IH]; intros Hc prev; [reflexivity|].
  cbn [forallb] in Hp. apply andb_true_iff in Hp as [Hpc Hp].
  cbn [clear_before] in Hc.
  destruct (strip_prefix close ((c :: v) ++ rest)) eqn:E; [discriminate|].
  cbn [app rep_lazy last_of] in *. rewrite (Hk prev _ E), Hpc.
  apply IH; assumption.
Qed.

(** a pattern whose one group is a lazy run between an opening and a
    closing literal *)
Lemma lazy_group_match O open p close v post adv prev :
  opens O open -> open <> [] ->
  forallb p v = true ->
  clear_before close v (close ++ post) = true ->
  match_here (O ⋅ RGroup 1 (RLazy p) ⋅ RStr close) adv prev
             (open ++ v ++ close ++ post)
  = Some {| m_text := open ++ v ++ close;
            m_groups := [(1, v)];
            m_rest := post |}.
Proof.
  intros HO Hne Hp Hc. unfold match_here. rewrite !rmatch_cat, HO, rmatch_group.
  cbn [rmatch].
  rewrite (rep_lazy_skip_clear _ p _ close v (close ++ post) Hp); [|
    intros pv s E; rewrite E; reflexivity | exact Hc].
  erewrite rep_lazy_here; [reflexivity|].
  rewrite strip_prefix_app.
  replace (Nat.eqb (List.length post)
             (List.length (open ++ v ++ close ++ post))) with false.
  2:{ symmetry. rewrite !app_assoc. apply length_after_nonempty.
      destruct open; [contradiction|discriminate]. }
  rewrite andb_false_r.
  rewrite !firstn_consumed.
  replace (open ++ v ++ close ++ post)
    with ((open ++ v ++ close) ++ post) by (rewrite <- !app_assoc; reflexivity).
  rewrite firstn_consumed. reflexivity.
Qed.

(** the opening of the declaration, with any white space between its
    parts *)
Definition apps_open (w1 w2 w3 : text) : text :=
  ((py "const" ++ w1 ++ py "APPS") ++ w2 ++ py "=") ++ w3 ++ py "[".

Lemma apps_pattern_match w1 w2 w3 body post adv prev :
  forallb is_space w1 = true -> w1 <> [] ->
  forallb is_space w2 = true -> forallb is_space w3 = true ->
  clear_before (py "];") body (py "];" ++ post) = true ->
  match_here apps_pattern adv prev (apps_open w1 w2 w3 ++ body ++ py "];" ++ post)
  = Some {| m_text := apps_open w1 w2 w3 ++ body ++ py "];";
            m_groups := [(1, body)];
            m_rest := post |}.
Proof.
  intros H1 N1 H2 H3 Hb.
  apply (lazy_group_match
           (RStr (py "const") ⋅ RPlus is_space ⋅ RStr (py "APPS") ⋅ RStar is_space
            ⋅ RStr (py "=") ⋅ RStar is_space ⋅ RStr (py "["))
           (apps_open w1 w2 w3) dotall (py "];")); auto using forallb_dotall.
  - unfold apps_open.
    apply (opens_then_star_str _ _ w3 "[" []); auto.
    apply (opens_then_star_str _ _ w2 "=" []); auto.
    apply (opens_spaced (py "const") w1 "A" (py "PPS")); auto.
  - discriminate.
Qed.

Lemma apps_pattern_begins : begins_with apps_pattern (py "const").
Proof.
  intros A prev s g k H. unfold apps_pattern. rewrite !rmatch_cat.
  cbn [rmatch]. rewrite H. reflexivity.
Qed.

(** the other patterns of [save], and the ones of [load] *)
Definition apps_only (doc : text) : bool :=
  forallb (fun p => absent p doc)
    [ Save.logo; Save.h1; Save.tagline; Save.title; Save.settings ].

Definition with_apps (doc : text) (records : value) : LPData :=
  {| html := doc; logo_src := []; h1_title := []; tagline := [];
     meta_title := []; meta_desc := []; meta_keywords := []; og_image := [];
     twitter_image := []; cpab_it := []; cpab_key := []; apps := records |}.

Lemma expand_literal t m : expand (map TLit t) m = t.
Proof.
  unfold expand. induction t as [|c t IH]; [reflexivity|].
  cbn [map flat_map app]. now rewrite IH.
Qed.

(** Save writes the table into the page.  On a page whose one
    declaration is [const APPS = [ ... ];] (with any white space, any
    old content without the closing [];] inside, and [const] nowhere
    else) and which has none of the other markers, [save] replaces the
    declaration by the encoding of the records of the dialog, when no
    record holds a backslash, and leaves the text before and after it as
    it is. *)
Theorem table_is_written (pre post w1 w2 w3 body : text) (records : list App) :
  forallb is_space w1 = true -> w1 <> [] ->
  forallb is_space w2 = true -> forallb is_space w3 = true ->
  clear_before (py "];") body (py "];" ++ post) = true ->
  clear_before (py "const") pre (apps_open w1 w2 w3 ++ body ++ py "];" ++ post) = true ->
  clear_before (py "const") post [] = true ->
  no_bsl (encode_layout records) = true ->
  apps_only (pre ++ apps_open w1 w2 w3 ++ body ++ py "];" ++ post) = true ->
  save_html (with_apps (pre ++ apps_open w1 w2 w3 ++ body ++ py "];" ++ post)
                       (VList (map dict_of_app records)))
  = Ret (pre ++ encode_layout records ++ post).
Proof.
  intros H1 N1 H2 H3 Hb Hpre Hpost Hr H.
  assert (S : sub_scan apps_pattern (fun _ => encode_layout records) None
                (pre ++ apps_open w1 w2 w3 ++ body ++ py "];" ++ post) 0
              = pre ++ encode_layout records ++ post).
  { rewrite (sub_scan_copy_clear _ _ (py "const") pre _ apps_pattern_begins Hpre).
    assert (Em : exists t, apps_open w1 w2 w3 ++ body ++ py "];" = "c"%char :: t).
    { eexists. unfold apps_open. rewrite <- !app_assoc. reflexivity. }
    destruct Em as [t Em].
    assert (E : apps_open w1 w2 w3 ++ body ++ py "];" ++ post
                = ("c"%char :: t) ++ post).
    { rewrite <- Em, <- !app_assoc. reflexivity. }
    rewrite E.
    rewrite (sub_scan_at_match _ _ _ _ _ _
               {| m_text := apps_open w1 w2 w3 ++ body ++ py "];";
                  m_groups := [(1, body)]; m_rest := post |}).
    - f_equal. f_equal.
      rewrite <- (app_nil_r post) at 1.
      rewrite (sub_scan_copy_clear _ _ (py "const") post [] apps_pattern_begins Hpost).
      rewrite sub_scan_end, app_nil_r; [reflexivity|].
      apply (begins_with_no_match _ (py "const")); [apply apps_pattern_begins|reflexivity].
    - rewrite <- E. now apply apps_pattern_match.
    - exact Em. }
  remember (pre ++ apps_open w1 w2 w3 ++ body ++ py "];" ++ post) as doc eqn:Edoc.
  clear Edoc. unfold apps_only in H.
  assert (N : forall p, In p [ Save.logo; Save.h1; Save.tagline; Save.title;
                               Save.settings ] ->
                re_search p doc = None).
  { intros p Hp. apply absent_none. rewrite forallb_forall in H. apply H, Hp. }
  unfold save_html, with_apps.
  cbn [html logo_src h1_title tagline meta_title meta_desc meta_keywords
       og_image twitter_image cpab_it cpab_key apps subst_if].
  rewrite (absent_marker_subst Save.logo [] doc)
    by (try reflexivity; try (apply N; cbn [In]; tauto); cbn; lia).
  cbn [bind].
  rewrite (absent_marker_subst Save.h1 [] doc)
    by (try reflexivity; try (apply N; cbn [In]; tauto); cbn; lia).
  cbn [bind].
  rewrite (absent_marker_subst Save.tagline [] doc)
    by (try reflexivity; try (apply N; cbn [In]; tauto); cbn; lia).
  cbn [bind].
  rewrite (absent_marker_subst Save.title [] doc)
    by (try reflexivity; try (apply N; cbn [In]; tauto); cbn; lia).
  cbn [bind].
  unfold subst_settings. cbn [int_or_zero bind].
  rewrite (absent_marker_subst Save.settings (json_dumps_settings 0 []) doc)
    by (try reflexivity; try (apply N; cbn [In]; tauto); cbn; lia).
  cbn [bind]. unfold subst_apps. rewrite encode_of_records. cbn [bind].
  unfold re_sub.
  rewrite <- (app_nil_r (encode_layout records)) at 1.
  rewrite (parse_template_literal _ (encode_layout records) [] [] Hr eq_refl).
  rewrite app_nil_r. cbn [bind]. f_equal. unfold re_sub_fun.
  rewrite <- S. apply sub_scan_ext. intros m. apply expand_literal.
Qed.

Definition script_pre : text := py "<html><script>" ++ [nl].
Definition script_post : text := [nl] ++ py "</script></html>".
Definition old_body : text :=
  [nl] ++ py "  {name: 'Old', platforms: ['ios']}," ++ [nl].

Lemma table_is_written_witness :
  save_html (with_apps (script_pre ++ apps_open (py " ") (py " ") (py " ")
                          ++ old_body ++ py "];" ++ script_post)
                       (VList (map dict_of_app [typed_record])))
  = Ret (script_pre ++ encode_layout [typed_record] ++ script_post).
Proof.
  apply (table_is_written script_pre script_post (py " ") (py " ") (py " ")
           old_body [typed_record]);
    try (vm_compute; reflexivity).
  discriminate.
Defined.
